(** * pamcut: cutting a rectangle out of a Netpbm image

    A shallow embedding of [editor/pamcut.c] and the properties of its
    rectangle resolver, bounds validator, row cutter and row drivers.

    C [int] values are integers of [Z] in the range [INT_MIN .. INT_MAX].
    The arithmetic of the source on arguments, edges of the rectangle, widths
    and heights is written with its 32-bit wrap-around ([sint] for [int],
    [uint] for [unsigned int]), and so is the [++] of every loop.  Array
    indices are computed in [Z]: the theorems on the row loops are about
    rectangles whose edges and extents the [int] variables hold
    ([cut_in_range] below).

    libnetpbm, the option parser and [sscanf] are not part of the sources
    modelled here.  [sscanf], [PBM_BLACK], the black tuple and the contents of
    fresh memory are parameters; the row readers and writers of libnetpbm are
    modelled from the design document, a file being the rows of pixels in
    it. *)

From Stdlib Require Import ZArith Lia Bool Ascii String List.
From stdpp Require Import base numbers list.

Local Open Scope Z_scope.

(** ** Machine integers *)

Definition INT_MAX : Z := 2147483647.
Definition INT_MIN : Z := -2147483648.

(** The value an [int] expression has after two's complement wrap-around. *)
Definition sint (z : Z) : Z := (z + 2147483648) mod 4294967296 - 2147483648.

(** The value an [unsigned int] expression has. *)
Definition uint (z : Z) : Z := z mod 4294967296.

Definition is_int (z : Z) : Prop := INT_MIN <= z <= INT_MAX.

(** [#define UNSPEC INT_MAX] *)
Definition UNSPEC : Z := INT_MAX.

Definition MAX (a b : Z) : Z := if a >? b then a else b.
Definition MIN (a b : Z) : Z := if a <? b then a else b.

(** ** Errors: every [pm_error] call of the program, and the one of the
    library's row reader when the file ends before the image does *)

Inductive error : Type :=
| WidthNegative
| HeightNegative
| WrongNumberOfArguments (n : Z)
| InvalidLeftArgument
| InvalidTopArgument
| InvalidWidthArgument
| InvalidHeightArgument
| LeftRightWidth
| TopBottomHeight
| LeftBeyondLeftEdge (leftcol : Z)
| LeftBeyondRightEdge (leftcol : Z)
| RightBeyondLeftEdge (rightcol : Z)
| RightBeyondRightEdge (rightcol : Z)
| TopAboveTopEdge (toprow : Z)
| TopBelowBottomEdge (toprow : Z)
| BottomAboveTopEdge (bottomrow : Z)
| BottomBelowBottomEdge (bottomrow : Z)
| LeftRightOfRight (leftcol rightcol : Z)
| TopBelowBottom (toprow bottomrow : Z)
| RightEdgeTooFar
| LeftRightEdgeTooFar
| PrematureEndOfFile.

(** The error kinds of the design. *)
Inductive error_kind : Type :=
| ArgumentParseError
| OverspecifiedAxisError
| OutOfBoundsError
| InvertedRectangleError
| OverflowError
| IOError.

Definition kind_of (e : error) : error_kind :=
  match e with
  | WidthNegative | HeightNegative | WrongNumberOfArguments _
  | InvalidLeftArgument | InvalidTopArgument
  | InvalidWidthArgument | InvalidHeightArgument => ArgumentParseError
  | LeftRightWidth | TopBottomHeight => OverspecifiedAxisError
  | LeftBeyondLeftEdge _ | LeftBeyondRightEdge _
  | RightBeyondLeftEdge _ | RightBeyondRightEdge _
  | TopAboveTopEdge _ | TopBelowBottomEdge _
  | BottomAboveTopEdge _ | BottomBelowBottomEdge _ => OutOfBoundsError
  | LeftRightOfRight _ _ | TopBelowBottom _ _ => InvertedRectangleError
  | RightEdgeTooFar | LeftRightEdgeTooFar => OverflowError
  | PrematureEndOfFile => IOError
  end.

(** A computation that either goes on with a value or stops in [pm_error]. *)
Inductive result (A : Type) : Type :=
| Ok (a : A)
| Err (e : error).
Arguments Ok {A} a.
Arguments Err {A} e.

Definition bind {A B : Type} (r : result A) (k : A -> result B) : result B :=
  match r with
  | Ok a => k a
  | Err e => Err e
  end.

Definition pm_error {A : Type} (e : error) : result A := Err e.

Notation "x <- r ;; k" := (bind r (fun x => k))
  (at level 100, r at next level, right associativity).
Notation "r ;;; k" := (bind r (fun _ => k))
  (at level 100, right associativity).

(** [if (c) pm_error(e);] *)
Definition fail_if (c : bool) (e : error) : result unit :=
  if c then pm_error e else Ok tt.

(** ** The command line *)

Module Cmdline.
Record CmdlineInfo : Type := mk {
  inputFileName : string;
  left : Z;
  right : Z;
  top : Z;
  bottom : Z;
  width : Z;
  height : Z;
  pad : bool;
  verbose : bool
}.
End Cmdline.

(** What [pm_optParseOptions3] found on the command line: the value of each
    [OPT_INT] option that is present, whether each [OPT_FLAG] is present. *)
Record options : Type := {
  opt_left : option Z;
  opt_right : option Z;
  opt_top : option Z;
  opt_bottom : option Z;
  opt_width : option Z;
  opt_height : option Z;
  opt_pad : bool;
  opt_verbose : bool
}.

Definition no_options : options :=
  {| opt_left := None; opt_right := None; opt_top := None;
     opt_bottom := None; opt_width := None; opt_height := None;
     opt_pad := false; opt_verbose := false |}.

(** An option that is present overwrites the default stored before. *)
Definition stored (default : Z) (o : option Z) : Z :=
  match o with
  | Some v => v
  | None => default
  end.

Section ParseCommandLine.

(** [sscanf(s, "%d", &x)]: the number read from [s], if there is one. *)
Variable sscanf_d : string -> option Z.

Definition scan (s : string) (e : error) : result Z :=
  match sscanf_d s with
  | Some v => Ok v
  | None => pm_error e
  end.

Definition arg (args : list string) (i : nat) : string :=
  nth i args EmptyString.

(** [args] is [argv[1..argc-1]] as the option parser leaves it. *)
Definition parseCommandLine (opts : options) (args : list string)
  : result Cmdline.CmdlineInfo :=
  let left0 := stored UNSPEC (opt_left opts) in
  let right0 := stored UNSPEC (opt_right opts) in
  let top0 := stored UNSPEC (opt_top opts) in
  let bottom0 := stored UNSPEC (opt_bottom opts) in
  let width0 := stored UNSPEC (opt_width opts) in
  let height0 := stored UNSPEC (opt_height opts) in
  let argn := Z.of_nat (length args) in
  fail_if (width0 <? 0) WidthNegative ;;;
  fail_if (height0 <? 0) HeightNegative ;;;
  fail_if (negb (argn =? 0) && negb (argn =? 1)
           && negb (argn =? 4) && negb (argn =? 5))
          (WrongNumberOfArguments argn) ;;;
  match length args with
  | 0%nat =>
      Ok (Cmdline.mk "-" left0 right0 top0 bottom0 width0 height0
            (opt_pad opts) (opt_verbose opts))
  | 1%nat =>
      Ok (Cmdline.mk (arg args 0) left0 right0 top0 bottom0 width0 height0
            (opt_pad opts) (opt_verbose opts))
  | 4%nat | 5%nat =>
      left1 <- scan (arg args 0) InvalidLeftArgument ;;
      top1 <- scan (arg args 1) InvalidTopArgument ;;
      warg <- scan (arg args 2) InvalidWidthArgument ;;
      harg <- scan (arg args 3) InvalidHeightArgument ;;
      let '(width1, right1) :=
        if warg >? 0 then (warg, UNSPEC) else (UNSPEC, sint (warg - 1)) in
      let '(height1, bottom1) :=
        if harg >? 0 then (harg, UNSPEC) else (UNSPEC, sint (harg - 1)) in
      let name := if (argn =? 4) then "-"%string else arg args 4 in
      Ok (Cmdline.mk name left1 right1 top1 bottom1 width1 height1
            (opt_pad opts) (opt_verbose opts))
  | _ => (* not reached: the number of arguments was checked above *)
      pm_error (WrongNumberOfArguments argn)
  end.

End ParseCommandLine.

(** ** The rectangle resolver *)

(** The four variables of the caller that [computeCutBounds] stores through
    [leftcolP], [rightcolP], [toprowP] and [bottomrowP]. *)
Record cut_vars : Type := {
  leftcol : Z;
  rightcol : Z;
  toprow : Z;
  bottomrow : Z
}.

Definition set_cols (l r : Z) (v : cut_vars) : cut_vars :=
  {| leftcol := l; rightcol := r; toprow := toprow v; bottomrow := bottomrow v |}.

Definition set_rows (t b : Z) (v : cut_vars) : cut_vars :=
  {| leftcol := leftcol v; rightcol := rightcol v; toprow := t; bottomrow := b |}.

(** [if (c) { ... }] with a body that only stores. *)
Definition when (c : bool) (f : cut_vars -> cut_vars) (v : cut_vars) : cut_vars :=
  if c then f v else v.

Definition is_unspec (x : Z) : bool := x =? UNSPEC.
Definition is_spec (x : Z) : bool := negb (x =? UNSPEC).

(** Translate negative column and row into real column and row. *)
Definition from_far_edge (extent a : Z) : Z :=
  if a >=? 0 then a else sint (extent + a).

(** [v] holds what the caller's four variables hold at the call: they are
    not initialised there. *)
Definition computeCutBounds (cols rows leftarg rightarg toparg bottomarg
                             widtharg heightarg : Z) (v : cut_vars)
  : result cut_vars :=
  let leftcol := from_far_edge cols leftarg in
  let rightcol := from_far_edge cols rightarg in
  let toprow := from_far_edge rows toparg in
  let bottomrow := from_far_edge rows bottomarg in
  (* Sort out left, right, and width specifications *)
  let v := when (is_unspec leftcol && is_unspec rightcol && is_unspec widtharg)
             (set_cols 0 (sint (cols - 1))) v in
  let v := when (is_unspec leftcol && is_unspec rightcol && is_spec widtharg)
             (set_cols 0 (sint (sint (0 + widtharg) - 1))) v in
  let v := when (is_unspec leftcol && is_spec rightcol && is_unspec widtharg)
             (set_cols 0 rightcol) v in
  let v := when (is_unspec leftcol && is_spec rightcol && is_spec widtharg)
             (set_cols (sint (sint (rightcol - widtharg) + 1)) rightcol) v in
  let v := when (is_spec leftcol && is_unspec rightcol && is_unspec widtharg)
             (set_cols leftcol (sint (cols - 1))) v in
  let v := when (is_spec leftcol && is_unspec rightcol && is_spec widtharg)
             (set_cols leftcol (sint (sint (leftcol + widtharg) - 1))) v in
  let v := when (is_spec leftcol && is_spec rightcol && is_unspec widtharg)
             (set_cols leftcol rightcol) v in
  fail_if (is_spec leftcol && is_spec rightcol && is_spec widtharg)
          LeftRightWidth ;;;
  (* Sort out top, bottom, and height specifications *)
  let v := when (is_unspec toprow && is_unspec bottomrow && is_unspec heightarg)
             (set_rows 0 (sint (rows - 1))) v in
  let v := when (is_unspec toprow && is_unspec bottomrow && is_spec heightarg)
             (set_rows 0 (sint (sint (0 + heightarg) - 1))) v in
  let v := when (is_unspec toprow && is_spec bottomrow && is_unspec heightarg)
             (set_rows 0 bottomrow) v in
  let v := when (is_unspec toprow && is_spec bottomrow && is_spec heightarg)
             (set_rows (sint (sint (bottomrow - heightarg) + 1)) bottomrow) v in
  let v := when (is_spec toprow && is_unspec bottomrow && is_unspec heightarg)
             (set_rows toprow (sint (rows - 1))) v in
  let v := when (is_spec toprow && is_unspec bottomrow && is_spec heightarg)
             (set_rows toprow (sint (sint (toprow + heightarg) - 1))) v in
  let v := when (is_spec toprow && is_spec bottomrow && is_unspec heightarg)
             (set_rows toprow bottomrow) v in
  fail_if (is_spec toprow && is_spec bottomrow && is_spec heightarg)
          TopBottomHeight ;;;
  Ok v.

(** ** The bounds validator *)

(** [cols] and [rows] are [unsigned int]; [(int)(cols-1)] is the unsigned
    difference read back as an [int]. *)
Definition rejectOutOfBounds (cols rows leftcol rightcol toprow bottomrow : Z)
                             (pad : bool) : result unit :=
  (if negb pad then
     fail_if (leftcol <? 0) (LeftBeyondLeftEdge leftcol) ;;;
     fail_if (leftcol >? sint (uint (cols - 1))) (LeftBeyondRightEdge leftcol) ;;;
     fail_if (rightcol <? 0) (RightBeyondLeftEdge rightcol) ;;;
     fail_if (rightcol >? sint (uint (cols - 1))) (RightBeyondRightEdge rightcol) ;;;
     fail_if (toprow <? 0) (TopAboveTopEdge toprow) ;;;
     fail_if (toprow >? sint (uint (rows - 1))) (TopBelowBottomEdge toprow) ;;;
     fail_if (bottomrow <? 0) (BottomAboveTopEdge bottomrow) ;;;
     fail_if (bottomrow >? sint (uint (rows - 1))) (BottomBelowBottomEdge bottomrow)
   else Ok tt) ;;;
  fail_if (leftcol >? rightcol) (LeftRightOfRight leftcol rightcol) ;;;
  fail_if (toprow >? bottomrow) (TopBelowBottom toprow bottomrow).

(** ** Images and files *)

Module Pam.
Inductive format_type : Type := PBM_TYPE | PGM_TYPE | PPM_TYPE | PAM_TYPE.

(** The fields of [struct pam] the program looks at or changes. *)
Record pam : Type := mk {
  width : Z;
  height : Z;
  depth : Z;
  maxval : Z;
  format : format_type
}.
End Pam.

(** Counted loops: [for (col = a; cond(col); ++col) body], run for at most
    [n] rounds.  Every use gives an [n] at which [cond] has become false
    as long as [++col] does not overflow, so that no loop is cut short. *)
Fixpoint for_while {S : Type} (n : nat) (cond : Z -> bool)
                   (body : Z -> S -> S) (col : Z) (s : S) : S :=
  match n with
  | O => s
  | Datatypes.S n' =>
      if cond col
      then for_while n' cond body (sint (col + 1)) (body col s)
      else s
  end.

Fixpoint for_whileM {S : Type} (n : nat) (cond : Z -> bool)
                    (body : Z -> S -> result S) (col : Z) (s : S) : result S :=
  match n with
  | O => Ok s
  | Datatypes.S n' =>
      if cond col
      then s' <- body col s ;; for_whileM n' cond body (sint (col + 1)) s'
      else Ok s
  end.

(** The tuples a row cutter's pointers can point to.  [Wild] is where a
    pointer that was never stored points. *)
Inductive cell : Type :=
| CopyTuple (outcol : Z)
| BlackTuple
| DiscardTuple
| Wild.

Definition cell_eqb (a b : cell) : bool :=
  match a, b with
  | CopyTuple i, CopyTuple j => i =? j
  | BlackTuple, BlackTuple => true
  | DiscardTuple, DiscardTuple => true
  | Wild, Wild => true
  | _, _ => false
  end.

(** [a[i] = c] on an array of pointers.  The source stores only inside the
    array; a store outside it is left out. *)
Definition set_ptr (a : list cell) (i : Z) (c : cell) : list cell :=
  if i <? 0 then a else <[Z.to_nat i := c]> a.

Definition get_ptr (a : list cell) (i : Z) : cell :=
  if i <? 0 then Wild else default Wild (a !! Z.to_nat i).

(** [MALLOCARRAY_NOFAIL(a, n)] *)
Definition malloc_ptrs (n : Z) : list cell := replicate (Z.to_nat n) Wild.

Record rowCutter : Type := {
  inputPointers : list cell;
  outputPointers : list cell;
  inputWidth : Z;
  outputWidth : Z
}.

Section Rows.

(** A pixel: [tuple] of libnetpbm. *)
Context {tuple : Type}.

(** The input file from the current position on, the rows read so far and
    the rows written so far, oldest first. *)
Record files : Type := {
  unread : list (list tuple);
  consumed : list (list tuple);
  written : list (list tuple)
}.

(** What the tuples hold. *)
Definition memory : Type := cell -> tuple.

Definition poke (m : memory) (c : cell) (v : tuple) : memory :=
  fun c' => if cell_eqb c c' then v else m c'.

(** Modelled from the spec: [pnm_readpamrow] is libnetpbm's and not part of
    these sources.  "readRow(stream, destinationOrNull) consumes exactly one
    row's worth of encoded data; if destination is null, discards it."  With
    a destination, the pixel of column [col] is stored in the tuple
    [tuplerow[col]] points to, column after column. *)
Definition pnm_readpamrow (inpam : Pam.pam) (tuplerow : option (list cell))
                          (st : files * memory) : result (files * memory) :=
  let '(f, m) := st in
  match unread f with
  | [] => pm_error PrematureEndOfFile
  | data :: rest =>
      let f' := {| unread := rest;
                   consumed := consumed f ++ [data];
                   written := written f |} in
      match tuplerow with
      | None => Ok (f', m)
      | Some ptrs =>
          Ok (f',
              for_while (length data) (fun col => col <? Pam.width inpam)
                (fun col m =>
                   match data !! Z.to_nat col with
                   | Some v => poke m (get_ptr ptrs col) v
                   | None => m
                   end)
                0 m)
      end
  end.

(** The row of [outpam]'s width that [tuplerow] points to. *)
Definition pointed_row (outpam : Pam.pam) (tuplerow : list cell) (m : memory)
  : list tuple :=
  map (fun col => m (get_ptr tuplerow (Z.of_nat col)))
      (seq 0 (Z.to_nat (Pam.width outpam))).

(** Modelled from the spec: [pnm_writepamrow] and [pnm_writepamrowmult] are
    libnetpbm's.  "writeRow(stream, row), writeRowRepeated(stream, row,
    count)". *)
Definition pnm_writepamrow (outpam : Pam.pam) (tuplerow : list cell)
                           (st : files * memory) : files * memory :=
  let '(f, m) := st in
  ({| unread := unread f;
      consumed := consumed f;
      written := written f ++ [pointed_row outpam tuplerow m] |}, m).

Definition pnm_writepamrowmult (outpam : Pam.pam) (tuplerow : list cell)
                               (count : Z) (st : files * memory)
  : files * memory :=
  let '(f, m) := st in
  ({| unread := unread f;
      consumed := consumed f;
      written := written f
                 ++ replicate (Z.to_nat count) (pointed_row outpam tuplerow m) |},
   m).

(** The value [pnm_createBlackTuple] gives a tuple of the output image. *)
Variable black : tuple.

(** Write out [rows] rows of black tuples. *)
Definition writeBlackRows (outpam : Pam.pam) (rows : Z) (st : files * memory)
  : files * memory :=
  let '(f, m) := st in
  let m := poke m BlackTuple black in
  let blackRow := malloc_ptrs (Pam.width outpam) in
  let blackRow :=
    for_while (Z.to_nat (Pam.width outpam))
      (fun col => col <? Pam.width outpam)
      (fun col a => set_ptr a col BlackTuple)
      0 blackRow in
  pnm_writepamrowmult outpam blackRow rows (f, m).

Definition createRowCutter (inpam outpam : Pam.pam) (leftcol rightcol : Z)
                           (m : memory) : rowCutter * memory :=
  let inw := Pam.width inpam in
  let outw := Pam.width outpam in
  let m := poke m BlackTuple black in
  let inputPointers := malloc_ptrs inw in
  let outputPointers := malloc_ptrs outw in
  (* Put in left padding *)
  let outputPointers :=
    for_while (Z.to_nat (0 - leftcol))
      (fun col => (col <? 0) && (col - leftcol <? outw))
      (fun col out => set_ptr out (col - leftcol) BlackTuple)
      leftcol outputPointers in
  (* Put in extracted columns *)
  let '(inputPointers, outputPointers) :=
    for_while (Z.to_nat (MIN rightcol (inw - 1) + 1 - MAX leftcol 0))
      (fun col => col <=? MIN rightcol (inw - 1))
      (fun col '(inp, out) =>
         let outcol := col - leftcol in
         (set_ptr inp col (CopyTuple outcol),
          set_ptr out outcol (CopyTuple outcol)))
      (MAX leftcol 0) (inputPointers, outputPointers) in
  (* Put in right padding *)
  let outputPointers :=
    for_while (Z.to_nat (rightcol + 1 - (MIN rightcol (inw - 1) + 1)))
      (fun col => col <=? rightcol)
      (fun col out =>
         if col - leftcol >=? 0 then set_ptr out (col - leftcol) BlackTuple
         else out)
      (MIN rightcol (inw - 1) + 1) outputPointers in
  (* Direct input pixels that are getting cut off to the discard tuple *)
  let inputPointers :=
    for_while (Z.to_nat (MIN leftcol inw - 0))
      (fun col => col <? MIN leftcol inw)
      (fun col inp => set_ptr inp col DiscardTuple)
      0 inputPointers in
  let inputPointers :=
    for_while (Z.to_nat (inw - MAX 0 (sint (rightcol + 1))))
      (fun col => col <? inw)
      (fun col inp => set_ptr inp col DiscardTuple)
      (MAX 0 (sint (rightcol + 1))) inputPointers in
  ({| inputPointers := inputPointers;
      outputPointers := outputPointers;
      inputWidth := inw;
      outputWidth := outw |}, m).

Definition extractRowsGen (inpam outpam : Pam.pam)
                          (leftcol rightcol toprow bottomrow : Z)
                          (st : files * memory) : result (files * memory) :=
  (* Write out top padding *)
  let st :=
    if sint (0 - toprow) >? 0
    then writeBlackRows outpam (sint (0 - toprow)) st
    else st in
  let '(rowCutterP, m) :=
    createRowCutter inpam outpam leftcol rightcol (snd st) in
  let st := (fst st, m) in
  (* Read input and write out rows extracted from it *)
  st <- for_whileM (Z.to_nat (Pam.height inpam))
          (fun row => row <? Pam.height inpam)
          (fun row st =>
             if (row >=? toprow) && (row <=? bottomrow)
             then
               st <- pnm_readpamrow inpam (Some (inputPointers rowCutterP)) st ;;
               Ok (pnm_writepamrow outpam (outputPointers rowCutterP) st)
             else pnm_readpamrow inpam None st)
          0 st ;;
  (* Write out bottom padding *)
  Ok (if sint (bottomrow - sint (Pam.height inpam - 1)) >? 0
      then writeBlackRows outpam
             (sint (bottomrow - sint (Pam.height inpam - 1))) st
      else st).

End Rows.

Arguments files : clear implicits.
Arguments memory : clear implicits.

(** ** The packed path for PBM images *)

Section Packed.

(** [PBM_BLACK] of pbm.h, which is not among these sources: the bit, 0 or
    1, that stands for a black pixel in a packed row. *)
Variable PBM_BLACK : Z.

(** What [pbm_allocrow_packed] returns is not initialised: [heap i] is the
    byte found at index [i]. *)
Variable heap : nat -> Z.

(** The pixels of a PBM image are the black tuple and the white tuple;
    [is_black] tells which bit the library packs for a tuple. *)
Context {tuple : Type}.
Variable black white : tuple.
Variable is_black : tuple -> bool.

Definition pixel_of_bit (b : bool) : tuple :=
  if Bool.eqb b (Z.odd PBM_BLACK) then black else white.
Definition bit_of_pixel (p : tuple) : bool :=
  Bool.eqb (is_black p) (Z.odd PBM_BLACK).

(** Modelled from the spec: [pbm_packed_bytes] is a macro of pbm.h.  Rows
    are "1-bit-per-pixel rows, packed into bytes", 8 pixels to a byte, so a
    row of [cols] pixels takes [(cols + 7) / 8] bytes, in [unsigned int]
    arithmetic. *)
Definition pbm_packed_bytes (cols : Z) : Z := uint (cols + 7) / 8.

(** Bit [p] of a packed row, counted from the most significant bit of the
    first byte. *)
Definition bit_at (bitrow : list Z) (p : Z) : bool :=
  Z.testbit (default 0 (bitrow !! Z.to_nat (p / 8))) (7 - p mod 8).

Definition pack8 (g : Z -> bool) : Z :=
  Z.b2z (g 0) * 128 + Z.b2z (g 1) * 64 + Z.b2z (g 2) * 32 + Z.b2z (g 3) * 16
  + Z.b2z (g 4) * 8 + Z.b2z (g 5) * 4 + Z.b2z (g 6) * 2 + Z.b2z (g 7).

(** The packed row of [n] bytes whose bit [p] is [f p]. *)
Definition packed (n : nat) (f : Z -> bool) : list Z :=
  map (fun k => pack8 (fun i => f (8 * Z.of_nat k + i))) (seq 0 n).

(** [bitrow[i] = b] *)
Definition set_byte (bitrow : list Z) (i : Z) (b : Z) : list Z :=
  if i <? 0 then bitrow else <[Z.to_nat i := b]> bitrow.

Definition get_byte (bitrow : list Z) (i : Z) : Z :=
  if i <? 0 then 0 else default 0 (bitrow !! Z.to_nat i).

Definition pbm_allocrow_packed (cols : Z) : list Z :=
  map heap (seq 0 (Z.to_nat (pbm_packed_bytes cols))).

(** The [cols] pixels packed in [bitrow] from bit [offset] on. *)
Definition pixels_at (bitrow : list Z) (cols offset : Z) : list tuple :=
  map (fun j => pixel_of_bit (bit_at bitrow (offset + Z.of_nat j)))
      (seq 0 (Z.to_nat cols)).

Definition append_row (f : files tuple) (row : list tuple) : files tuple :=
  {| unread := unread f; consumed := consumed f;
     written := written f ++ [row] |}.

(** Modelled from the spec: [pbm_writepbmrow_packed] is libnetpbm's.  It
    writes the row of [cols] pixels that [bitrow] holds from its first bit
    on ("emit fully-black packed rows of outputWidth").  The file is seen
    as the rows of pixels in it. *)
Definition pbm_writepbmrow_packed (f : files tuple) (bitrow : list Z)
                                  (cols : Z) : files tuple :=
  append_row f (pixels_at bitrow cols 0).

(** Modelled from the spec: [pbm_readpbmrow_bitoffset] is libnetpbm's:
    "read the packed input row at readOffset bit alignment into a scratch
    buffer".  The [cols] pixels of the next row of the file go to the bits
    [offset .. offset + cols - 1] of [bitrow]; its other bits stay. *)
Definition pbm_readpbmrow_bitoffset (f : files tuple) (bitrow : list Z)
                                    (cols offset : Z)
  : result (files tuple * list Z) :=
  match unread f with
  | [] => pm_error PrematureEndOfFile
  | data :: rest =>
      Ok ({| unread := rest;
             consumed := consumed f ++ [data];
             written := written f |},
          packed (length bitrow)
            (fun p =>
               if (offset <=? p) && (p <? offset + cols)
               then match data !! Z.to_nat (p - offset) with
                    | Some px => bit_of_pixel px
                    | None => bit_at bitrow p
                    end
               else bit_at bitrow p))
  end.

(** Modelled from the spec: [pbm_writepbmrow_bitoffset] is libnetpbm's:
    "write it out at writeOffset bit alignment, truncated/extended to
    outputWidth".  It writes the [cols] pixels at the bits
    [offset .. offset + cols - 1] of [bitrow].  The scratch row does not
    come back as it was, which is why the caller patches the last byte
    written: from the byte that holds bit [offset] on, the row holds the
    packed row as written, that is moved to the byte boundary, the unused
    bits of its last byte zero. *)
Definition pbm_writepbmrow_bitoffset (f : files tuple) (bitrow : list Z)
                                     (cols offset : Z)
  : files tuple * list Z :=
  let window := 8 * (offset / 8) in
  (append_row f (pixels_at bitrow cols offset),
   packed (length bitrow)
     (fun p =>
        if (window <=? p) && (p <? window + 8 * pbm_packed_bytes cols)
        then (p - window <? cols) && bit_at bitrow (offset + (p - window))
        else bit_at bitrow p)).

Definition makeBlackPBMRow (bitrow : list Z) (cols : Z) : list Z :=
  let colByteCnt := pbm_packed_bytes cols in
  let bitrow :=
    for_while (Z.to_nat colByteCnt) (fun i => i <? colByteCnt)
      (fun i bitrow => set_byte bitrow i (PBM_BLACK * 255))
      0 bitrow in
  if negb (PBM_BLACK =? 0) && (cols mod 8 >? 0)
  then set_byte bitrow (colByteCnt - 1)
         (Z.shiftl (get_byte bitrow (colByteCnt - 1)) (8 - cols mod 8)
          mod 256)
  else bitrow.

(** The first part of [extractRowsPBM]: where to read and write in the
    scratch row and how wide it is. *)
Record packedRowPlan : Type := {
  readOffset : Z;
  writeOffset : Z;
  totalWidth : Z
}.

Definition planPackedRow (inpam : Pam.pam) (leftcol rightcol : Z)
  : result packedRowPlan :=
  if leftcol >? 0 then
    let totalWidth :=
      uint (sint (MAX (sint (rightcol + 1)) (Pam.width inpam) + 7)) in
    fail_if (totalWidth >? uint (INT_MAX - 10)) RightEdgeTooFar ;;;
    Ok {| readOffset := 0; writeOffset := leftcol; totalWidth := totalWidth |}
  else
    let totalWidth :=
      uint (sint (sint (- leftcol)
                  + MAX (sint (rightcol + 1)) (Pam.width inpam))) in
    fail_if (totalWidth >? uint (INT_MAX - 10)) LeftRightEdgeTooFar ;;;
    Ok {| readOffset := sint (- leftcol); writeOffset := 0;
          totalWidth := totalWidth |}.

(** [for (row = 0; row < count; ++row) pbm_writepbmrow_packed(...)] *)
Definition write_packed_rows (count : Z) (bitrow : list Z) (cols : Z)
                             (f : files tuple) : files tuple :=
  for_while (Z.to_nat count) (fun row => row <? count)
    (fun _ f => pbm_writepbmrow_packed f bitrow cols) 0 f.

Definition extractRowsPBM (inpam outpam : Pam.pam)
                          (leftcol rightcol toprow bottomrow : Z)
                          (st : files tuple * memory tuple)
  : result (files tuple * memory tuple) :=
  let '(f, m) := st in
  bind (planPackedRow inpam leftcol rightcol) (fun plan =>
  let bitrow := pbm_allocrow_packed (totalWidth plan) in
  let '(f, bitrow) :=
    if (toprow <? 0) || (leftcol <? 0) || (rightcol >=? Pam.width inpam)
    then
      let bitrow := makeBlackPBMRow bitrow (totalWidth plan) in
      (if toprow <? 0
       then write_packed_rows (sint (0 - toprow)) bitrow (Pam.width outpam) f
       else f, bitrow)
    else (f, bitrow) in
  bind (for_whileM (Z.to_nat (Pam.height inpam))
          (fun row => row <? Pam.height inpam)
          (fun row '(f, bitrow) =>
             if (row >=? toprow) && (row <=? bottomrow)
             then
               bind (pbm_readpbmrow_bitoffset f bitrow (Pam.width inpam)
                       (readOffset plan)) (fun '(f, bitrow) =>
               let '(f, bitrow) :=
                 pbm_writepbmrow_bitoffset f bitrow (Pam.width outpam)
                   (writeOffset plan) in
               Ok (f,
                   if rightcol >=? Pam.width inpam
                   then (* repair right padding *)
                     set_byte bitrow
                       (writeOffset plan / 8
                        + pbm_packed_bytes (Pam.width outpam) - 1)
                       (255 * PBM_BLACK)
                   else bitrow))
             else
               bind (pnm_readpamrow inpam None (f, m)) (fun st =>
               Ok (fst st, bitrow)))
          0 (f, bitrow)) (fun '(f, bitrow) =>
  if sint (bottomrow - sint (Pam.height inpam - 1)) >? 0
  then
    let bitrow := makeBlackPBMRow bitrow (Pam.width outpam) in
    Ok (write_packed_rows (sint (bottomrow - sint (Pam.height inpam - 1)))
          bitrow (Pam.width outpam) f, m)
  else Ok (f, m))).

(** ** One image *)

(** [inpam] is the header [pnm_readpaminit] has read, [v] what the four
    local variables hold before [computeCutBounds] stores in them.  The
    result is the header written and the state of the files. *)
Definition cutOneImage (inpam : Pam.pam) (cmdline : Cmdline.CmdlineInfo)
                       (v : cut_vars) (st : files tuple * memory tuple)
  : result (Pam.pam * (files tuple * memory tuple)) :=
  v <- computeCutBounds (Pam.width inpam) (Pam.height inpam)
         (Cmdline.left cmdline) (Cmdline.right cmdline)
         (Cmdline.top cmdline) (Cmdline.bottom cmdline)
         (Cmdline.width cmdline) (Cmdline.height cmdline) v ;;
  rejectOutOfBounds (uint (Pam.width inpam)) (uint (Pam.height inpam))
    (leftcol v) (rightcol v) (toprow v) (bottomrow v)
    (Cmdline.pad cmdline) ;;;
  let outpam :=
    Pam.mk (sint (sint (rightcol v - leftcol v) + 1))
           (sint (sint (bottomrow v - toprow v) + 1))
           (Pam.depth inpam) (Pam.maxval inpam) (Pam.format inpam) in
  st <- match Pam.format inpam with
        | Pam.PBM_TYPE =>
            extractRowsPBM inpam outpam (leftcol v) (rightcol v)
              (toprow v) (bottomrow v) st
        | _ =>
            extractRowsGen black inpam outpam (leftcol v) (rightcol v)
              (toprow v) (bottomrow v) st
        end ;;
  Ok (outpam, st).

End Packed.

(** ** The resolver as the design words it

    An argument is an edge specification: unspecified when it is [UNSPEC],
    else the integer given.  These definitions follow section 4.1 of the
    design, in unbounded integers; the theorems compare [computeCutBounds]
    with them. *)

Definition edge (a : Z) : option Z :=
  if a =? UNSPEC then None else Some a.

Definition specified (a : Z) : Prop := a <> UNSPEC.

(** Step 1: a negative value is relative to the far edge. *)
Definition spec_normalize (extent : Z) (e : option Z) : option Z :=
  match e with
  | Some n => Some (if n <? 0 then extent + n else n)
  | None => None
  end.

(** Step 2: the case table of one axis; [None] is the overspecified case. *)
Definition spec_resolve_axis (extent : Z) (lo hi size : option Z)
  : option (Z * Z) :=
  match lo, hi, size with
  | None, None, None => Some (0, extent - 1)
  | None, None, Some w => Some (0, w - 1)
  | None, Some r, None => Some (0, r)
  | None, Some r, Some w => Some (r - w + 1, r)
  | Some l, None, None => Some (l, extent - 1)
  | Some l, None, Some w => Some (l, l + w - 1)
  | Some l, Some r, None => Some (l, r)
  | Some _, Some _, Some _ => None
  end.

Definition spec_resolve (cols rows leftarg rightarg toparg bottomarg
                         widtharg heightarg : Z) : option cut_vars :=
  match spec_resolve_axis cols (spec_normalize cols (edge leftarg))
          (spec_normalize cols (edge rightarg)) (edge widtharg),
        spec_resolve_axis rows (spec_normalize rows (edge toparg))
          (spec_normalize rows (edge bottomarg)) (edge heightarg)
  with
  | Some (l, r), Some (t, b) =>
      Some {| leftcol := l; rightcol := r; toprow := t; bottomrow := b |}
  | _, _ => None
  end.

(** A rectangle of unbounded integers as the [int] variables hold it. *)
Definition as_ints (q : cut_vars) : cut_vars :=
  {| leftcol := sint (leftcol q); rightcol := sint (rightcol q);
     toprow := sint (toprow q); bottomrow := sint (bottomrow q) |}.

Definition fits_int (q : cut_vars) : Prop :=
  is_int (leftcol q) /\ is_int (rightcol q)
  /\ is_int (toprow q) /\ is_int (bottomrow q).

(** [outpam.width = rightcol - leftcol + 1] and
    [outpam.height = bottomrow - toprow + 1] of [cutOneImage]. *)
Definition extent_of (lo hi : Z) : Z := sint (sint (hi - lo) + 1).

Definition at_most_two (a b c : Z) : Prop :=
  ~ (specified a /\ specified b /\ specified c).

(** ** The validator and the packed row plan as the design words them *)

(** "each of leftCol, rightCol must lie in [0, cols-1]; each of topRow,
    bottomRow must lie in [0, rows-1]" *)
Definition out_of_bounds (cols rows leftcol rightcol toprow bottomrow : Z)
  : Prop :=
  leftcol < 0 \/ leftcol > cols - 1 \/ rightcol < 0 \/ rightcol > cols - 1
  \/ toprow < 0 \/ toprow > rows - 1 \/ bottomrow < 0 \/ bottomrow > rows - 1.

Definition inverted (leftcol rightcol toprow bottomrow : Z) : Prop :=
  leftcol > rightcol \/ toprow > bottomrow.

(** "totalWidth = |leftCol| + max(rightCol+1, inputWidth)" *)
Definition spec_totalWidth (leftcol rightcol inputWidth : Z) : Z :=
  Z.abs leftcol + Z.max (rightcol + 1) inputWidth.

(** The width the scratch row has in the source. *)
Definition scratch_width (leftcol rightcol inputWidth : Z) : Z :=
  if leftcol >? 0 then Z.max (rightcol + 1) inputWidth + 7
  else Z.abs leftcol + Z.max (rightcol + 1) inputWidth.

(** Two command lines that differ only in options given as 2147483647 in
    the one and left out in the other. *)
Definition same_or_sentinel (a b : option Z) : Prop :=
  a = b \/ (a = Some 2147483647 /\ b = None)
  \/ (a = None /\ b = Some 2147483647).

Definition same_up_to_sentinel (o1 o2 : options) : Prop :=
  same_or_sentinel (opt_left o1) (opt_left o2)
  /\ same_or_sentinel (opt_right o1) (opt_right o2)
  /\ same_or_sentinel (opt_top o1) (opt_top o2)
  /\ same_or_sentinel (opt_bottom o1) (opt_bottom o2)
  /\ same_or_sentinel (opt_width o1) (opt_width o2)
  /\ same_or_sentinel (opt_height o1) (opt_height o2)
  /\ opt_pad o1 = opt_pad o2
  /\ opt_verbose o1 = opt_verbose o2.

(** A stand-in for [sscanf] in the examples, which give it plain decimal
    numbers only: an optional minus sign and decimal digits, with nothing
    before or after them.  It is not the [%d] of libc, which also skips
    white space, takes a plus sign and stops at the first character that is
    no digit; every theorem takes [sscanf] as a parameter. *)
Fixpoint digits (s : string) (acc : Z) : option Z :=
  match s with
  | EmptyString => Some acc
  | String c s' =>
      let d := Z.of_nat (Ascii.nat_of_ascii c) - 48 in
      if (0 <=? d) && (d <=? 9) then digits s' (10 * acc + d) else None
  end.

Definition scan_decimal (s : string) : option Z :=
  match s with
  | EmptyString => None
  | String "-"%char EmptyString => None
  | String "-"%char s' => option_map Z.opp (digits s' 0)
  | _ => digits s 0
  end.

(** ** The row plan and the cut as the design words them *)

(** The columns [c0], [c0 + 1], ..., [c0 + n - 1]. *)
Definition range (c0 : Z) (n : nat) : list Z :=
  map (fun k => c0 + Z.of_nat k) (seq 0 n).

(** "Output columns preceding the real image are marked black-fill; for
    input column c in [max(leftCol,0), min(rightCol,inputWidth-1)], input
    slot c and output slot c-leftCol map to the same scratch cell; output
    columns beyond the last mapped input column are marked black-fill; input
    columns outside [leftCol, rightCol] are marked discard." *)
Definition output_slot (leftcol inputWidth j : Z) : cell :=
  if (0 <=? leftcol + j) && (leftcol + j <? inputWidth)
  then CopyTuple j else BlackTuple.

Definition input_slot (leftcol rightcol c : Z) : cell :=
  if (leftcol <=? c) && (c <=? rightcol)
  then CopyTuple (c - leftcol) else DiscardTuple.

Section Cut.

Context {tuple : Type}.
Variable black : tuple.

(** The pixel of column [col] of a row, if the row has that column. *)
Definition pixel_at (data : list tuple) (col : Z) : option tuple :=
  if col <? 0 then None else data !! Z.to_nat col.

(** Columns [leftcol .. leftcol + outputWidth - 1] of a row, black where the
    row has no such column. *)
Definition cut_row (leftcol outputWidth : Z) (data : list tuple)
  : list tuple :=
  map (fun j => default black (pixel_at data (leftcol + j)))
      (range 0 (Z.to_nat outputWidth)).

Definition black_row (outputWidth : Z) : list tuple :=
  replicate (Z.to_nat outputWidth) black.

(** The rows with index in [toprow .. bottomrow] among [rows], the first of
    which has index [row]. *)
Fixpoint rows_between (toprow bottomrow row : Z) (rows : list (list tuple))
  : list (list tuple) :=
  match rows with
  | [] => []
  | data :: rows' =>
      if (row >=? toprow) && (row <=? bottomrow)
      then data :: rows_between toprow bottomrow (row + 1) rows'
      else rows_between toprow bottomrow (row + 1) rows'
  end.

(** What the design says is written for an image: black rows above, the cut
    rows, black rows below. *)
Definition spec_cut (leftcol rightcol toprow bottomrow : Z)
                    (image : list (list tuple)) : list (list tuple) :=
  let outputWidth := rightcol - leftcol + 1 in
  let inputHeight := Z.of_nat (length image) in
  replicate (Z.to_nat (Z.max 0 (- toprow))) (black_row outputWidth)
  ++ map (cut_row leftcol outputWidth)
       (rows_between (Z.max toprow 0) (Z.min bottomrow (inputHeight - 1))
          0 image)
  ++ replicate (Z.to_nat (Z.max 0 (bottomrow - (inputHeight - 1))))
       (black_row outputWidth).

End Cut.

(** The command lines that ask for the whole image: nothing specified, or
    the four edges of the image given. *)
Definition full_image_request (inpam : Pam.pam) (cmdline : Cmdline.CmdlineInfo)
  : Prop :=
  Cmdline.width cmdline = UNSPEC /\ Cmdline.height cmdline = UNSPEC
  /\ ((Cmdline.left cmdline = UNSPEC /\ Cmdline.right cmdline = UNSPEC
       /\ Cmdline.top cmdline = UNSPEC /\ Cmdline.bottom cmdline = UNSPEC)
      \/ (Cmdline.left cmdline = 0
          /\ Cmdline.right cmdline = Pam.width inpam - 1
          /\ Cmdline.top cmdline = 0
          /\ Cmdline.bottom cmdline = Pam.height inpam - 1)).

(** A validated rectangle that the [int] variables of the program hold
    together with the extents and differences the drivers compute from it,
    none of which overflows. *)
Definition cut_in_range (inpam outpam : Pam.pam) (lc rc tr br : Z) : Prop :=
  0 <= Pam.width inpam <= INT_MAX
  /\ 0 <= Pam.height inpam <= INT_MAX
  /\ Pam.width outpam = rc - lc + 1
  /\ Pam.width outpam <= INT_MAX
  /\ is_int lc /\ lc <= rc /\ rc < INT_MAX
  /\ INT_MIN < tr /\ tr <= br /\ is_int br
  /\ is_int (br - (Pam.height inpam - 1)).

(** The rows of an image with header [inpam]. *)
Definition image_of {tuple : Type} (inpam : Pam.pam)
                    (image : list (list tuple)) : Prop :=
  Forall (fun data => length data = Z.to_nat (Pam.width inpam)) image
  /\ Z.of_nat (length image) = Pam.height inpam.

(** The two pixels of a PBM image. *)
Definition pbm_image {tuple : Type} (black white : tuple)
                     (image : list (list tuple)) : Prop :=
  Forall (Forall (fun p => p = black \/ p = white)) image.


(** The scratch row of the packed path between two rows of the image: it has
    the bytes of [totalWidth] bits, and the bits that are written but not
    read are black. *)
Definition padded (PBM_BLACK : Z) (plan : packedRowPlan)
                  (inputWidth outputWidth : Z) (bitrow : list Z) : Prop :=
  Z.of_nat (length bitrow) = (totalWidth plan + 7) / 8
  /\ forall p,
       writeOffset plan <= p < writeOffset plan + outputWidth ->
       ~ (readOffset plan <= p < readOffset plan + inputWidth) ->
       bit_at bitrow p = Z.odd PBM_BLACK.

(** ** Pixels, transposed rectangles and streams of images *)

(** The pixel of row [row] and column [col] of the rows [image], if there
    is one. *)
Definition image_pixel {tuple : Type} (image : list (list tuple))
                       (row col : Z) : option tuple :=
  if (row <? 0) || (col <? 0) then None
  else match image !! Z.to_nat row with
       | Some data => data !! Z.to_nat col
       | None => None
       end.

(** A rectangle with rows and columns exchanged. *)
Definition transpose (q : cut_vars) : cut_vars :=
  {| leftcol := toprow q; rightcol := bottomrow q;
     toprow := leftcol q; bottomrow := rightcol q |}.

(** ** The stream of images: [main] *)

Section Stream.

Variable PBM_BLACK : Z.
Variable heap : nat -> Z.
Context {tuple : Type}.
Variable black white : tuple.
Variable is_black : tuple -> bool.

(** [sscanf] and what [pm_openr] finds under a file name, if it can open
    it. *)
Variable sscanf_d : string -> option Z.

(** What a Netpbm file holds, as libnetpbm reads and writes it: the header
    of an image, or one row of pixels. *)
Inductive item : Type :=
| Header (p : Pam.pam)
| Row (data : list tuple).

Variable pm_openr : string -> option (list item).

(** What the local variables of [cutOneImage] hold before
    [computeCutBounds] stores in them. *)
Variable v : cut_vars.

(** The rows a file holds before its next header, and what follows them. *)
Fixpoint leading_rows (s : list item) : list (list tuple) * list item :=
  match s with
  | Row data :: s' =>
      let '(rows, rest) := leading_rows s' in (data :: rows, rest)
  | _ => ([], s)
  end.

(** How [main] ends: with exit status 0 and the file written, or in
    [pm_error]. *)
Inductive failure : Type :=
| CannotOpen
| NoImage
| Stopped (e : error).

Inductive outcome : Type :=
| Exit0 (output : list item)
| Failed (why : failure).

(** Modelled from the spec: [pnm_readpaminit] is libnetpbm's:
    "readHeader(stream) -> Image header; fails on malformed input".  It
    fails where the file does not go on with a header. *)
Definition pnm_readpaminit (input : list item)
  : option (Pam.pam * list item) :=
  match input with
  | Header p :: rest => Some (p, rest)
  | _ => None
  end.

(** Modelled from the spec: [pnm_nextimage] is libnetpbm's:
    "moreImagesFollow(stream)".  [eof] is set when nothing is left of the
    file. *)
Definition pnm_nextimage (input : list item) : bool :=
  match input with
  | [] => true
  | _ => false
  end.

(** [while (!eof) { cutOneImage(ifP, cmdline, ofP); pnm_nextimage(ifP, &eof); }]
    for at most [fuel] rounds.  A row is read from the rows the file holds
    before its next header; a round takes the header of an image at least
    from the file, so that as many rounds as the file has items, and one
    more for the first, leave by [eof] or in [pm_error]. *)
Fixpoint cutImages (fuel : nat) (cmdline : Cmdline.CmdlineInfo)
                   (input output : list item) (m : memory tuple) : outcome :=
  match fuel with
  | O => Exit0 output
  | S fuel' =>
      match pnm_readpaminit input with
      | None => Failed NoImage
      | Some (inpam, input) =>
          let '(rows, rest) := leading_rows input in
          match cutOneImage PBM_BLACK heap black white is_black inpam cmdline v
                  ({| unread := rows; consumed := []; written := [] |}, m)
          with
          | Err e => Failed (Stopped e)
          | Ok (outpam, (f, m)) =>
              let input := map Row (unread f) ++ rest in
              let output := output ++ Header outpam :: map Row (written f) in
              if pnm_nextimage input then Exit0 output
              else cutImages fuel' cmdline input output m
          end
      end
  end.

(** [opts] and [args] are what [pm_optParseOptions3] makes of [argv]; [m] is
    what memory holds. *)
Definition main (opts : options) (args : list string) (m : memory tuple)
  : outcome :=
  match parseCommandLine sscanf_d opts args with
  | Err e => Failed (Stopped e)
  | Ok cmdline =>
      match pm_openr (Cmdline.inputFileName cmdline) with
      | None => Failed CannotOpen
      | Some input => cutImages (S (length input)) cmdline input [] m
      end
  end.

(** The file that holds the images [images], each with its header. *)
Definition stream_of (images : list (Pam.pam * list (list tuple)))
  : list item :=
  flat_map (fun img => Header (fst img) :: map Row (snd img)) images.

(** An image of positive width and height that has the rows its header
    says and, if it is a PBM image, black and white pixels only and at most
    [INT_MAX - 10] columns. *)
Definition whole_image (img : Pam.pam * list (list tuple)) : Prop :=
  0 < Pam.width (fst img) <= INT_MAX
  /\ 0 < Pam.height (fst img) <= INT_MAX
  /\ image_of (fst img) (snd img)
  /\ (Pam.format (fst img) = Pam.PBM_TYPE ->
      Pam.width (fst img) <= INT_MAX - 10
      /\ pbm_image black white (snd img)).

(** [cutOneImage] with the command line [cmdline] makes the image [out] of
    the image [img], whatever memory holds, and reads all its rows. *)
Definition cuts_to (cmdline : Cmdline.CmdlineInfo)
                   (img out : Pam.pam * list (list tuple)) : Prop :=
  forall m, exists f' m',
    cutOneImage PBM_BLACK heap black white is_black (fst img) cmdline v
      ({| unread := snd img; consumed := []; written := [] |}, m)
    = Ok (fst out, (f', m'))
    /\ unread f' = [] /\ written f' = snd out.

End Stream.

Arguments item : clear implicits.
Arguments outcome : clear implicits.

(** ** The files where the packed path ends *)

(** [for_whileM] with the state kept where the loop ends: the state the loop
    leaves and, if a body stops in [pm_error], the error.  The state is then
    the one that body started from: the bodies of the row loops start with
    the read of a row, the only call in them that can stop, and a read that
    stops has taken nothing from the file. *)
Fixpoint for_whileE {St : Type} (n : nat) (cond : Z -> bool)
                    (body : Z -> St -> result St) (col : Z) (s : St)
  : St * option error :=
  match n with
  | O => (s, None)
  | Datatypes.S n' =>
      if cond col
      then match body col s with
           | Ok s' => for_whileE n' cond body (sint (col + 1)) s'
           | Err e => (s, Some e)
           end
      else (s, None)
  end.

Section PackedExit.

Variable PBM_BLACK : Z.
Variable heap : nat -> Z.
Context {tuple : Type}.
Variable black white : tuple.
Variable is_black : tuple -> bool.

(** [extractRowsPBM] once more, statement by statement, with the files kept
    where it ends: the files it leaves when it returns or stops in
    [pm_error], and the error if it stops. *)
Definition extractRowsPBM_exit (inpam outpam : Pam.pam)
                               (leftcol rightcol toprow bottomrow : Z)
                               (st : files tuple * memory tuple)
  : files tuple * option error :=
  let '(f, m) := st in
  match planPackedRow inpam leftcol rightcol with
  | Err e => (f, Some e)
  | Ok plan =>
      let bitrow := pbm_allocrow_packed heap (totalWidth plan) in
      let '(f, bitrow) :=
        if (toprow <? 0) || (leftcol <? 0) || (rightcol >=? Pam.width inpam)
        then
          let bitrow := makeBlackPBMRow PBM_BLACK bitrow (totalWidth plan) in
          (if toprow <? 0
           then write_packed_rows PBM_BLACK black white (sint (0 - toprow))
                  bitrow (Pam.width outpam) f
           else f, bitrow)
        else (f, bitrow) in
      let '((f, bitrow), stopped) :=
        for_whileE (Z.to_nat (Pam.height inpam))
          (fun row => row <? Pam.height inpam)
          (fun row '(f, bitrow) =>
             if (row >=? toprow) && (row <=? bottomrow)
             then
               bind (pbm_readpbmrow_bitoffset PBM_BLACK is_black f bitrow
                       (Pam.width inpam) (readOffset plan))
                    (fun '(f, bitrow) =>
               let '(f, bitrow) :=
                 pbm_writepbmrow_bitoffset PBM_BLACK black white f bitrow
                   (Pam.width outpam) (writeOffset plan) in
               Ok (f,
                   if rightcol >=? Pam.width inpam
                   then (* repair right padding *)
                     set_byte bitrow
                       (writeOffset plan / 8
                        + pbm_packed_bytes (Pam.width outpam) - 1)
                       (255 * PBM_BLACK)
                   else bitrow))
             else
               bind (pnm_readpamrow inpam None (f, m)) (fun st =>
               Ok (fst st, bitrow)))
          0 (f, bitrow) in
      match stopped with
      | Some e => (f, Some e)
      | None =>
          if sint (bottomrow - sint (Pam.height inpam - 1)) >? 0
          then
            let bitrow := makeBlackPBMRow PBM_BLACK bitrow (Pam.width outpam) in
            (write_packed_rows PBM_BLACK black white
               (sint (bottomrow - sint (Pam.height inpam - 1)))
               bitrow (Pam.width outpam) f, None)
          else (f, None)
      end
  end.

End PackedExit.

(** * Properties *)

(** ** Machine integers *)

(** Linear arithmetic with the wrap-around unfolded. *)
Ltac int_arith :=
  unfold is_int, sint, uint, UNSPEC, INT_MIN, INT_MAX in *;
  Z.div_mod_to_equations; lia.

(** Case analysis on every integer comparison of the goal. *)
Ltac zbool :=
  repeat match goal with
         | |- context [?a <=? ?b] => destruct (Z.leb_spec a b)
         | |- context [?a <? ?b] => destruct (Z.ltb_spec a b)
         | |- context [?a =? ?b] => destruct (Z.eqb_spec a b)
         | |- context [?a >=? ?b] => destruct (Z.geb_spec a b)
         | |- context [?a >? ?b] => destruct (Z.gtb_spec a b)
         end;
  cbn [andb orb negb].

(** Settle the integer comparisons of the goal that the context decides. *)
Ltac zdecide :=
  rewrite ?Z.geb_leb, ?Z.gtb_ltb;
  repeat match goal with
         | |- context [?a <? ?b] =>
             first [ rewrite (proj2 (Z.ltb_lt a b)) by lia
                   | rewrite (proj2 (Z.ltb_ge a b)) by lia ]
         | |- context [?a <=? ?b] =>
             first [ rewrite (proj2 (Z.leb_le a b)) by lia
                   | rewrite (proj2 (Z.leb_gt a b)) by lia ]
         | |- context [?a =? ?b] =>
             first [ rewrite (proj2 (Z.eqb_eq a b)) by lia
                   | rewrite (proj2 (Z.eqb_neq a b)) by lia ]
         end;
  cbn [andb orb negb].

Lemma sint_id z : is_int z -> sint z = z.
Proof. intros. int_arith. Qed.

Lemma sint_is_int z : is_int (sint z).
Proof. int_arith. Qed.

Lemma sint_add_l a b : sint (sint a + b) = sint (a + b).
Proof. int_arith. Qed.

Lemma sint_sub_l a b : sint (sint a - b) = sint (a - b).
Proof. int_arith. Qed.

Lemma sint_sub_r a b : sint (a - sint b) = sint (a - b).
Proof. int_arith. Qed.

Lemma uint_sint z : uint (sint z) = uint z.
Proof. int_arith. Qed.

Lemma uint_id z : 0 <= z < 4294967296 -> uint z = z.
Proof. intros. int_arith. Qed.

Lemma MAX_max a b : MAX a b = Z.max a b.
Proof. unfold MAX. destruct (Z.gtb_spec a b); lia. Qed.

Lemma MIN_min a b : MIN a b = Z.min a b.
Proof. unfold MIN. destruct (Z.ltb_spec a b); lia. Qed.

(** ** The rectangle resolver *)

Lemma from_far_edge_exact extent a :
  0 <= extent <= INT_MAX -> is_int a ->
  from_far_edge extent a = if a <? 0 then extent + a else a.
Proof.
  intros He Ha. unfold from_far_edge.
  destruct (Z.geb_spec a 0), (Z.ltb_spec a 0); try lia.
  apply sint_id. int_arith.
Qed.

Lemma from_far_edge_unspec extent a :
  0 <= extent <= INT_MAX -> is_int a ->
  (from_far_edge extent a =? UNSPEC) = (a =? UNSPEC).
Proof.
  intros He Ha. rewrite from_far_edge_exact by assumption.
  destruct (Z.ltb_spec a 0); [|reflexivity].
  destruct (Z.eqb_spec (extent + a) UNSPEC), (Z.eqb_spec a UNSPEC);
    try reflexivity; int_arith.
Qed.

Lemma spec_normalize_edge extent a :
  0 <= extent <= INT_MAX -> is_int a ->
  spec_normalize extent (edge a)
  = if a =? UNSPEC then None else Some (from_far_edge extent a).
Proof.
  intros He Ha. unfold edge.
  destruct (Z.eqb_spec a UNSPEC); [reflexivity|].
  simpl. now rewrite from_far_edge_exact.
Qed.

Lemma sint_sint z : sint (sint z) = sint z.
Proof. apply sint_id, sint_is_int. Qed.

Lemma extent_of_eq lo hi : extent_of lo hi = sint (hi - lo + 1).
Proof. unfold extent_of. apply sint_add_l. Qed.

(** What [computeCutBounds] does on every input: it fails exactly in the
    two overspecified cases, and otherwise stores the rectangle of the case
    table, computed in [int]. *)
Lemma computeCutBounds_spec cols rows l r t b w h v :
  0 <= cols <= INT_MAX -> 0 <= rows <= INT_MAX ->
  is_int l -> is_int r -> is_int t -> is_int b -> is_int w -> is_int h ->
  computeCutBounds cols rows l r t b w h v
  = if is_spec l && is_spec r && is_spec w then Err LeftRightWidth
    else if is_spec t && is_spec b && is_spec h then Err TopBottomHeight
    else match spec_resolve cols rows l r t b w h with
         | Some q => Ok (as_ints q)
         | None => Ok v
         end.
Proof.
  intros Hc Hr Hl Hrr Ht Hb Hw Hh.
  unfold computeCutBounds, spec_resolve.
  rewrite !spec_normalize_edge by assumption.
  unfold is_spec, is_unspec, edge.
  rewrite !from_far_edge_unspec by assumption.
  assert (HL := from_far_edge_exact cols l Hc Hl).
  assert (HR := from_far_edge_exact cols r Hc Hrr).
  assert (HT := from_far_edge_exact rows t Hr Ht).
  assert (HB := from_far_edge_exact rows b Hr Hb).
  assert (IL : is_int (from_far_edge cols l))
    by (rewrite HL; destruct (l <? 0) eqn:?; int_arith).
  assert (IR : is_int (from_far_edge cols r))
    by (rewrite HR; destruct (r <? 0) eqn:?; int_arith).
  assert (IT : is_int (from_far_edge rows t))
    by (rewrite HT; destruct (t <? 0) eqn:?; int_arith).
  assert (IB : is_int (from_far_edge rows b))
    by (rewrite HB; destruct (b <? 0) eqn:?; int_arith).
  generalize dependent (from_far_edge cols l).
  generalize dependent (from_far_edge cols r).
  generalize dependent (from_far_edge rows t).
  generalize dependent (from_far_edge rows b).
  intros br _ IB tr _ IT rc _ IR lc _ IL.
  destruct (l =? UNSPEC), (r =? UNSPEC), (w =? UNSPEC); cbn;
    try reflexivity;
    destruct (t =? UNSPEC), (b =? UNSPEC), (h =? UNSPEC); cbn;
    try reflexivity;
    unfold as_ints, set_rows, set_cols; cbn;
    rewrite ?sint_add_l, ?sint_sub_l, ?sint_sint;
    rewrite ?(sint_id lc), ?(sint_id rc), ?(sint_id tr), ?(sint_id br)
      by assumption;
    try reflexivity;
    repeat f_equal; int_arith.
Qed.

Lemma is_spec_specified a : is_spec a = true <-> specified a.
Proof.
  unfold is_spec, specified. destruct (Z.eqb_spec a UNSPEC); cbn; split;
    congruence.
Qed.

Lemma is_spec_false a : is_spec a = false <-> a = UNSPEC.
Proof.
  unfold is_spec. destruct (Z.eqb_spec a UNSPEC); cbn; split; congruence.
Qed.

Lemma triple_specified a b c :
  is_spec a && is_spec b && is_spec c = true
  <-> specified a /\ specified b /\ specified c.
Proof. rewrite !andb_true_iff, !is_spec_specified. tauto. Qed.

Lemma spec_resolve_axis_total extent a b c :
  at_most_two a b c ->
  exists lo hi,
    spec_resolve_axis extent (spec_normalize extent (edge a))
      (spec_normalize extent (edge b)) (edge c) = Some (lo, hi)
    /\ (specified c -> hi - lo + 1 = c)
    /\ (a = UNSPEC -> b = UNSPEC -> c = UNSPEC -> lo = 0 /\ hi = extent - 1).
Proof.
  unfold at_most_two, specified, edge. intros H.
  destruct (Z.eqb_spec a UNSPEC), (Z.eqb_spec b UNSPEC),
    (Z.eqb_spec c UNSPEC); cbn; try tauto;
    eexists _, _; (split; [reflexivity|]); split; intros; lia.
Qed.

(** C1.  For positive [cols] and [rows] and arguments of which at most two
    of left, right, width and at most two of top, bottom, height are
    specified, [computeCutBounds] stores the rectangle of the design's
    resolver: each specified negative edge [n] replaced by [cols + n] or
    [rows + n], then the case table of each axis, the sums and differences
    of the table taken in [int].  The width [rightcol - leftcol + 1] that
    [cutOneImage] computes from it is the width argument when that is
    specified, and the number of columns when none of left, right and width
    is (likewise for rows); whenever the table's edges fit in an [int], the
    stored rectangle is the table's and both equations hold in unbounded
    integers. *)
Theorem computeCutBounds_case_table cols rows l r t b w h v :
  0 < cols <= INT_MAX -> 0 < rows <= INT_MAX ->
  is_int l -> is_int r -> is_int t -> is_int b -> is_int w -> is_int h ->
  at_most_two l r w -> at_most_two t b h ->
  exists q,
    spec_resolve cols rows l r t b w h = Some q
    /\ computeCutBounds cols rows l r t b w h v = Ok (as_ints q)
    /\ (specified w ->
        extent_of (leftcol (as_ints q)) (rightcol (as_ints q)) = w)
    /\ (specified h ->
        extent_of (toprow (as_ints q)) (bottomrow (as_ints q)) = h)
    /\ (~ specified l -> ~ specified r -> ~ specified w ->
        rightcol (as_ints q) - leftcol (as_ints q) + 1 = cols)
    /\ (~ specified t -> ~ specified b -> ~ specified h ->
        bottomrow (as_ints q) - toprow (as_ints q) + 1 = rows)
    /\ (fits_int q ->
        as_ints q = q
        /\ (specified w -> rightcol q - leftcol q + 1 = w)
        /\ (specified h -> bottomrow q - toprow q + 1 = h)).
Proof.
  intros Hc Hr Hl Hrr Ht Hb Hw Hh Hx Hy.
  rewrite computeCutBounds_spec by (assumption || lia).
  destruct (is_spec l && is_spec r && is_spec w) eqn:E1.
  { apply triple_specified in E1. contradiction. }
  destruct (is_spec t && is_spec b && is_spec h) eqn:E2.
  { apply triple_specified in E2. contradiction. }
  unfold spec_resolve.
  destruct (spec_resolve_axis_total cols l r w Hx) as (lc & rc & -> & Wx & Fx).
  destruct (spec_resolve_axis_total rows t b h Hy) as (tr & br & -> & Wy & Fy).
  eexists. split; [reflexivity|]. split; [reflexivity|].
  unfold specified in *. cbn.
  repeat split; intros.
  - specialize (Wx H). unfold extent_of. int_arith.
  - specialize (Wy H). unfold extent_of. int_arith.
  - destruct Fx as [-> ->]; try lia. rewrite !sint_id; int_arith.
  - destruct Fy as [-> ->]; try lia. rewrite !sint_id; int_arith.
  - destruct H as (? & ? & ? & ?); cbn in *. unfold as_ints; cbn.
    now rewrite !sint_id.
  - auto.
  - auto.
Qed.

Lemma computeCutBounds_case_table_witness :
  exists q,
    spec_resolve 10 10 UNSPEC (-1) UNSPEC UNSPEC 3 UNSPEC = Some q
    /\ computeCutBounds 10 10 UNSPEC (-1) UNSPEC UNSPEC 3 UNSPEC
         {| leftcol := 0; rightcol := 0; toprow := 0; bottomrow := 0 |}
       = Ok {| leftcol := 7; rightcol := 9; toprow := 0; bottomrow := 9 |}.
Proof.
  assert (A : at_most_two UNSPEC (-1) 3) by (intros (H & _); now apply H).
  assert (B : at_most_two UNSPEC UNSPEC UNSPEC)
    by (intros (H & _); now apply H).
  destruct (computeCutBounds_case_table 10 10 UNSPEC (-1) UNSPEC UNSPEC 3
              UNSPEC
              {| leftcol := 0; rightcol := 0; toprow := 0; bottomrow := 0 |}
              ltac:(int_arith) ltac:(int_arith) ltac:(int_arith)
              ltac:(int_arith) ltac:(int_arith) ltac:(int_arith)
              ltac:(int_arith) ltac:(int_arith) A B)
    as (q & Hq & Hc & _).
  exists q. split; [exact Hq|].
  vm_compute in Hq. injection Hq as <-. exact Hc.
Defined.

(** The scenarios of the design, run. *)
Example cut_left2_right5 v :
  computeCutBounds 10 10 2 5 UNSPEC UNSPEC UNSPEC UNSPEC v
  = Ok {| leftcol := 2; rightcol := 5; toprow := 0; bottomrow := 9 |}.
Proof. reflexivity. Qed.

Example cut_legacy_minus_five v :
  computeCutBounds 10 10 0 (-6) 0 (-6) UNSPEC UNSPEC v
  = Ok {| leftcol := 0; rightcol := 4; toprow := 0; bottomrow := 4 |}.
Proof. reflexivity. Qed.

(** C7.  Whatever the numbers, [computeCutBounds] fails with the
    overspecified-axis error when left, right and width are all three
    specified, and likewise for top, bottom and height; on every other input
    it returns a rectangle. *)
Theorem computeCutBounds_fails_iff_overspecified cols rows l r t b w h v :
  0 <= cols <= INT_MAX -> 0 <= rows <= INT_MAX ->
  is_int l -> is_int r -> is_int t -> is_int b -> is_int w -> is_int h ->
  (specified l /\ specified r /\ specified w ->
   exists e, computeCutBounds cols rows l r t b w h v = Err e
             /\ kind_of e = OverspecifiedAxisError)
  /\ (specified t /\ specified b /\ specified h ->
      exists e, computeCutBounds cols rows l r t b w h v = Err e
                /\ kind_of e = OverspecifiedAxisError)
  /\ (at_most_two l r w -> at_most_two t b h ->
      exists rect, computeCutBounds cols rows l r t b w h v = Ok rect).
Proof.
  intros Hc Hr Hl Hrr Ht Hb Hw Hh.
  rewrite computeCutBounds_spec by assumption.
  destruct (is_spec l && is_spec r && is_spec w) eqn:E1;
    destruct (is_spec t && is_spec b && is_spec h) eqn:E2;
    rewrite <- ?triple_specified, ?E1, ?E2;
    repeat split; intros; try discriminate;
    try (eexists; split; reflexivity);
    try (exfalso; unfold at_most_two in *;
         rewrite <- ?triple_specified, ?E1, ?E2 in *; tauto).
  destruct (spec_resolve _ _ _ _ _ _ _ _); eexists; reflexivity.
Qed.

Lemma computeCutBounds_fails_iff_overspecified_witness :
  exists e,
    computeCutBounds 10 10 2 5 UNSPEC UNSPEC 4 UNSPEC
      {| leftcol := 0; rightcol := 0; toprow := 0; bottomrow := 0 |} = Err e
    /\ kind_of e = OverspecifiedAxisError.
Proof.
  destruct (computeCutBounds_fails_iff_overspecified 10 10 2 5 UNSPEC UNSPEC 4
           UNSPEC
           {| leftcol := 0; rightcol := 0; toprow := 0; bottomrow := 0 |}
           ltac:(int_arith) ltac:(int_arith) ltac:(int_arith)
           ltac:(int_arith) ltac:(int_arith) ltac:(int_arith)
           ltac:(int_arith) ltac:(int_arith)) as (H & _ & _).
  apply H. repeat split; unfold specified; int_arith.
Defined.

(** ** The bounds validator *)

Lemma last_col_as_int cols :
  0 <= cols <= INT_MAX -> sint (uint (cols - 1)) = cols - 1.
Proof. intros. int_arith. Qed.

(** A rectangle that is not inverted is accepted when padding is enabled or
    the rectangle lies in the image. *)
Lemma rejectOutOfBounds_accepts cols rows lc rc tr br pad :
  0 <= cols <= INT_MAX -> 0 <= rows <= INT_MAX ->
  pad = true \/ ~ out_of_bounds cols rows lc rc tr br ->
  ~ inverted lc rc tr br ->
  rejectOutOfBounds cols rows lc rc tr br pad = Ok tt.
Proof.
  intros Hc Hr Hin Hinv.
  unfold rejectOutOfBounds, out_of_bounds, inverted, fail_if in *.
  rewrite !last_col_as_int by assumption.
  destruct pad; cbn;
    repeat match goal with
           | |- context [?a <? ?b] => destruct (Z.ltb_spec a b); cbn
           | |- context [?a >? ?b] => destruct (Z.gtb_spec a b); cbn
           end;
    try reflexivity; exfalso; destruct Hin as [Hin|Hin];
    try discriminate; lia.
Qed.

(** C2, as the code has it.  Without padding, every rectangle with an edge
    outside the image fails with an out-of-bounds error.  With padding, the
    same rectangles are accepted provided they are not inverted.  An inverted
    rectangle always fails: with the inverted-rectangle error when padding is
    enabled or the rectangle is inside the image, with the out-of-bounds
    error found first otherwise.  Every other rectangle is accepted. *)
Theorem rejectOutOfBounds_cases cols rows lc rc tr br pad :
  0 <= cols <= INT_MAX -> 0 <= rows <= INT_MAX ->
  (pad = false -> out_of_bounds cols rows lc rc tr br ->
   exists e, rejectOutOfBounds cols rows lc rc tr br pad = Err e
             /\ kind_of e = OutOfBoundsError)
  /\ (pad = true -> ~ inverted lc rc tr br ->
      rejectOutOfBounds cols rows lc rc tr br pad = Ok tt)
  /\ (inverted lc rc tr br ->
      exists e, rejectOutOfBounds cols rows lc rc tr br pad = Err e
                /\ (pad = true \/ ~ out_of_bounds cols rows lc rc tr br ->
                    kind_of e = InvertedRectangleError))
  /\ (~ out_of_bounds cols rows lc rc tr br -> ~ inverted lc rc tr br ->
      rejectOutOfBounds cols rows lc rc tr br pad = Ok tt).
Proof.
  intros Hc Hr.
  unfold rejectOutOfBounds, out_of_bounds, inverted, fail_if.
  rewrite !last_col_as_int by assumption.
  destruct pad; cbn;
    repeat match goal with
           | |- context [?a <? ?b] => destruct (Z.ltb_spec a b); cbn
           | |- context [?a >? ?b] => destruct (Z.gtb_spec a b); cbn
           end;
    repeat split; intros; try discriminate; try reflexivity; try lia;
    try (eexists; split; [reflexivity|]; intros; cbn; try reflexivity; lia).
Qed.

Lemma rejectOutOfBounds_cases_witness :
  rejectOutOfBounds 10 10 (-2) 5 0 9 true = Ok tt.
Proof.
  destruct (rejectOutOfBounds_cases 10 10 (-2) 5 0 9 true
              ltac:(int_arith) ltac:(int_arith)) as (_ & H & _).
  apply H; [reflexivity|]. unfold inverted. lia.
Defined.

(** C2 as stated fails twice.  With padding enabled the out-of-range
    rectangle with columns -1 .. -5 is not accepted; with padding disabled the
    inverted rectangle with columns 20 .. 2 of a 10-column image fails, but
    with an out-of-bounds error. *)
Lemma rejectOutOfBounds_counterexample :
  (out_of_bounds 10 10 (-1) (-5) 0 0
   /\ rejectOutOfBounds 10 10 (-1) (-5) 0 0 true <> Ok tt)
  /\ (inverted 20 2 0 0
      /\ forall e, rejectOutOfBounds 10 10 20 2 0 0 false = Err e ->
                   kind_of e <> InvertedRectangleError).
Proof.
  repeat split.
  - unfold out_of_bounds. lia.
  - discriminate.
  - unfold inverted. lia.
  - cbn. intros e [= <-]. discriminate.
Qed.

(** ** The packed row plan *)

(** The row plan for a rectangle [leftcol <= rightcol < INT_MAX]. *)
Lemma planPackedRow_eq inpam lc rc :
  0 <= Pam.width inpam <= INT_MAX ->
  is_int lc -> lc <= rc -> rc < INT_MAX ->
  planPackedRow inpam lc rc
  = if scratch_width lc rc (Pam.width inpam) >? INT_MAX - 10
    then Err (if lc >? 0 then RightEdgeTooFar else LeftRightEdgeTooFar)
    else Ok {| readOffset := if lc >? 0 then 0 else - lc;
               writeOffset := if lc >? 0 then lc else 0;
               totalWidth := scratch_width lc rc (Pam.width inpam) |}.
Proof.
  intros Hw Hl Hlr Hr.
  unfold planPackedRow, scratch_width, fail_if.
  rewrite MAX_max.
  replace (uint (INT_MAX - 10)) with (INT_MAX - 10) by int_arith.
  destruct (Z.gtb_spec lc 0).
  - assert (E : uint (sint (Z.max (sint (rc + 1)) (Pam.width inpam) + 7))
                = Z.max (rc + 1) (Pam.width inpam) + 7).
    { rewrite (sint_id (rc + 1)) by int_arith. int_arith. }
    rewrite E.
    now destruct (Z.max (rc + 1) (Pam.width inpam) + 7 >? INT_MAX - 10).
  - assert (E : uint (sint (sint (- lc)
                            + Z.max (sint (rc + 1)) (Pam.width inpam)))
                = Z.abs lc + Z.max (rc + 1) (Pam.width inpam)).
    { rewrite (sint_id (rc + 1)) by int_arith. int_arith. }
    rewrite E.
    destruct (Z.gtb_spec (Z.abs lc + Z.max (rc + 1) (Pam.width inpam))
                (INT_MAX - 10)); cbn; [reflexivity|].
    now rewrite sint_id by int_arith.
Qed.

(** C5, as the code has it.  For a rectangle [leftcol <= rightcol < INT_MAX]
    the scratch row is [|leftcol| + max(rightcol+1, inputWidth)] bits wide
    when [leftcol <= 0], but [max(rightcol+1, inputWidth) + 7] bits wide when
    [leftcol > 0]; the plan fails with the edge-too-far error exactly when
    that width exceeds [INT_MAX - 10]; the offsets are [0] and [leftcol] when
    [leftcol > 0], else [-leftcol] and [0]. *)
Theorem planPackedRow_cases inpam lc rc :
  0 <= Pam.width inpam <= INT_MAX ->
  is_int lc -> lc <= rc -> rc < INT_MAX ->
  (scratch_width lc rc (Pam.width inpam) > INT_MAX - 10 ->
   exists e, planPackedRow inpam lc rc = Err e /\ kind_of e = OverflowError)
  /\ (scratch_width lc rc (Pam.width inpam) <= INT_MAX - 10 ->
      planPackedRow inpam lc rc
      = Ok {| readOffset := if lc >? 0 then 0 else - lc;
              writeOffset := if lc >? 0 then lc else 0;
              totalWidth := scratch_width lc rc (Pam.width inpam) |})
  /\ (lc <= 0 ->
      scratch_width lc rc (Pam.width inpam)
      = spec_totalWidth lc rc (Pam.width inpam))
  /\ (lc > 0 ->
      scratch_width lc rc (Pam.width inpam)
      = Z.max (rc + 1) (Pam.width inpam) + 7).
Proof.
  intros Hw Hl Hlr Hr.
  rewrite planPackedRow_eq by assumption.
  destruct (Z.gtb_spec (scratch_width lc rc (Pam.width inpam)) (INT_MAX - 10))
    as [Hgt|Hle].
  - split; [|split; [lia|]].
    + intros _. eexists. split; [reflexivity|]. now destruct (lc >? 0).
    + unfold scratch_width, spec_totalWidth.
      destruct (Z.gtb_spec lc 0); split; intros; lia || reflexivity.
  - split; [lia|]. split; [reflexivity|].
    unfold scratch_width, spec_totalWidth.
    destruct (Z.gtb_spec lc 0); split; intros; lia || reflexivity.
Qed.

Lemma planPackedRow_cases_witness :
  planPackedRow (Pam.mk 10 10 1 1 Pam.PBM_TYPE) (-3) 12
  = Ok {| readOffset := 3; writeOffset := 0; totalWidth := 16 |}.
Proof.
  destruct (planPackedRow_cases (Pam.mk 10 10 1 1 Pam.PBM_TYPE) (-3) 12
              ltac:(cbn; int_arith) ltac:(int_arith) ltac:(lia)
              ltac:(int_arith)) as (_ & H & _).
  apply H. vm_compute. discriminate.
Defined.

(** C5 as stated fails for every rectangle that starts right of column 0:
    for columns 2 .. 5 of a 10-column image the scratch row is 17 bits wide,
    not [|2| + max(6, 10) = 12]. *)
Lemma planPackedRow_counterexample :
  planPackedRow (Pam.mk 10 10 1 1 Pam.PBM_TYPE) 2 5
  = Ok {| readOffset := 0; writeOffset := 2; totalWidth := 17 |}
  /\ spec_totalWidth 2 5 10 = 12.
Proof. split; reflexivity. Qed.

(** ** The command line *)

Section CommandLine.

Variable sscanf_d : string -> option Z.

Lemma legacy_width_arg_cases v :
  (if v >? 0 then (v, UNSPEC) else (UNSPEC, sint (v - 1)))
  = (if v >? 0 then v else UNSPEC, if v >? 0 then UNSPEC else sint (v - 1)).
Proof. now destruct (v >? 0). Qed.

(** C9.  In the form with 4 or 5 arguments the third argument [v] is
    stored as [width = v] with [right] unspecified when [v > 0], and as
    [right = v - 1] (in [int]) with [width] unspecified when [v <= 0];
    the value stored is then negative, so the resolver takes it relative
    to the far edge.  The same holds of the fourth argument with [height]
    and [bottom]. *)
Theorem parseCommandLine_legacy opts a1 a2 a3 a4 rest l t w h :
  (length rest <= 1)%nat ->
  stored UNSPEC (opt_width opts) >= 0 ->
  stored UNSPEC (opt_height opts) >= 0 ->
  sscanf_d a1 = Some l -> sscanf_d a2 = Some t ->
  sscanf_d a3 = Some w -> sscanf_d a4 = Some h ->
  exists cmd,
    parseCommandLine sscanf_d opts (a1 :: a2 :: a3 :: a4 :: rest) = Ok cmd
    /\ Cmdline.left cmd = l /\ Cmdline.top cmd = t
    /\ (w > 0 -> Cmdline.width cmd = w /\ Cmdline.right cmd = UNSPEC)
    /\ (w <= 0 ->
        Cmdline.right cmd = sint (w - 1) /\ Cmdline.width cmd = UNSPEC
        /\ (INT_MIN < w ->
            Cmdline.right cmd = w - 1 /\ Cmdline.right cmd < 0
            /\ forall cols, from_far_edge cols (Cmdline.right cmd)
                            = sint (cols + (w - 1))))
    /\ (h > 0 -> Cmdline.height cmd = h /\ Cmdline.bottom cmd = UNSPEC)
    /\ (h <= 0 ->
        Cmdline.bottom cmd = sint (h - 1) /\ Cmdline.height cmd = UNSPEC
        /\ (INT_MIN < h ->
            Cmdline.bottom cmd = h - 1 /\ Cmdline.bottom cmd < 0
            /\ forall rows, from_far_edge rows (Cmdline.bottom cmd)
                            = sint (rows + (h - 1)))).
Proof.
  intros Hn Hw Hh E1 E2 E3 E4.
  unfold parseCommandLine, fail_if, scan, arg.
  destruct (Z.ltb_spec (stored UNSPEC (opt_width opts)) 0); [lia|].
  destruct (Z.ltb_spec (stored UNSPEC (opt_height opts)) 0); [lia|].
  cbn [bind].
  assert (A : forall r : list string,
             (length r <= 1)%nat ->
             r = [] \/ exists x, r = [x]).
  { intros [|x [|y r]] Hr; cbn in Hr; eauto; lia. }
  destruct (A rest Hn) as [-> | [x ->]]; cbn;
    rewrite E1, E2, E3, E4; cbn; rewrite !legacy_width_arg_cases;
    eexists; (split; [reflexivity|]); cbn;
    destruct (Z.gtb_spec w 0), (Z.gtb_spec h 0);
    repeat split; intros; try lia; try reflexivity;
    try (rewrite sint_id by int_arith; lia);
    unfold from_far_edge;
    match goal with
    | |- context [?a >=? 0] =>
        destruct (Z.geb_spec a 0) as [G|G];
        [rewrite sint_id in G by int_arith; lia|]
    end;
    rewrite (sint_id (_ - 1)) by int_arith; reflexivity.
Qed.

Lemma stored_sentinel a b :
  same_or_sentinel a b -> stored UNSPEC a = stored UNSPEC b.
Proof. intros [-> | [[-> ->] | [-> ->]]]; reflexivity. Qed.

(** C10.  The "unspecified" sentinel is [INT_MAX], 2147483647: two command
    lines that differ only in options given as 2147483647 in the one and
    left out in the other parse to the same [CmdlineInfo], so nothing after
    the parser, the resolver's case analysis included, can tell them apart.
    A negative argument never aliases the sentinel: relative to the far
    edge of an image of [extent] columns or rows it is [extent + n], below
    [INT_MAX]. *)
Theorem explicit_sentinel_is_unspecified o1 o2 args :
  same_up_to_sentinel o1 o2 ->
  parseCommandLine sscanf_d o1 args = parseCommandLine sscanf_d o2 args
  /\ forall extent n,
       0 <= extent <= INT_MAX -> is_int n -> n < 0 ->
       from_far_edge extent n = extent + n
       /\ from_far_edge extent n < INT_MAX
       /\ is_spec (from_far_edge extent n) = true.
Proof.
  intros (Hl & Hr & Ht & Hb & Hw & Hh & Hp & Hv). split.
  - unfold parseCommandLine.
    rewrite (stored_sentinel _ _ Hl), (stored_sentinel _ _ Hr),
      (stored_sentinel _ _ Ht), (stored_sentinel _ _ Hb),
      (stored_sentinel _ _ Hw), (stored_sentinel _ _ Hh), Hp, Hv.
    reflexivity.
  - intros extent n He Hn Hneg.
    rewrite from_far_edge_exact by assumption.
    destruct (Z.ltb_spec n 0); [|lia].
    repeat split; [int_arith|].
    apply is_spec_specified. unfold specified. int_arith.
Qed.

End CommandLine.

Lemma parseCommandLine_legacy_witness :
  parseCommandLine scan_decimal no_options ["0"; "0"; "-5"; "-5"]%string
  = Ok (Cmdline.mk "-" 0 (-6) 0 (-6) UNSPEC UNSPEC false false).
Proof.
  destruct (parseCommandLine_legacy scan_decimal no_options
              "0" "0" "-5" "-5" [] 0 0 (-5) (-5)
              ltac:(cbn; lia) ltac:(vm_compute; discriminate)
              ltac:(vm_compute; discriminate)
              eq_refl eq_refl eq_refl eq_refl)
    as (cmd & E & _).
  rewrite E. vm_compute in E. injection E as <-. reflexivity.
Defined.

Lemma explicit_sentinel_is_unspecified_witness :
  parseCommandLine scan_decimal
    {| opt_left := Some 2147483647; opt_right := Some 5; opt_top := None;
       opt_bottom := None; opt_width := Some 3; opt_height := None;
       opt_pad := false; opt_verbose := false |} []
  = parseCommandLine scan_decimal
      {| opt_left := None; opt_right := Some 5; opt_top := None;
         opt_bottom := None; opt_width := Some 3; opt_height := None;
         opt_pad := false; opt_verbose := false |} [].
Proof.
  apply (explicit_sentinel_is_unspecified scan_decimal).
  unfold same_up_to_sentinel, same_or_sentinel; cbn.
  repeat split; auto.
Defined.

(** Given explicitly, 2147483647 for [-left] together with [-right] and
    [-width] is not the overspecified case. *)
Example explicit_sentinel_left v :
  computeCutBounds 10 10 2147483647 5 UNSPEC UNSPEC 3 UNSPEC v
  = Ok {| leftcol := 3; rightcol := 5; toprow := 0; bottomrow := 9 |}.
Proof. reflexivity. Qed.

(** ** Loops and arrays *)

Lemma range_cons c0 n : range c0 (S n) = c0 :: range (c0 + 1) n.
Proof.
  unfold range. cbn [seq map]. f_equal; [lia|].
  rewrite <- seq_shift, map_map. apply map_ext. intros. lia.
Qed.

Lemma range_snoc c0 n : range c0 (S n) = range c0 n ++ [c0 + Z.of_nat n].
Proof. unfold range. now rewrite seq_S, map_app. Qed.

Lemma range_length c0 n : length (range c0 n) = n.
Proof. unfold range. now rewrite length_map, length_seq. Qed.

(** A loop that leaves by its condition after [m] rounds does the [m]
    bodies in turn. *)
Lemma for_while_fold {St : Type} (cond : Z -> bool) (body : Z -> St -> St) m :
  forall n a s,
    (m <= n)%nat -> is_int a -> a + Z.of_nat m <= INT_MAX ->
    (forall k, (k < m)%nat -> cond (a + Z.of_nat k) = true) ->
    ((m < n)%nat -> cond (a + Z.of_nat m) = false) ->
    for_while n cond body a s
    = fold_left (fun s col => body col s) (range a m) s.
Proof.
  induction m as [|m IH]; intros n a s Hmn Ha Hb Ht Hf.
  - destruct n; [reflexivity|]. cbn.
    specialize (Hf ltac:(lia)). cbn in Hf. rewrite Z.add_0_r in Hf.
    now rewrite Hf.
  - destruct n; [lia|]. cbn [for_while].
    assert (Ht0 := Ht 0%nat ltac:(lia)). cbn in Ht0.
    rewrite Z.add_0_r in Ht0. rewrite Ht0.
    rewrite sint_id by int_arith. rewrite range_cons. cbn [fold_left].
    apply IH; try lia; try int_arith.
    + intros k Hk. replace (a + 1 + Z.of_nat k) with (a + Z.of_nat (S k)) by lia.
      apply Ht. lia.
    + intros Hlt. replace (a + 1 + Z.of_nat m) with (a + Z.of_nat (S m)) by lia.
      apply Hf. lia.
Qed.

Lemma get_set_ptr a i j c :
  0 <= j ->
  get_ptr (set_ptr a i c) j
  = if (i =? j) && (j <? Z.of_nat (length a)) then c else get_ptr a j.
Proof.
  intros Hj. unfold get_ptr, set_ptr.
  destruct (Z.ltb_spec j 0); [lia|].
  destruct (Z.ltb_spec i 0).
  { destruct (Z.eqb_spec i j); [lia|reflexivity]. }
  destruct (Z.eqb_spec i j) as [->|Hne]; cbn.
  - destruct (Z.ltb_spec j (Z.of_nat (length a))).
    + rewrite list_lookup_insert_eq by lia. reflexivity.
    + rewrite list_insert_ge by lia. reflexivity.
  - rewrite list_lookup_insert_ne by lia. reflexivity.
Qed.

Lemma set_ptr_length a i c : length (set_ptr a i c) = length a.
Proof. unfold set_ptr. destruct (i <? 0); [reflexivity|apply length_insert]. Qed.

(** Storing [v col] at index [col - shift] for the columns of a range that
    pass [guard]. *)
Lemma fold_set_ptr (guard : Z -> bool) (v : Z -> cell) shift c0 n :
  forall a,
    let a' := fold_left
                (fun out col =>
                   if guard col then set_ptr out (col - shift) (v col) else out)
                (range c0 n) a in
    length a' = length a
    /\ forall i, 0 <= i ->
         get_ptr a' i
         = if (c0 <=? i + shift) && (i + shift <? c0 + Z.of_nat n)
              && guard (i + shift) && (i <? Z.of_nat (length a))
           then v (i + shift) else get_ptr a i.
Proof.
  induction n as [|n IH]; intros a; cbn zeta.
  - split; [reflexivity|]. intros i Hi. cbn [range seq map fold_left].
    zbool; try reflexivity; lia.
  - rewrite range_snoc, fold_left_app. cbn [fold_left].
    destruct (IH a) as [Hlen Hget]. cbn zeta in Hlen, Hget.
    set (a1 := fold_left _ (range c0 n) a) in *.
    split.
    + destruct (guard _); [rewrite set_ptr_length|]; exact Hlen.
    + intros i Hi.
      assert (G : get_ptr
                    (if guard (c0 + Z.of_nat n)
                     then set_ptr a1 (c0 + Z.of_nat n - shift)
                            (v (c0 + Z.of_nat n))
                     else a1) i
                  = if (c0 + Z.of_nat n - shift =? i)
                       && guard (c0 + Z.of_nat n)
                       && (i <? Z.of_nat (length a))
                    then v (c0 + Z.of_nat n) else get_ptr a1 i).
      { destruct (guard (c0 + Z.of_nat n)).
        - rewrite get_set_ptr, Hlen by assumption.
          now rewrite andb_true_r.
        - now rewrite andb_false_r. }
      rewrite G, Hget by assumption. clear G Hget.
      destruct (Z.eqb_spec (c0 + Z.of_nat n - shift) i) as [E|E].
      * replace (i + shift) with (c0 + Z.of_nat n) by lia.
        destruct (guard (c0 + Z.of_nat n)); zbool; try reflexivity; lia.
      * zbool; try reflexivity; lia.
Qed.

Lemma get_ptr_malloc n i : get_ptr (malloc_ptrs n) i = Wild.
Proof.
  unfold get_ptr, malloc_ptrs. destruct (i <? 0); [reflexivity|].
  destruct (replicate (Z.to_nat n) Wild !! Z.to_nat i) eqn:E; [|reflexivity].
  apply lookup_replicate in E. now destruct E as [-> _].
Qed.

Lemma malloc_ptrs_length n : length (malloc_ptrs n) = Z.to_nat n.
Proof. apply length_replicate. Qed.

(** An array is the list of what its indices hold. *)
Lemma array_ext (a : list cell) n f :
  length a = n ->
  (forall i, 0 <= i < Z.of_nat n -> get_ptr a i = f i) ->
  a = map f (range 0 n).
Proof.
  intros Hlen Hget. apply list_eq. intros k.
  unfold range. rewrite map_map.
  destruct (Nat.lt_ge_cases k n) as [Hk|Hk].
  - rewrite list_lookup_fmap, lookup_seq_lt by assumption. cbn.
    specialize (Hget (Z.of_nat k) ltac:(lia)).
    unfold get_ptr in Hget. destruct (Z.ltb_spec (Z.of_nat k) 0); [lia|].
    rewrite Nat2Z.id in Hget.
    destruct (a !! k) eqn:E.
    + cbn in Hget. now subst.
    + apply lookup_ge_None in E. lia.
  - rewrite lookup_ge_None_2 by lia.
    symmetry. apply lookup_ge_None_2.
    rewrite length_fmap, length_seq. lia.
Qed.

Lemma fold_left_pair {A B C : Type} (f : A -> C -> A) (g : B -> C -> B) l :
  forall a b,
    fold_left (fun (s : A * B) x => let '(a, b) := s in (f a x, g b x)) l (a, b)
    = (fold_left f l a, fold_left g l b).
Proof. induction l as [|x l IH]; intros a b; cbn; [reflexivity|apply IH]. Qed.

Lemma fold_left_ext {A C : Type} (f g : A -> C -> A) l :
  (forall a x, f a x = g a x) ->
  forall a, fold_left f l a = fold_left g l a.
Proof.
  intros H. induction l as [|x l IH]; intros a; cbn; [reflexivity|].
  now rewrite H, IH.
Qed.

(** ** The row cutter *)

Section RowCutter.

Context {tuple : Type}.
Variable black : tuple.
Variables inpam outpam : Pam.pam.
Variables lc rc : Z.

Let inw := Pam.width inpam.
Let outw := Pam.width outpam.

Hypothesis inw_range : 0 <= inw <= INT_MAX.
Hypothesis outw_eq : outw = rc - lc + 1.
Hypothesis outw_range : outw <= INT_MAX.
Hypothesis lc_int : is_int lc.
Hypothesis lc_le_rc : lc <= rc.
Hypothesis rc_lt_max : rc < INT_MAX.

(** The pointers [createRowCutter] sets up are the row plan of the design,
    and the black tuple holds black. *)
Lemma createRowCutter_plan (m : memory tuple) :
  createRowCutter black inpam outpam lc rc m
  = ({| inputPointers := map (input_slot lc rc) (range 0 (Z.to_nat inw));
        outputPointers := map (output_slot lc inw) (range 0 (Z.to_nat outw));
        inputWidth := inw;
        outputWidth := outw |},
     poke m BlackTuple black).
Proof.
  unfold createRowCutter. fold inw outw.
  rewrite !MAX_max, !MIN_min.
  rewrite (sint_id (rc + 1)) by int_arith.
  (* left padding *)
  rewrite (for_while_fold _ _
             (Z.to_nat (Z.min (0 - lc) outw)) (Z.to_nat (0 - lc)));
    [ | lia | assumption | int_arith
      | intros k Hk; zbool; try reflexivity; lia
      | intros Hk; zbool; try reflexivity; lia ].
  destruct (fold_set_ptr (fun _ => true) (fun _ => BlackTuple) lc lc
              (Z.to_nat (Z.min (0 - lc) outw)) (malloc_ptrs outw))
    as [L1 G1].
  cbn beta iota in L1, G1.
  set (out1 := fold_left _ (range lc _) (malloc_ptrs outw)) in *.
  (* extracted columns *)
  rewrite (for_while_fold _ _
             (Z.to_nat (Z.min rc (inw - 1) + 1 - Z.max lc 0))
             (Z.to_nat (Z.min rc (inw - 1) + 1 - Z.max lc 0)));
    [ | lia | int_arith | int_arith
      | intros k Hk; zbool; try reflexivity; lia
      | lia ].
  rewrite (fold_left_pair
             (fun inp col => set_ptr inp col (CopyTuple (col - lc)))
             (fun out col => set_ptr out (col - lc) (CopyTuple (col - lc)))).
  destruct (fold_set_ptr (fun _ => true) (fun col => CopyTuple (col - lc)) 0
              (Z.max lc 0)
              (Z.to_nat (Z.min rc (inw - 1) + 1 - Z.max lc 0))
              (malloc_ptrs inw))
    as [L2 G2].
  destruct (fold_set_ptr (fun _ => true) (fun col => CopyTuple (col - lc)) lc
              (Z.max lc 0)
              (Z.to_nat (Z.min rc (inw - 1) + 1 - Z.max lc 0)) out1)
    as [L3 G3].
  cbn beta iota in L2, G2, L3, G3.
  rewrite (fold_left_ext _
             (fun inp col => set_ptr inp col (CopyTuple (col - lc))))
    in L2, G2 by (intros; now rewrite Z.sub_0_r).
  set (inp2 := fold_left _ (range (Z.max lc 0) _) (malloc_ptrs inw)) in *.
  set (out2 := fold_left _ (range (Z.max lc 0) _) out1) in *.
  (* right padding *)
  rewrite (for_while_fold _ _
             (Z.to_nat (rc + 1 - (Z.min rc (inw - 1) + 1)))
             (Z.to_nat (rc + 1 - (Z.min rc (inw - 1) + 1))));
    [ | lia | int_arith | int_arith
      | intros k Hk; zbool; try reflexivity; lia
      | lia ].
  destruct (fold_set_ptr (fun col => col - lc >=? 0) (fun _ => BlackTuple) lc
              (Z.min rc (inw - 1) + 1)
              (Z.to_nat (rc + 1 - (Z.min rc (inw - 1) + 1))) out2)
    as [L4 G4].
  cbn beta iota in L4, G4.
  set (out3 := fold_left _ (range (Z.min rc (inw - 1) + 1) _) out2) in *.
  (* discarded columns *)
  rewrite (for_while_fold _ _
             (Z.to_nat (Z.min lc inw - 0)) (Z.to_nat (Z.min lc inw - 0)));
    [ | lia | int_arith | int_arith
      | intros k Hk; zbool; try reflexivity; lia
      | lia ].
  destruct (fold_set_ptr (fun _ => true) (fun _ => DiscardTuple) 0 0
              (Z.to_nat (Z.min lc inw - 0)) inp2)
    as [L5 G5].
  cbn beta iota in L5, G5.
  rewrite (fold_left_ext _ (fun inp col => set_ptr inp col DiscardTuple))
    in L5, G5 by (intros; now rewrite Z.sub_0_r).
  set (inp3 := fold_left _ (range 0 _) inp2) in *.
  rewrite (for_while_fold _ _
             (Z.to_nat (inw - Z.max 0 (rc + 1)))
             (Z.to_nat (inw - Z.max 0 (rc + 1))));
    [ | lia | int_arith | int_arith
      | intros k Hk; zbool; try reflexivity; lia
      | lia ].
  destruct (fold_set_ptr (fun _ => true) (fun _ => DiscardTuple) 0
              (Z.max 0 (rc + 1))
              (Z.to_nat (inw - Z.max 0 (rc + 1))) inp3)
    as [L6 G6].
  cbn beta iota in L6, G6.
  rewrite (fold_left_ext _ (fun inp col => set_ptr inp col DiscardTuple))
    in L6, G6 by (intros; now rewrite Z.sub_0_r).
  set (inp4 := fold_left _ (range (Z.max 0 (rc + 1)) _) inp3) in *.
  rewrite malloc_ptrs_length in *.
  f_equal. f_equal.
  - apply array_ext; [congruence|]. intros i Hi.
    rewrite G6, G5, G2, get_ptr_malloc by lia.
    rewrite L5, L2. unfold input_slot.
    assert (C : i < lc \/ lc <= i <= rc \/ rc < i) by lia.
    destruct C as [C|[C|C]]; zdecide; try reflexivity.
    f_equal. lia.
  - apply array_ext; [congruence|]. intros i Hi.
    rewrite G4, G3, G1, get_ptr_malloc by lia.
    rewrite L3, L1. unfold output_slot.
    assert (C : lc + i < 0 \/ 0 <= lc + i < inw \/ inw <= lc + i) by lia.
    destruct C as [C|[C|C]]; zdecide; try reflexivity.
    f_equal. lia.
Qed.

End RowCutter.

Lemma get_ptr_map_range (f : Z -> cell) n i :
  0 <= i < Z.of_nat n -> get_ptr (map f (range 0 n)) i = f i.
Proof.
  intros Hi. unfold get_ptr, range. destruct (Z.ltb_spec i 0); [lia|].
  rewrite map_map, list_lookup_fmap, lookup_seq_lt by lia. cbn.
  f_equal. lia.
Qed.

Lemma map_range {A : Type} (f : Z -> A) c0 n :
  map f (range c0 n) = map (fun k => f (c0 + Z.of_nat k)) (seq 0 n).
Proof. unfold range. apply map_map. Qed.

Lemma poke_same {tuple : Type} (m : memory tuple) c v : poke m c v c = v.
Proof.
  unfold poke. destruct c; cbn; try reflexivity. now rewrite Z.eqb_refl.
Qed.

Lemma poke_copy {tuple : Type} (m : memory tuple) c v k :
  poke m c v (CopyTuple k)
  = if cell_eqb c (CopyTuple k) then v else m (CopyTuple k).
Proof. reflexivity. Qed.

Lemma pnm_writepamrow_pair {tuple : Type} outpam ptrs
      (f : files tuple) (m : memory tuple) :
  pnm_writepamrow outpam ptrs (f, m)
  = ({| unread := unread f; consumed := consumed f;
        written := written f ++ [pointed_row outpam ptrs m] |}, m).
Proof. reflexivity. Qed.

Lemma rows_between_clip {tuple : Type} tr br h (rows : list (list tuple)) :
  forall row,
    0 <= row -> row + Z.of_nat (length rows) = h ->
    rows_between tr br row rows
    = rows_between (Z.max tr 0) (Z.min br (h - 1)) row rows.
Proof.
  induction rows as [|data rows IH]; intros row Hrow Hh; [reflexivity|].
  cbn [rows_between length] in *.
  rewrite (IH (row + 1)) by lia.
  assert (E : (row >=? tr) && (row <=? br)
              = (row >=? Z.max tr 0) && (row <=? Z.min br (h - 1)))
    by (zbool; try reflexivity; lia).
  now rewrite E.
Qed.

Lemma rows_between_length {tuple : Type} a b (rows : list (list tuple)) :
  forall row,
    length (rows_between a b row rows)
    = Z.to_nat (Z.min b (row + Z.of_nat (length rows) - 1) + 1 - Z.max a row).
Proof.
  induction rows as [|data rows IH]; intros row.
  - cbn. lia.
  - cbn [rows_between length].
    destruct (Z.geb_spec row a), (Z.leb_spec row b); cbn [andb length];
      rewrite (IH (row + 1)); lia.
Qed.

Lemma rows_between_all {tuple : Type} a b (rows : list (list tuple)) :
  forall row,
    a <= row -> row + Z.of_nat (length rows) - 1 <= b ->
    rows_between a b row rows = rows.
Proof.
  induction rows as [|data rows IH]; intros row Ha Hb; [reflexivity|].
  cbn [rows_between length] in *.
  destruct (Z.geb_spec row a), (Z.leb_spec row b); try lia. cbn [andb].
  f_equal. apply IH; lia.
Qed.

Section GeneralPath.

Context {tuple : Type}.
Variable black : tuple.
Variables inpam outpam : Pam.pam.
Variables lc rc tr br : Z.

Let inw := Pam.width inpam.
Let outw := Pam.width outpam.
Let h := Pam.height inpam.

Hypothesis inw_range : 0 <= inw <= INT_MAX.
Hypothesis outw_eq : outw = rc - lc + 1.
Hypothesis outw_range : outw <= INT_MAX.
Hypothesis lc_int : is_int lc.
Hypothesis lc_le_rc : lc <= rc.
Hypothesis rc_lt_max : rc < INT_MAX.

(** What the tuples hold after a row has been read through the input
    pointers. *)
Lemma read_through_plan (data : list tuple) n :
  forall m : memory tuple,
    (n <= length data)%nat -> Z.of_nat n <= inw ->
    let m' :=
      fold_left
        (fun m col =>
           match data !! Z.to_nat col with
           | Some v =>
               poke m (get_ptr (map (input_slot lc rc)
                                  (range 0 (Z.to_nat inw))) col) v
           | None => m
           end)
        (range 0 n) m in
    m' BlackTuple = m BlackTuple
    /\ forall k,
         m' (CopyTuple k)
         = if (0 <=? k) && (k <=? rc - lc) && (0 <=? k + lc)
              && (k + lc <? Z.of_nat n)
           then default black (pixel_at data (k + lc))
           else m (CopyTuple k).
Proof.
  induction n as [|n IH]; intros m Hn Hw; cbn zeta.
  - cbn. split; [reflexivity|]. intros k. zbool; try reflexivity; lia.
  - rewrite range_snoc, fold_left_app. cbn [fold_left].
    destruct (IH m ltac:(lia) ltac:(lia)) as [Hb Hc]. cbn zeta in Hb, Hc.
    set (m1 := fold_left _ (range 0 n) m) in *.
    rewrite Z.add_0_l, Nat2Z.id.
    destruct (data !! n) as [v|] eqn:E;
      [|apply lookup_ge_None in E; lia].
    rewrite get_ptr_map_range by lia.
    unfold input_slot. split.
    + destruct ((lc <=? Z.of_nat n) && (Z.of_nat n <=? rc)); exact Hb.
    + intros k.
      destruct ((lc <=? Z.of_nat n) && (Z.of_nat n <=? rc)) eqn:C;
        rewrite poke_copy, Hc; cbn [cell_eqb].
      * apply andb_true_iff in C. destruct C as [C1 C2].
        apply Z.leb_le in C1, C2.
        destruct (Z.eqb_spec (Z.of_nat n - lc) k) as [<-|Hk].
        -- replace (Z.of_nat n - lc + lc) with (Z.of_nat n) by lia.
           unfold pixel_at. rewrite Nat2Z.id, E.
           zbool; try reflexivity; lia.
        -- zbool; try reflexivity; lia.
      * apply andb_false_iff in C.
        zbool; try reflexivity; destruct C; lia.
Qed.

(** Reading a row through the input pointers and writing it through the
    output pointers writes the columns [lc .. rc] of the row, black where the
    row has no such column. *)
Lemma cut_through_plan (data : list tuple) (m : memory tuple) :
  length data = Z.to_nat inw -> m BlackTuple = black ->
  let m' :=
    for_while (length data) (fun col => col <? inw)
      (fun col m =>
         match data !! Z.to_nat col with
         | Some v =>
             poke m (get_ptr (map (input_slot lc rc)
                                (range 0 (Z.to_nat inw))) col) v
         | None => m
         end) 0 m in
  m' BlackTuple = black
  /\ pointed_row outpam (map (output_slot lc inw) (range 0 (Z.to_nat outw))) m'
     = cut_row black lc outw data.
Proof.
  intros Hlen Hblack. cbn zeta.
  rewrite (for_while_fold _ _ (length data) (length data));
    [ | lia | int_arith | int_arith
      | intros k Hk; zbool; try reflexivity; lia
      | lia ].
  destruct (read_through_plan data (length data) m ltac:(lia) ltac:(lia))
    as [Hb Hc].
  cbn zeta in Hb, Hc. set (m' := fold_left _ _ m) in *.
  split; [congruence|].
  unfold pointed_row, cut_row. fold outw.
  rewrite (map_range (fun j => default black (pixel_at data (lc + j)))).
  apply map_ext_in. intros j Hj. apply in_seq in Hj.
  rewrite get_ptr_map_range by lia.
  unfold output_slot. rewrite Z.add_0_l.
  destruct ((0 <=? lc + Z.of_nat j) && (lc + Z.of_nat j <? inw)) eqn:C.
  - apply andb_true_iff in C. destruct C as [C1 C2].
    apply Z.leb_le in C1. apply Z.ltb_lt in C2.
    rewrite Hc. rewrite (Z.add_comm (Z.of_nat j) lc).
    zbool; try reflexivity; lia.
  - apply andb_false_iff in C. rewrite Hb, Hblack.
    unfold pixel_at.
    destruct (Z.ltb_spec (lc + Z.of_nat j) 0); [reflexivity|].
    rewrite lookup_ge_None_2; [reflexivity|].
    destruct C as [C|C]; [apply Z.leb_gt in C | apply Z.ltb_ge in C]; lia.
Qed.

Hypothesis h_range : 0 <= h <= INT_MAX.

(** The loop over the rows of the image, from row [row] on. *)
Lemma gen_row_loop rest rows :
  forall row (f : files tuple) (m : memory tuple),
    Forall (fun data => length data = Z.to_nat inw) rows ->
    unread f = rows ++ rest ->
    0 <= row -> row + Z.of_nat (length rows) = h ->
    m BlackTuple = black ->
    exists m',
      for_whileM (length rows) (fun row => row <? h)
        (fun row st =>
           if (row >=? tr) && (row <=? br)
           then
             st <- pnm_readpamrow inpam
                     (Some (map (input_slot lc rc) (range 0 (Z.to_nat inw))))
                     st ;;
             Ok (pnm_writepamrow outpam
                   (map (output_slot lc inw) (range 0 (Z.to_nat outw))) st)
           else pnm_readpamrow inpam None st)
        row (f, m)
      = Ok ({| unread := rest;
               consumed := consumed f ++ rows;
               written := written f
                          ++ map (cut_row black lc outw)
                               (rows_between tr br row rows) |}, m')
      /\ m' BlackTuple = black.
Proof.
  induction rows as [|data rows IH]; intros row f m Hall Hun Hrow Hh Hb.
  - exists m. cbn. rewrite !app_nil_r. destruct f; cbn in *.
    rewrite Hun. now split.
  - assert (Hd := Forall_inv Hall). assert (Hall' := Forall_inv_tail Hall).
    cbn beta in Hd.
    cbn [length for_whileM rows_between].
    cbn [length] in Hh.
    destruct (Z.ltb_spec row h); [|lia].
    rewrite sint_id by int_arith.
    destruct ((row >=? tr) && (row <=? br)).
    + unfold pnm_readpamrow at 1. rewrite Hun. cbn [app bind].
      fold inw.
      destruct (cut_through_plan data m Hd Hb) as [Hb' Hcut].
      cbn zeta in Hb', Hcut.
      set (m1 := for_while (length data) _ _ 0 m) in *.
      rewrite pnm_writepamrow_pair, Hcut. cbn [unread consumed written].
      destruct (IH (row + 1)
                  {| unread := rows ++ rest;
                     consumed := consumed f ++ [data];
                     written := written f ++ [cut_row black lc outw data] |}
                  m1 Hall' eq_refl ltac:(lia) ltac:(lia) Hb')
        as (m' & E & Hb'').
      exists m'. cbn [unread consumed written] in *. rewrite E.
      split; [|exact Hb'']. cbn [map].
      now rewrite <- !app_assoc.
    + unfold pnm_readpamrow at 1. rewrite Hun. cbn [app bind].
      destruct (IH (row + 1)
                  {| unread := rows ++ rest;
                     consumed := consumed f ++ [data];
                     written := written f |}
                  m Hall' eq_refl ltac:(lia) ltac:(lia) Hb)
        as (m' & E & Hb'').
      exists m'. cbn [unread consumed written] in *. rewrite E.
      split; [|exact Hb'']. now rewrite <- !app_assoc.
Qed.

Hypothesis tr_range : INT_MIN < tr <= INT_MAX.
Hypothesis br_range : is_int br /\ is_int (br - (h - 1)).

Lemma writeBlackRows_rows n (f : files tuple) (m : memory tuple) :
  writeBlackRows black outpam n (f, m)
  = ({| unread := unread f; consumed := consumed f;
        written := written f ++ replicate (Z.to_nat n) (black_row black outw) |},
     poke m BlackTuple black).
Proof.
  unfold writeBlackRows, pnm_writepamrowmult. fold outw.
  rewrite (for_while_fold _ _ (Z.to_nat outw) (Z.to_nat outw));
    [ | lia | int_arith | int_arith
      | intros k Hk; zbool; try reflexivity; lia
      | lia ].
  destruct (fold_set_ptr (fun _ => true) (fun _ => BlackTuple) 0 0
              (Z.to_nat outw) (malloc_ptrs outw)) as [L G].
  cbn beta iota in L, G.
  rewrite (fold_left_ext _ (fun a col => set_ptr a col BlackTuple))
    in L, G by (intros; now rewrite Z.sub_0_r).
  set (blackRow := fold_left _ (range 0 _) (malloc_ptrs outw)) in *.
  rewrite malloc_ptrs_length in *.
  f_equal. f_equal. f_equal. f_equal.
  unfold pointed_row, black_row. fold outw.
  apply list_eq. intros k.
  destruct (Nat.lt_ge_cases k (Z.to_nat outw)) as [Hk|Hk].
  - rewrite list_lookup_fmap, lookup_seq_lt by assumption. cbn.
    rewrite lookup_replicate_2 by assumption.
    rewrite G by lia.
    destruct ((0 <=? Z.of_nat k + 0) && (Z.of_nat k + 0 <? 0 + Z.of_nat (Z.to_nat outw))
              && true && (Z.of_nat k <? Z.of_nat (Z.to_nat outw))) eqn:C.
    + now rewrite poke_same.
    + exfalso. revert C. zbool; try discriminate; lia.
  - rewrite !lookup_ge_None_2; try reflexivity.
    + rewrite length_replicate. lia.
    + rewrite length_fmap, length_seq. lia.
Qed.

(** What the general path does with an image: every row of it is read, and
    what is written is the black rows above, the cut rows and the black rows
    below. *)
Lemma extractRowsGen_rows image rest (f : files tuple) (m : memory tuple) :
  Forall (fun data => length data = Z.to_nat inw) image ->
  Z.of_nat (length image) = h ->
  unread f = image ++ rest ->
  exists m',
    extractRowsGen black inpam outpam lc rc tr br (f, m)
    = Ok ({| unread := rest;
             consumed := consumed f ++ image;
             written := written f ++ spec_cut black lc rc tr br image |}, m').
Proof.
  intros Hall Hlen Hun. unfold extractRowsGen. fold h.
  rewrite writeBlackRows_rows.
  rewrite (sint_id (0 - tr)), (sint_id (h - 1)), (sint_id (br - (h - 1)))
    by int_arith.
  set (st0 := if 0 - tr >? 0 then _ else (f, m)).
  assert (Hst0 : st0 = ({| unread := unread f; consumed := consumed f;
                           written := written f
                                      ++ replicate (Z.to_nat (Z.max 0 (- tr)))
                                           (black_row black outw) |},
                        snd st0)).
  { unfold st0. destruct (Z.gtb_spec (0 - tr) 0); cbn [snd].
    - do 4 f_equal. lia.
    - replace (Z.to_nat (Z.max 0 (- tr))) with 0%nat by lia. cbn.
      rewrite app_nil_r. now destruct f. }
  rewrite createRowCutter_plan by assumption.
  cbn [inputPointers outputPointers]. fold inw outw.
  rewrite Hst0. cbn [fst snd].
  replace (Z.to_nat h) with (length image) by lia.
  destruct (gen_row_loop rest image 0
              {| unread := unread f; consumed := consumed f;
                 written := written f
                            ++ replicate (Z.to_nat (Z.max 0 (- tr)))
                                 (black_row black outw) |}
              (poke (snd st0) BlackTuple black) Hall Hun ltac:(lia)
              ltac:(fold h; lia) (poke_same _ _ _))
    as (m' & E & Hb).
  rewrite E. cbn [bind unread consumed written].
  rewrite writeBlackRows_rows. cbn [unread consumed written].
  unfold spec_cut.
  rewrite (rows_between_clip tr br h) by (fold h; lia).
  rewrite Hlen, <- outw_eq.
  destruct (Z.gtb_spec (br - (h - 1)) 0); eexists; do 2 f_equal.
  - rewrite <- !app_assoc.
    replace (Z.max 0 (br - (h - 1))) with (br - (h - 1)) by lia.
    reflexivity.
  - replace (Z.to_nat (Z.max 0 (br - (h - 1)))) with 0%nat by lia.
    cbn [replicate]. rewrite app_nil_r, <- !app_assoc. reflexivity.
Qed.

End GeneralPath.

(** ** The rows the general path writes *)

Lemma spec_cut_length {tuple : Type} (black : tuple) lc rc tr br
      (image : list (list tuple)) :
  let h := Z.of_nat (length image) in
  Z.of_nat (length (spec_cut black lc rc tr br image))
  = Z.max 0 (- tr)
    + Z.max 0 (Z.min br (h - 1) + 1 - Z.max tr 0)
    + Z.max 0 (br - (h - 1)).
Proof.
  cbn zeta. unfold spec_cut.
  rewrite !length_app, length_map, !length_replicate, rows_between_length.
  lia.
Qed.

(** The rows written are as many as the header says when the rectangle
    meets the rows of the image, and more when it lies above or below it. *)
Lemma spec_cut_length_cases {tuple : Type} (black : tuple) lc rc tr br
      (image : list (list tuple)) :
  let h := Z.of_nat (length image) in
  let n := Z.of_nat (length (spec_cut black lc rc tr br image)) in
  tr <= br ->
  (tr <= h -> -1 <= br -> n = br - tr + 1)
  /\ (br < -1 -> n = - tr /\ n > br - tr + 1)
  /\ (h < tr -> n = br - (h - 1) /\ n > br - tr + 1).
Proof.
  cbn zeta. rewrite spec_cut_length. lia.
Qed.

(** C3 fails on the code where the rectangle lies above the image: for a
    2-row image and the rows -5 .. -3 (padding on, [-top=-7 -bottom=-5]),
    the header written declares 3 rows and 5 black rows are written. *)
Theorem extractRowsGen_rectangle_above_image :
  exists outpam st',
    cutOneImage 1 (fun _ => 0) 0 1 (Z.eqb 0)
      (Pam.mk 2 2 1 255 Pam.PGM_TYPE)
      (Cmdline.mk "-" UNSPEC UNSPEC (-7) (-5) UNSPEC UNSPEC true false)
      {| leftcol := 0; rightcol := 0; toprow := 0; bottomrow := 0 |}
      ({| unread := [[10; 20]; [30; 40]]; consumed := []; written := [] |},
       fun _ => 0)
    = Ok (outpam, st')
    /\ Pam.height outpam = 3
    /\ written (fst st') = [[0; 0]; [0; 0]; [0; 0]; [0; 0]; [0; 0]].
Proof.
  eexists _, _. split; [reflexivity|]. split; reflexivity.
Qed.

(** ** Cutting the whole image *)

Lemma cut_row_whole {tuple : Type} (black : tuple) w (data : list tuple) :
  length data = Z.to_nat w -> cut_row black 0 w data = data.
Proof.
  intros Hlen. unfold cut_row. rewrite map_range.
  apply list_eq. intros k.
  destruct (Nat.lt_ge_cases k (Z.to_nat w)) as [Hk|Hk].
  - rewrite list_lookup_fmap, lookup_seq_lt by assumption. cbn.
    unfold pixel_at. rewrite !Z.add_0_l.
    destruct (Z.ltb_spec (Z.of_nat k) 0); [lia|].
    rewrite Nat2Z.id.
    destruct (data !! k) eqn:E; [reflexivity|].
    apply lookup_ge_None in E. lia.
  - rewrite !lookup_ge_None_2; try reflexivity; try lia.
    rewrite length_fmap, length_seq. lia.
Qed.

Lemma map_cut_row_whole {tuple : Type} (black : tuple) w
      (image : list (list tuple)) :
  Forall (fun data => length data = Z.to_nat w) image ->
  map (cut_row black 0 w) image = image.
Proof.
  induction 1 as [|data image Hd _ IH]; cbn; [reflexivity|].
  now rewrite cut_row_whole, IH.
Qed.

Lemma spec_cut_whole {tuple : Type} (black : tuple) w h
      (image : list (list tuple)) :
  Forall (fun data => length data = Z.to_nat w) image ->
  Z.of_nat (length image) = h ->
  spec_cut black 0 (w - 1) 0 (h - 1) image = image.
Proof.
  intros Hall Hlen. unfold spec_cut. rewrite Hlen.
  replace (w - 1 - 0 + 1) with w by lia.
  replace (Z.to_nat (Z.max 0 (- 0))) with 0%nat by lia.
  replace (Z.to_nat (Z.max 0 (h - 1 - (h - 1)))) with 0%nat by lia.
  cbn [replicate app]. rewrite app_nil_r.
  rewrite rows_between_all by lia.
  now apply map_cut_row_whole.
Qed.

Lemma full_image_bounds inpam cmdline v :
  0 < Pam.width inpam <= INT_MAX -> 0 < Pam.height inpam <= INT_MAX ->
  full_image_request inpam cmdline ->
  computeCutBounds (Pam.width inpam) (Pam.height inpam)
    (Cmdline.left cmdline) (Cmdline.right cmdline)
    (Cmdline.top cmdline) (Cmdline.bottom cmdline)
    (Cmdline.width cmdline) (Cmdline.height cmdline) v
  = Ok {| leftcol := 0; rightcol := Pam.width inpam - 1;
          toprow := 0; bottomrow := Pam.height inpam - 1 |}.
Proof.
  intros Hw Hh (-> & -> & [(-> & -> & -> & ->) | (-> & -> & -> & ->)]);
    rewrite computeCutBounds_spec by int_arith;
    unfold spec_resolve, edge, is_spec;
    repeat match goal with
           | |- context [?a =? UNSPEC] =>
               destruct (Z.eqb_spec a UNSPEC);
               try congruence; try (exfalso; int_arith)
           end;
    cbn; unfold as_ints; cbn;
    repeat match goal with
           | |- context [?a <? 0] => destruct (Z.ltb_spec a 0); [lia|]
           end;
    rewrite ?sint_id by int_arith; reflexivity.
Qed.

(** The whole of an image that is not PBM: the general path writes the
    header and the rows of the input unchanged. *)
Lemma cut_full_gen_image {tuple : Type} PBM_BLACK heap (black white : tuple)
      is_black inpam cmdline v image rest (f : files tuple) m :
  Pam.format inpam <> Pam.PBM_TYPE ->
  0 < Pam.width inpam <= INT_MAX -> 0 < Pam.height inpam <= INT_MAX ->
  image_of inpam image ->
  unread f = image ++ rest ->
  full_image_request inpam cmdline ->
  exists m',
    cutOneImage PBM_BLACK heap black white is_black inpam cmdline v (f, m)
    = Ok (inpam,
          ({| unread := rest;
              consumed := consumed f ++ image;
              written := written f ++ image |}, m')).
Proof.
  intros Hfmt Hw Hh [Hall Hlen] Hun Hreq.
  destruct (extractRowsGen_rows black inpam inpam 0 (Pam.width inpam - 1)
              0 (Pam.height inpam - 1)
              ltac:(int_arith) ltac:(lia) ltac:(int_arith) ltac:(int_arith)
              ltac:(lia) ltac:(int_arith) ltac:(int_arith) ltac:(int_arith)
              ltac:(split; int_arith)
              image rest f m Hall Hlen Hun) as (m' & E).
  rewrite (spec_cut_whole black _ _ image Hall Hlen) in E.
  unfold cutOneImage.
  rewrite (full_image_bounds inpam cmdline v Hw Hh Hreq).
  cbn [bind leftcol rightcol toprow bottomrow].
  rewrite rejectOutOfBounds_accepts;
    [ | int_arith | int_arith
      | right; unfold out_of_bounds; int_arith | unfold inverted; lia ].
  cbn [bind].
  replace (sint (sint (Pam.width inpam - 1 - 0) + 1)) with (Pam.width inpam)
    by int_arith.
  replace (sint (sint (Pam.height inpam - 1 - 0) + 1))
    with (Pam.height inpam) by int_arith.
  assert (Eo : Pam.mk (Pam.width inpam) (Pam.height inpam) (Pam.depth inpam)
                 (Pam.maxval inpam) (Pam.format inpam) = inpam)
    by now destruct inpam.
  rewrite Eo.
  exists m'. destruct (Pam.format inpam); try congruence;
    rewrite E; reflexivity.
Qed.

(** ** Reading the rows of the input *)

Lemma for_while_invariant {St : Type} (P : St -> Prop) cond
      (body : Z -> St -> St) :
  (forall col s, P s -> P (body col s)) ->
  forall n col s, P s -> P (for_while n cond body col s).
Proof.
  intros Hbody. induction n as [|n IH]; intros col s Hs; cbn; [exact Hs|].
  destruct (cond col); [|exact Hs]. apply IH, Hbody, Hs.
Qed.

Section PackedReads.

Context {tuple : Type}.
Variable PBM_BLACK : Z.
Variable heap : nat -> Z.
Variables black white : tuple.
Variable is_black : tuple -> bool.
Variables inpam outpam : Pam.pam.
Variables lc rc tr br : Z.

Let h := Pam.height inpam.

Hypothesis h_range : 0 <= h <= INT_MAX.

Lemma write_packed_rows_reads count bitrow cols (f : files tuple) :
  let f' := write_packed_rows PBM_BLACK black white count bitrow cols f in
  unread f' = unread f /\ consumed f' = consumed f.
Proof.
  cbn zeta. unfold write_packed_rows.
  apply (for_while_invariant
           (fun f' : files tuple =>
              unread f' = unread f /\ consumed f' = consumed f)).
  - intros col s [H1 H2]. now split.
  - now split.
Qed.

(** The loop of the packed path over the rows of the image, from row [row]
    on, reads them all, one after the other. *)
Lemma packed_row_loop_reads plan (m : memory tuple) rest rows :
  forall row (f : files tuple) bitrow,
    unread f = rows ++ rest ->
    0 <= row -> row + Z.of_nat (length rows) = h ->
    exists f' bitrow',
      for_whileM (length rows) (fun row => row <? h)
        (fun row '(f, bitrow) =>
           if (row >=? tr) && (row <=? br)
           then
             bind (pbm_readpbmrow_bitoffset PBM_BLACK is_black f bitrow
                     (Pam.width inpam) (readOffset plan))
               (fun '(f, bitrow) =>
                  let '(f, bitrow) :=
                    pbm_writepbmrow_bitoffset PBM_BLACK black white f bitrow
                      (Pam.width outpam) (writeOffset plan) in
                  Ok (f,
                      if rc >=? Pam.width inpam
                      then set_byte bitrow
                             (writeOffset plan / 8
                              + pbm_packed_bytes (Pam.width outpam) - 1)
                             (255 * PBM_BLACK)
                      else bitrow))
           else
             bind (pnm_readpamrow inpam None (f, m))
               (fun st => Ok (fst st, bitrow)))
        row (f, bitrow)
      = Ok (f', bitrow')
      /\ unread f' = rest /\ consumed f' = consumed f ++ rows.
Proof.
  induction rows as [|data rows IH]; intros row f bitrow Hun Hrow Hh.
  - exists f, bitrow. cbn. rewrite app_nil_r. auto.
  - cbn [length for_whileM]. cbn [length] in Hh.
    destruct (Z.ltb_spec row h); [|lia].
    rewrite sint_id by int_arith.
    destruct ((row >=? tr) && (row <=? br)).
    + unfold pbm_readpbmrow_bitoffset at 1. rewrite Hun. cbn [app bind].
      unfold pbm_writepbmrow_bitoffset at 1. cbn [bind].
      match goal with
      | |- context [for_whileM _ _ _ (row + 1) (?f1, ?b1)] =>
          destruct (IH (row + 1) f1 b1 eq_refl ltac:(lia) ltac:(lia))
            as (f' & bitrow' & E & Hu & Hc)
      end.
      exists f', bitrow'. rewrite E. cbn [consumed append_row] in Hc.
      rewrite Hc, <- app_assoc. auto.
    + unfold pnm_readpamrow at 1. rewrite Hun. cbn [app bind fst].
      match goal with
      | |- context [for_whileM _ _ _ (row + 1) (?f1, ?b1)] =>
          destruct (IH (row + 1) f1 b1 eq_refl ltac:(lia) ltac:(lia))
            as (f' & bitrow' & E & Hu & Hc)
      end.
      exists f', bitrow'. rewrite E. cbn [consumed] in Hc.
      rewrite Hc, <- app_assoc. auto.
Qed.

(** When the row plan is made, the packed path reads every row of the image;
    when it is not, it reads none. *)
Lemma extractRowsPBM_reads image rest (f : files tuple) (m : memory tuple) :
  Z.of_nat (length image) = h ->
  unread f = image ++ rest ->
  match planPackedRow inpam lc rc with
  | Ok _ =>
      exists st',
        extractRowsPBM PBM_BLACK heap black white is_black inpam outpam
          lc rc tr br (f, m) = Ok st'
        /\ unread (fst st') = rest /\ consumed (fst st') = consumed f ++ image
  | Err e =>
      extractRowsPBM PBM_BLACK heap black white is_black inpam outpam
        lc rc tr br (f, m) = Err e
  end.
Proof.
  intros Hlen Hun. unfold extractRowsPBM.
  destruct (planPackedRow inpam lc rc) as [plan|e]; [|reflexivity].
  cbn [bind].
  set (start := if (tr <? 0) || (lc <? 0) || (rc >=? Pam.width inpam)
                then _ else (f, _)).
  assert (Hs : unread (fst start) = unread f
               /\ consumed (fst start) = consumed f).
  { unfold start.
    destruct ((tr <? 0) || (lc <? 0) || (rc >=? Pam.width inpam));
      [|now split].
    destruct (tr <? 0); [|now split]. cbn [fst].
    apply write_packed_rows_reads. }
  destruct start as [f0 bitrow0]. cbn [fst] in Hs. destruct Hs as [Hu0 Hc0].
  fold h. replace (Z.to_nat h) with (length image) by lia.
  destruct (packed_row_loop_reads plan m rest image 0 f0 bitrow0
              ltac:(congruence) ltac:(lia) ltac:(lia))
    as (f' & bitrow' & E & Hu & Hc).
  rewrite E. cbn [bind].
  destruct (sint (br - sint (h - 1)) >? 0); eexists; (split; [reflexivity|]);
    cbn [fst].
  - destruct (write_packed_rows_reads (sint (br - sint (h - 1)))
                (makeBlackPBMRow PBM_BLACK bitrow' (Pam.width outpam))
                (Pam.width outpam) f') as [-> ->].
    rewrite Hu, Hc, Hc0. auto.
  - rewrite Hu, Hc, Hc0. auto.
Qed.

End PackedReads.

(** *** Where the packed path ends *)

Lemma for_whileE_result {St : Type} cond (body : Z -> St -> result St) :
  forall n col s,
    for_whileM n cond body col s
    = match for_whileE n cond body col s with
      | (s', None) => Ok s'
      | (_, Some e) => Err e
      end.
Proof.
  induction n as [|n IH]; intros col s; cbn [for_whileM for_whileE].
  - reflexivity.
  - destruct (cond col); [|reflexivity].
    destruct (body col s) as [s'|e]; cbn [bind]; [apply IH|reflexivity].
Qed.

(** [extractRowsPBM_exit] ends as [extractRowsPBM] does: with the same
    files when it returns, with the same error when it stops. *)
Lemma extractRowsPBM_exit_result {tuple : Type} PBM_BLACK heap
      (black white : tuple) is_black inpam outpam lc rc tr br
      (f : files tuple) (m : memory tuple) :
  extractRowsPBM PBM_BLACK heap black white is_black inpam outpam
    lc rc tr br (f, m)
  = match extractRowsPBM_exit PBM_BLACK heap black white is_black
            inpam outpam lc rc tr br (f, m) with
    | (f', None) => Ok (f', m)
    | (_, Some e) => Err e
    end.
Proof.
  unfold extractRowsPBM, extractRowsPBM_exit.
  destruct (planPackedRow inpam lc rc) as [plan|e]; cbn [bind];
    [|reflexivity].
  set (top := if (tr <? 0) || (lc <? 0) || (rc >=? Pam.width inpam)
              then _ else _).
  destruct top as [f0 bitrow0].
  rewrite for_whileE_result.
  match goal with
  | |- context [for_whileE ?n ?c ?b ?a ?s] =>
      destruct (for_whileE n c b a s) as [[f1 bitrow1] [e|]]
  end; cbn [bind]; [reflexivity|].
  destruct (sint (br - sint (Pam.height inpam - 1)) >? 0); reflexivity.
Qed.

(** Where the row plan fails, the packed path ends with the files as it
    found them. *)
Lemma extractRowsPBM_exit_no_plan {tuple : Type} PBM_BLACK heap
      (black white : tuple) is_black inpam outpam lc rc tr br e
      (f : files tuple) (m : memory tuple) :
  planPackedRow inpam lc rc = Err e ->
  extractRowsPBM_exit PBM_BLACK heap black white is_black
    inpam outpam lc rc tr br (f, m) = (f, Some e).
Proof. intros E. unfold extractRowsPBM_exit. now rewrite E. Qed.
(** C4, as the code has it.  For every image and every validated rectangle
    in range, the general path reads every row of the image exactly once, in
    order, whatever the row's index; so does the packed path whenever its row
    plan is made.  When the plan fails with the edge-too-far error, the
    packed path stops before it has read any row: where [pm_error] stops it,
    the files are as it found them, no row read and none written. *)
Theorem every_row_read_once {tuple : Type} PBM_BLACK heap
        (black white : tuple) is_black inpam outpam lc rc tr br
        image rest (f : files tuple) m :
  cut_in_range inpam outpam lc rc tr br ->
  image_of inpam image ->
  unread f = image ++ rest ->
  (exists st',
     extractRowsGen black inpam outpam lc rc tr br (f, m) = Ok st'
     /\ unread (fst st') = rest
     /\ consumed (fst st') = consumed f ++ image)
  /\ match planPackedRow inpam lc rc with
     | Ok _ =>
         exists st',
           extractRowsPBM PBM_BLACK heap black white is_black inpam outpam
             lc rc tr br (f, m) = Ok st'
           /\ unread (fst st') = rest
           /\ consumed (fst st') = consumed f ++ image
           /\ extractRowsPBM_exit PBM_BLACK heap black white is_black
                inpam outpam lc rc tr br (f, m) = (fst st', None)
     | Err e =>
         kind_of e = OverflowError
         /\ extractRowsPBM PBM_BLACK heap black white is_black inpam outpam
              lc rc tr br (f, m) = Err e
         /\ extractRowsPBM_exit PBM_BLACK heap black white is_black
              inpam outpam lc rc tr br (f, m) = (f, Some e)
     end.
Proof.
  intros (Hw & Hh & Ho & Hom & Hl & Hlr & Hr & Ht & Htb & Hb & Hbh)
         (Hall & Hlen) Hun.
  split.
  - destruct (extractRowsGen_rows black inpam outpam lc rc tr br
                Hw Ho Hom Hl Hlr Hr Hh ltac:(int_arith) ltac:(split; assumption)
                image rest f m Hall Hlen Hun) as (m' & E).
    eexists. split; [exact E|]. now split.
  - pose proof (extractRowsPBM_reads PBM_BLACK heap black white is_black
                  inpam outpam lc rc tr br Hh image rest f m Hlen Hun) as P.
    pose proof (extractRowsPBM_exit_result PBM_BLACK heap black white
                  is_black inpam outpam lc rc tr br f m) as X.
    destruct (planPackedRow inpam lc rc) as [plan|e] eqn:E.
    + destruct P as (st' & Est & Hu & Hc).
      exists st'. repeat (split; [assumption|]).
      rewrite Est in X.
      destruct (extractRowsPBM_exit _ _ _ _ _ _ _ _ _ _ _ _) as [f' [e|]];
        [discriminate|].
      injection X as ->. reflexivity.
    + split; [|split; [exact P|]].
      * unfold planPackedRow, fail_if in E.
        destruct (lc >? 0);
          match type of E with
          | context [if ?c then _ else _] => destruct c
          end; cbn in E; now inversion E.
      * now apply extractRowsPBM_exit_no_plan.
Qed.

Lemma every_row_read_once_witness :
  exists st',
    extractRowsPBM 1 (fun _ => 0) true false (fun b : bool => b)
      (Pam.mk 3 2 1 1 Pam.PBM_TYPE) (Pam.mk 2 1 1 1 Pam.PBM_TYPE) 1 2 1 1
      ({| unread := [[true; false; true]; [false; false; true]; [true]];
          consumed := []; written := [] |}, fun _ => false)
    = Ok st'
    /\ unread (fst st') = [[true]]
    /\ consumed (fst st') = [[true; false; true]; [false; false; true]].
Proof.
  destruct (every_row_read_once 1 (fun _ => 0) true false (fun b : bool => b)
              (Pam.mk 3 2 1 1 Pam.PBM_TYPE) (Pam.mk 2 1 1 1 Pam.PBM_TYPE)
              1 2 1 1
              [[true; false; true]; [false; false; true]] [[true]]
              {| unread := [[true; false; true]; [false; false; true];
                            [true]];
                 consumed := []; written := [] |}
              (fun _ => false)
              ltac:(unfold cut_in_range; cbn; repeat split; int_arith)
              ltac:(split; [repeat constructor|reflexivity])
              eq_refl) as [_ H].
  destruct H as (st' & E & Hu & Hc & _).
  exists st'. repeat split; assumption.
Defined.

(** C4 as stated fails on the packed path: for columns 1 .. 2147483637 of a
    10-column image, a validated rectangle in range, the row plan fails, and
    where the packed path stops the one row of the image is still unread:
    nothing was read and nothing written. *)
Lemma every_row_read_once_counterexample :
  cut_in_range (Pam.mk 10 1 1 1 Pam.PBM_TYPE)
    (Pam.mk 2147483637 1 1 1 Pam.PBM_TYPE) 1 2147483637 0 0
  /\ image_of (Pam.mk 10 1 1 1 Pam.PBM_TYPE) [replicate 10 true]
  /\ extractRowsPBM 1 (fun _ => 0) true false (fun b : bool => b)
       (Pam.mk 10 1 1 1 Pam.PBM_TYPE) (Pam.mk 2147483637 1 1 1 Pam.PBM_TYPE)
       1 2147483637 0 0
       ({| unread := [replicate 10 true]; consumed := []; written := [] |},
        fun _ => false)
     = Err RightEdgeTooFar
  /\ extractRowsPBM_exit 1 (fun _ => 0) true false (fun b : bool => b)
       (Pam.mk 10 1 1 1 Pam.PBM_TYPE) (Pam.mk 2147483637 1 1 1 Pam.PBM_TYPE)
       1 2147483637 0 0
       ({| unread := [replicate 10 true]; consumed := []; written := [] |},
        fun _ => false)
     = ({| unread := [replicate 10 true]; consumed := []; written := [] |},
        Some RightEdgeTooFar).
Proof.
  split; [unfold cut_in_range; cbn; repeat split; int_arith|].
  split; [split; [repeat constructor|reflexivity]|].
  split; reflexivity.
Qed.

(** ** Packed rows *)

Lemma pack8_testbit g i :
  0 <= i < 8 -> Z.testbit (pack8 g) (7 - i) = g i.
Proof.
  intros Hi. unfold pack8.
  assert (E : i = 0 \/ i = 1 \/ i = 2 \/ i = 3 \/ i = 4 \/ i = 5 \/ i = 6
              \/ i = 7) by lia.
  destruct E as [->|[->|[->|[->|[->|[->|[->| ->]]]]]]];
    generalize (g 0), (g 1), (g 2), (g 3), (g 4), (g 5), (g 6), (g 7);
    intros [] [] [] [] [] [] [] []; reflexivity.
Qed.

Lemma packed_length n f : length (packed n f) = n.
Proof. unfold packed. now rewrite length_map, length_seq. Qed.

Lemma bit_at_packed n f p :
  0 <= p < 8 * Z.of_nat n -> bit_at (packed n f) p = f p.
Proof.
  intros Hp. unfold bit_at, packed.
  rewrite list_lookup_fmap, lookup_seq_lt by (Z.div_mod_to_equations; lia).
  cbn. rewrite pack8_testbit by (Z.div_mod_to_equations; lia).
  f_equal. rewrite Z2Nat.id by (Z.div_mod_to_equations; lia).
  Z.div_mod_to_equations; lia.
Qed.

Lemma bit_at_set_byte bitrow i b p :
  0 <= p ->
  bit_at (set_byte bitrow i b) p
  = if (p / 8 =? i) && (i <? Z.of_nat (length bitrow))
    then Z.testbit b (7 - p mod 8) else bit_at bitrow p.
Proof.
  intros Hp. unfold bit_at, set_byte.
  assert (0 <= p / 8) by (Z.div_mod_to_equations; lia).
  destruct (Z.ltb_spec i 0).
  { destruct (Z.eqb_spec (p / 8) i); [lia|reflexivity]. }
  destruct (Z.eqb_spec (p / 8) i) as [<-|Hne]; cbn [andb].
  - destruct (Z.ltb_spec (p / 8) (Z.of_nat (length bitrow))).
    + rewrite list_lookup_insert_eq by lia. reflexivity.
    + rewrite list_insert_ge by lia. reflexivity.
  - rewrite list_lookup_insert_ne by lia. reflexivity.
Qed.

Lemma set_byte_length bitrow i b : length (set_byte bitrow i b) = length bitrow.
Proof. unfold set_byte. destruct (i <? 0); [reflexivity|apply length_insert]. Qed.

Lemma get_set_byte bitrow i b j :
  0 <= j ->
  get_byte (set_byte bitrow i b) j
  = if (i =? j) && (j <? Z.of_nat (length bitrow)) then b
    else get_byte bitrow j.
Proof.
  intros Hj. unfold get_byte, set_byte.
  destruct (Z.ltb_spec j 0); [lia|].
  destruct (Z.ltb_spec i 0).
  { destruct (Z.eqb_spec i j); [lia|reflexivity]. }
  destruct (Z.eqb_spec i j) as [->|Hne]; cbn [andb].
  - destruct (Z.ltb_spec j (Z.of_nat (length bitrow))).
    + rewrite list_lookup_insert_eq by lia. reflexivity.
    + rewrite list_insert_ge by lia. reflexivity.
  - rewrite list_lookup_insert_ne by lia. reflexivity.
Qed.

Lemma bit_at_get_byte bitrow p :
  0 <= p -> bit_at bitrow p = Z.testbit (get_byte bitrow (p / 8)) (7 - p mod 8).
Proof.
  intros Hp. unfold bit_at, get_byte.
  destruct (Z.ltb_spec (p / 8) 0); [Z.div_mod_to_equations; lia|reflexivity].
Qed.

(** Filling the first [n] bytes of a row with [b]. *)
Lemma fill_bytes b n :
  forall bitrow,
    let bitrow' :=
      fold_left (fun bitrow i => set_byte bitrow i b) (range 0 n) bitrow in
    length bitrow' = length bitrow
    /\ forall j, 0 <= j ->
         get_byte bitrow' j
         = if (j <? Z.of_nat n) && (j <? Z.of_nat (length bitrow))
           then b else get_byte bitrow j.
Proof.
  induction n as [|n IH]; intros bitrow; cbn zeta.
  - split; [reflexivity|]. intros j Hj. cbn. zbool; try reflexivity; lia.
  - rewrite range_snoc, fold_left_app. cbn [fold_left].
    destruct (IH bitrow) as [L G]. cbn zeta in L, G.
    set (b1 := fold_left _ (range 0 n) bitrow) in *.
    split; [now rewrite set_byte_length|].
    intros j Hj. rewrite get_set_byte, G, L by assumption.
    zbool; try reflexivity; lia.
Qed.

Section BlackBytes.

Variable PBM_BLACK : Z.
Hypothesis PBM_BLACK_bit : PBM_BLACK = 0 \/ PBM_BLACK = 1.

Lemma black_byte_bit k :
  0 <= k < 8 -> Z.testbit (PBM_BLACK * 255) k = Z.odd PBM_BLACK.
Proof.
  intros Hk.
  assert (E : k = 0 \/ k = 1 \/ k = 2 \/ k = 3 \/ k = 4 \/ k = 5 \/ k = 6
              \/ k = 7) by lia.
  destruct PBM_BLACK_bit as [-> | ->];
    repeat (destruct E as [->|E]; [reflexivity|]); subst; reflexivity.
Qed.

Lemma black_byte_shifted_bit r k :
  0 < r < 8 -> 8 - r <= k < 8 ->
  Z.testbit (Z.shiftl (PBM_BLACK * 255) (8 - r) mod 256) k = Z.odd PBM_BLACK.
Proof.
  intros Hr Hk.
  assert (Er : r = 1 \/ r = 2 \/ r = 3 \/ r = 4 \/ r = 5 \/ r = 6 \/ r = 7)
    by lia.
  assert (Ek : k = 0 \/ k = 1 \/ k = 2 \/ k = 3 \/ k = 4 \/ k = 5 \/ k = 6
               \/ k = 7) by lia.
  destruct PBM_BLACK_bit as [-> | ->];
    repeat (destruct Er as [->|Er]);
    try subst r;
    repeat (destruct Ek as [->|Ek]; [reflexivity || lia|]);
    subst; reflexivity || lia.
Qed.

(** The first [cols] bits of a row made black are black. *)
Lemma makeBlackPBMRow_bits bitrow cols :
  0 <= cols <= INT_MAX ->
  pbm_packed_bytes cols <= Z.of_nat (length bitrow) ->
  let bitrow' := makeBlackPBMRow PBM_BLACK bitrow cols in
  length bitrow' = length bitrow
  /\ forall p, 0 <= p < cols -> bit_at bitrow' p = Z.odd PBM_BLACK.
Proof.
  intros Hc Hlen. cbn zeta. unfold makeBlackPBMRow.
  assert (Hcnt : pbm_packed_bytes cols = (cols + 7) / 8)
    by (unfold pbm_packed_bytes; rewrite uint_id by int_arith; reflexivity).
  rewrite Hcnt in *.
  rewrite (for_while_fold _ _ (Z.to_nat ((cols + 7) / 8))
             (Z.to_nat ((cols + 7) / 8)));
    [ | lia | int_arith | int_arith
      | intros k Hk; zbool; try reflexivity; lia
      | lia ].
  destruct (fill_bytes (PBM_BLACK * 255) (Z.to_nat ((cols + 7) / 8)) bitrow)
    as [L G].
  cbn zeta in L, G.
  set (b1 := fold_left _ (range 0 _) bitrow) in *.
  assert (Hfill : forall p, 0 <= p < cols ->
                    get_byte b1 (p / 8) = PBM_BLACK * 255).
  { intros p Hp. rewrite G by (Z.div_mod_to_equations; lia).
    zbool; try reflexivity; Z.div_mod_to_equations; lia. }
  destruct (negb (PBM_BLACK =? 0) && (cols mod 8 >? 0)) eqn:C.
  - apply andb_true_iff in C. destruct C as [_ C]. apply Z.gtb_lt in C.
    split; [now rewrite set_byte_length|].
    intros p Hp. rewrite bit_at_set_byte, L by lia.
    destruct (Z.eqb_spec (p / 8) ((cols + 7) / 8 - 1)) as [E|E]; cbn [andb].
    + destruct (Z.ltb_spec ((cols + 7) / 8 - 1) (Z.of_nat (length bitrow)));
        [|lia].
      rewrite <- E, Hfill by assumption.
      apply black_byte_shifted_bit; Z.div_mod_to_equations; lia.
    + rewrite bit_at_get_byte, Hfill by lia.
      apply black_byte_bit. Z.div_mod_to_equations; lia.
  - split; [exact L|].
    intros p Hp. rewrite bit_at_get_byte, Hfill by lia.
    apply black_byte_bit. Z.div_mod_to_equations; lia.
Qed.

End BlackBytes.

(** ** The packed path *)

Lemma write_packed_rows_rows {tuple : Type} PBM_BLACK (black white : tuple)
      count bitrow cols (f : files tuple) :
  0 <= count <= INT_MAX ->
  write_packed_rows PBM_BLACK black white count bitrow cols f
  = {| unread := unread f; consumed := consumed f;
       written := written f
                  ++ replicate (Z.to_nat count)
                       (pixels_at PBM_BLACK black white bitrow cols 0) |}.
Proof.
  intros Hc. unfold write_packed_rows.
  rewrite (for_while_fold _ _ (Z.to_nat count) (Z.to_nat count));
    [ | lia | int_arith | int_arith
      | intros k Hk; zbool; try reflexivity; lia
      | lia ].
  rewrite <- (range_length 0 (Z.to_nat count)) at 2.
  generalize (range 0 (Z.to_nat count)) as l. intros l. revert f.
  induction l as [|c l IH]; intros f.
  - cbn. rewrite app_nil_r. now destruct f.
  - cbn [fold_left length replicate]. rewrite IH.
    unfold pbm_writepbmrow_packed, append_row. cbn [unread consumed written].
    f_equal. rewrite <- app_assoc. reflexivity.
Qed.

Section PackedPath.

Context {tuple : Type}.
Variable PBM_BLACK : Z.
Variable heap : nat -> Z.
Variables black white : tuple.
Variable is_black : tuple -> bool.

Hypothesis PBM_BLACK_bit : PBM_BLACK = 0 \/ PBM_BLACK = 1.
Hypothesis black_is_black : is_black black = true.
Hypothesis white_is_white : is_black white = false.

Lemma pixel_of_black_bit :
  pixel_of_bit PBM_BLACK black white (Z.odd PBM_BLACK) = black.
Proof. unfold pixel_of_bit. now rewrite eqb_reflx. Qed.

Lemma pixel_of_bit_of_pixel p :
  p = black \/ p = white ->
  pixel_of_bit PBM_BLACK black white (bit_of_pixel PBM_BLACK is_black p) = p.
Proof.
  unfold pixel_of_bit, bit_of_pixel.
  intros [-> | ->]; rewrite ?black_is_black, ?white_is_white;
    now destruct (Z.odd PBM_BLACK).
Qed.

(** A row whose first [cols] bits are black is written as a black row. *)
Lemma black_pixels_at bitrow cols :
  (forall p, 0 <= p < cols -> bit_at bitrow p = Z.odd PBM_BLACK) ->
  pixels_at PBM_BLACK black white bitrow cols 0 = black_row black cols.
Proof.
  intros Hb. unfold pixels_at, black_row.
  apply list_eq. intros k.
  destruct (Nat.lt_ge_cases k (Z.to_nat cols)) as [Hk|Hk].
  - rewrite list_lookup_fmap, lookup_seq_lt by assumption. cbn.
    rewrite lookup_replicate_2 by assumption.
    rewrite Hb by lia. now rewrite pixel_of_black_bit.
  - rewrite !lookup_ge_None_2; try reflexivity.
    + rewrite length_replicate. lia.
    + rewrite length_fmap, length_seq. lia.
Qed.

Variables inpam outpam : Pam.pam.
Variables lc rc tr br : Z.
Variable plan : packedRowPlan.

Let inw := Pam.width inpam.
Let outw := Pam.width outpam.
Let h := Pam.height inpam.
Let ro := readOffset plan.
Let wo := writeOffset plan.
Let tw := totalWidth plan.

Hypothesis in_range : cut_in_range inpam outpam lc rc tr br.
Hypothesis plan_made : planPackedRow inpam lc rc = Ok plan.

Lemma plan_facts :
  ((0 < lc /\ ro = 0 /\ wo = lc) \/ (lc <= 0 /\ ro = - lc /\ wo = 0))
  /\ wo + outw <= tw /\ ro + inw <= tw /\ tw <= INT_MAX - 10
  /\ (0 < lc -> rc + 8 <= tw)
  /\ 0 <= inw /\ 0 < outw /\ outw = rc - lc + 1.
Proof.
  destruct in_range as (Hw & Hh & Ho & Hom & Hl & Hlr & Hr & Ht & Htb & Hb & Hbh).
  pose proof (planPackedRow_eq inpam lc rc Hw Hl Hlr Hr) as Hplan.
  rewrite plan_made in Hplan.
  unfold inw, outw, ro, wo, tw.
  destruct (Z.gtb_spec (scratch_width lc rc (Pam.width inpam)) (INT_MAX - 10))
    as [Hgt|Hle]; [discriminate|].
  injection Hplan as ->. cbn [readOffset writeOffset totalWidth].
  unfold scratch_width in *.
  destruct (Z.gtb_spec lc 0); repeat split; try lia.
Qed.

Lemma packed_bytes_eq cols :
  0 <= cols <= INT_MAX -> pbm_packed_bytes cols = (cols + 7) / 8.
Proof.
  intros Hc. unfold pbm_packed_bytes. now rewrite uint_id by int_arith.
Qed.

(** Reading a row into the scratch row sets the bits
    [ro .. ro + inw - 1] and leaves the others. *)
Lemma read_bits bitrow data rest (f : files tuple) :
  unread f = data :: rest ->
  length data = Z.to_nat inw ->
  Z.of_nat (length bitrow) = (tw + 7) / 8 ->
  exists bitrow',
    pbm_readpbmrow_bitoffset PBM_BLACK is_black f bitrow inw ro
    = Ok ({| unread := rest; consumed := consumed f ++ [data];
             written := written f |}, bitrow')
    /\ length bitrow' = length bitrow
    /\ forall p, 0 <= p < tw ->
         bit_at bitrow' p
         = if (ro <=? p) && (p <? ro + inw)
           then bit_of_pixel PBM_BLACK is_black
                  (default black (pixel_at data (p - ro)))
           else bit_at bitrow p.
Proof.
  intros Hun Hd Hlen. unfold pbm_readpbmrow_bitoffset. rewrite Hun.
  eexists. split; [reflexivity|]. split; [apply packed_length|].
  intros p Hp.
  rewrite bit_at_packed by (Z.div_mod_to_equations; lia).
  destruct ((ro <=? p) && (p <? ro + inw)) eqn:C; [|reflexivity].
  apply andb_true_iff in C. destruct C as [C1 C2].
  apply Z.leb_le in C1. apply Z.ltb_lt in C2.
  unfold pixel_at. destruct (Z.ltb_spec (p - ro) 0); [lia|].
  destruct (data !! Z.to_nat (p - ro)) eqn:E; [reflexivity|].
  apply lookup_ge_None in E. lia.
Qed.

(** The row written from the scratch row just read is the cut row. *)
Lemma written_pixels bitrow bitrow' data :
  padded PBM_BLACK plan inw outw bitrow ->
  Forall (fun p => p = black \/ p = white) data ->
  length data = Z.to_nat inw ->
  (forall p, 0 <= p < tw ->
     bit_at bitrow' p
     = if (ro <=? p) && (p <? ro + inw)
       then bit_of_pixel PBM_BLACK is_black
              (default black (pixel_at data (p - ro)))
       else bit_at bitrow p) ->
  pixels_at PBM_BLACK black white bitrow' outw wo
  = cut_row black lc outw data.
Proof.
  intros [Hlen Hpad] Hpx Hd Hbits.
  destruct plan_facts as (Hcase & Hwo & Hro & Htw & Hslack & Hinw & Houtw & Heq).
  fold ro wo in Hpad.
  unfold pixels_at, cut_row.
  rewrite (map_range (fun j => default black (pixel_at data (lc + j)))).
  apply map_ext_in. intros j Hj. apply in_seq in Hj.
  rewrite Z.add_0_l.
  assert (Hq : 0 <= wo + Z.of_nat j < tw) by lia.
  rewrite Hbits by assumption.
  assert (Hlcj : wo + Z.of_nat j - ro = lc + Z.of_nat j) by lia.
  rewrite Hlcj.
  destruct ((ro <=? wo + Z.of_nat j) && (wo + Z.of_nat j <? ro + inw)) eqn:C.
  - apply andb_true_iff in C. destruct C as [C1 C2].
    apply Z.leb_le in C1. apply Z.ltb_lt in C2.
    unfold pixel_at. destruct (Z.ltb_spec (lc + Z.of_nat j) 0); [lia|].
    destruct (data !! Z.to_nat (lc + Z.of_nat j)) as [px|] eqn:E.
    + cbn. apply pixel_of_bit_of_pixel.
      rewrite Forall_forall in Hpx. apply Hpx.
      eapply list_elem_of_lookup_2, E.
    + apply lookup_ge_None in E. lia.
  - rewrite Hpad; [ | lia | ].
    + rewrite pixel_of_black_bit. unfold pixel_at.
      destruct (Z.ltb_spec (lc + Z.of_nat j) 0); [reflexivity|].
      rewrite lookup_ge_None_2; [reflexivity|].
      apply andb_false_iff in C.
      destruct C as [C|C]; [apply Z.leb_gt in C | apply Z.ltb_ge in C]; lia.
    + apply andb_false_iff in C.
      destruct C as [C|C]; [apply Z.leb_gt in C | apply Z.ltb_ge in C]; lia.
Qed.

(** Writing the row moves bits of the scratch row and clears the end of
    the last byte written; with the source's repair of that byte, the bits
    that are written but not read are black again. *)
Lemma padded_after_write bitrow bitrow' (f0 : files tuple) :
  padded PBM_BLACK plan inw outw bitrow ->
  length bitrow' = length bitrow ->
  (forall p, 0 <= p < tw -> ~ (ro <= p < ro + inw) ->
     bit_at bitrow' p = bit_at bitrow p) ->
  padded PBM_BLACK plan inw outw
    (if rc >=? inw
     then set_byte
            (snd (pbm_writepbmrow_bitoffset PBM_BLACK black white f0 bitrow'
                    outw wo))
            (wo / 8 + pbm_packed_bytes outw - 1) (255 * PBM_BLACK)
     else snd (pbm_writepbmrow_bitoffset PBM_BLACK black white f0 bitrow'
                 outw wo)).
Proof.
  intros [Hlen Hpad] Hlen' Hbits.
  destruct plan_facts as (Hcase & Hwo & Hro & Htw & Hslack & Hinw & Houtw & Heq).
  fold ro wo tw in Hpad, Hlen.
  unfold pbm_writepbmrow_bitoffset. cbn [snd].
  rewrite packed_bytes_eq by int_arith.
  set (bw := packed (length bitrow') _).
  assert (Hbwlen : length bw = length bitrow) by (unfold bw; now rewrite packed_length).
  assert (Hwo0 : 0 <= wo) by lia.
  assert (Hbw : forall p, wo <= p < wo + outw -> ~ (ro <= p < ro + inw) ->
                  (p / 8 <> wo / 8 + (outw + 7) / 8 - 1 \/ rc < inw) ->
                  bit_at bw p = Z.odd PBM_BLACK).
  { intros p Hp1 Hp2 Hk. unfold bw.
    rewrite bit_at_packed by (Z.div_mod_to_equations; lia).
    destruct ((8 * (wo / 8) <=? p) && (p <? 8 * (wo / 8) + 8 * ((outw + 7) / 8)))
      eqn:C.
    - apply andb_true_iff in C. destruct C as [C1 C2].
      apply Z.leb_le in C1. apply Z.ltb_lt in C2.
      destruct (Z.ltb_spec (p - 8 * (wo / 8)) outw) as [Hj|Hj]; cbn [andb].
      + rewrite Hbits, Hpad; try reflexivity;
          Z.div_mod_to_equations; lia.
      + exfalso. Z.div_mod_to_equations; lia.
    - rewrite Hbits, Hpad; try reflexivity; try assumption. lia. }
  destruct (Z.geb_spec rc inw) as [Hrc|Hrc].
  - split; [now rewrite set_byte_length, Hbwlen|].
    fold ro wo. intros p Hp1 Hp2.
    rewrite bit_at_set_byte by lia.
    destruct ((p / 8 =? wo / 8 + (outw + 7) / 8 - 1)
              && (wo / 8 + (outw + 7) / 8 - 1 <? Z.of_nat (length bw))) eqn:C.
    + rewrite Z.mul_comm. apply (black_byte_bit PBM_BLACK PBM_BLACK_bit).
      Z.div_mod_to_equations; lia.
    + apply Hbw; try assumption. left.
      apply andb_false_iff in C. destruct C as [C|C].
      * now apply Z.eqb_neq in C.
      * apply Z.ltb_ge in C. rewrite Hbwlen in C.
        Z.div_mod_to_equations; lia.
  - split; [now rewrite Hbwlen|].
    fold ro wo. intros p Hp1 Hp2. apply Hbw; try assumption. right. lia.
Qed.

Lemma pbm_writepbmrow_bitoffset_pair (f0 : files tuple) bitrow cols offset :
  pbm_writepbmrow_bitoffset PBM_BLACK black white f0 bitrow cols offset
  = (append_row f0 (pixels_at PBM_BLACK black white bitrow cols offset),
     snd (pbm_writepbmrow_bitoffset PBM_BLACK black white f0 bitrow cols
            offset)).
Proof. reflexivity. Qed.

(** The loop of the packed path over the rows of the image, from row [row]
    on. *)
Lemma packed_row_loop (m : memory tuple) rest rows :
  forall row (f : files tuple) bitrow,
    Forall (fun data => length data = Z.to_nat inw) rows ->
    pbm_image black white rows ->
    unread f = rows ++ rest ->
    0 <= row -> row + Z.of_nat (length rows) = h ->
    padded PBM_BLACK plan inw outw bitrow ->
    exists bitrow',
      for_whileM (length rows) (fun row => row <? h)
        (fun row '(f, bitrow) =>
           if (row >=? tr) && (row <=? br)
           then
             bind (pbm_readpbmrow_bitoffset PBM_BLACK is_black f bitrow inw ro)
               (fun '(f, bitrow) =>
                  let '(f, bitrow) :=
                    pbm_writepbmrow_bitoffset PBM_BLACK black white f bitrow
                      outw wo in
                  Ok (f,
                      if rc >=? inw
                      then set_byte bitrow
                             (wo / 8 + pbm_packed_bytes outw - 1)
                             (255 * PBM_BLACK)
                      else bitrow))
           else
             bind (pnm_readpamrow inpam None (f, m))
               (fun st => Ok (fst st, bitrow)))
        row (f, bitrow)
      = Ok ({| unread := rest;
               consumed := consumed f ++ rows;
               written := written f
                          ++ map (cut_row black lc outw)
                               (rows_between tr br row rows) |}, bitrow')
      /\ padded PBM_BLACK plan inw outw bitrow'.
Proof.
  destruct in_range as (Hw & Hh & _).
  induction rows as [|data rows IH]; intros row f bitrow Hall Hpbm Hun Hrow Hlen Hpad.
  - exists bitrow. cbn. rewrite !app_nil_r. destruct f; cbn in *.
    rewrite Hun. now split.
  - assert (Hd := Forall_inv Hall). assert (Hall' := Forall_inv_tail Hall).
    assert (Hpx := Forall_inv Hpbm). assert (Hpbm' := Forall_inv_tail Hpbm).
    cbn beta in Hd, Hpx.
    cbn [length for_whileM rows_between]. cbn [length] in Hlen.
    destruct (Z.ltb_spec row h); [|unfold h in *; lia].
    rewrite sint_id by (unfold h in *; int_arith).
    destruct ((row >=? tr) && (row <=? br)).
    + destruct (read_bits bitrow data (rows ++ rest) f Hun Hd (proj1 Hpad))
        as (bitrow1 & E & L & Hbits).
      rewrite E. cbn [bind].
      rewrite pbm_writepbmrow_bitoffset_pair.
      rewrite (written_pixels bitrow bitrow1 data Hpad Hpx Hd Hbits).
      cbn [bind].
      assert (Hpad' := padded_after_write bitrow bitrow1
                {| unread := rows ++ rest; consumed := consumed f ++ [data];
                   written := written f |} Hpad L
                ltac:(intros p Hp Hn; rewrite Hbits by assumption;
                      destruct (Z.leb_spec ro p), (Z.ltb_spec p (ro + inw));
                      cbn [andb]; try reflexivity; lia)).
      match goal with
      | |- context [for_whileM _ _ _ (row + 1) (?f1, ?b1)] =>
          destruct (IH (row + 1) f1 b1 Hall' Hpbm' eq_refl ltac:(lia)
                      ltac:(lia) Hpad')
            as (bitrow' & E' & Hpad'')
      end.
      exists bitrow'. rewrite E'. split; [|exact Hpad''].
      cbn [unread consumed written append_row map].
      now rewrite <- !app_assoc.
    + unfold pnm_readpamrow at 1. rewrite Hun. cbn [app bind fst].
      match goal with
      | |- context [for_whileM _ _ _ (row + 1) (?f1, ?b1)] =>
          destruct (IH (row + 1) f1 b1 Hall' Hpbm' eq_refl ltac:(lia)
                      ltac:(lia) Hpad)
            as (bitrow' & E' & Hpad'')
      end.
      exists bitrow'. rewrite E'. split; [|exact Hpad''].
      cbn [unread consumed written].
      now rewrite <- !app_assoc.
Qed.

(** What the packed path does with an image when its row plan is made:
    the same as the general path. *)
Lemma extractRowsPBM_rows image rest (f : files tuple) (m : memory tuple) :
  image_of inpam image ->
  pbm_image black white image ->
  unread f = image ++ rest ->
  extractRowsPBM PBM_BLACK heap black white is_black inpam outpam
    lc rc tr br (f, m)
  = Ok ({| unread := rest;
           consumed := consumed f ++ image;
           written := written f ++ spec_cut black lc rc tr br image |}, m).
Proof.
  intros [Hall Hlen] Hpbm Hun.
  destruct plan_facts as (Hcase & Hwo & Hro & Htw & Hslack & Hinw & Houtw & Heq).
  destruct in_range as (Hw & Hh & Ho & Hom & Hl & Hlr & Hr & Ht & Htb & Hb & Hbh).
  fold inw outw h in Hw, Hh, Ho, Hom, Hbh, Hlen, Hall.
  unfold extractRowsPBM. rewrite plan_made. cbn [bind].
  fold inw outw h ro wo tw.
  rewrite (sint_id (0 - tr)), (sint_id (h - 1)), (sint_id (br - (h - 1)))
    by int_arith.
  assert (Htw0 : 0 <= tw <= INT_MAX) by int_arith.
  assert (Halloc : Z.of_nat (length (pbm_allocrow_packed heap tw))
                   = (tw + 7) / 8).
  { unfold pbm_allocrow_packed.
    rewrite length_map, length_seq, packed_bytes_eq by assumption.
    Z.div_mod_to_equations; lia. }
  set (start := if (tr <? 0) || (lc <? 0) || (rc >=? inw) then _ else (f, _)).
  assert (Hstart :
            fst start
            = {| unread := unread f; consumed := consumed f;
                 written := written f
                            ++ replicate (Z.to_nat (Z.max 0 (- tr)))
                                 (black_row black outw) |}
            /\ padded PBM_BLACK plan inw outw (snd start)).
  { unfold start.
    destruct ((tr <? 0) || (lc <? 0) || (rc >=? inw)) eqn:C.
    - destruct (makeBlackPBMRow_bits PBM_BLACK PBM_BLACK_bit
                  (pbm_allocrow_packed heap tw) tw Htw0
                  ltac:(rewrite packed_bytes_eq by assumption; lia))
        as [L B].
      cbn zeta in L, B. cbn [fst snd]. split.
      + destruct (Z.ltb_spec tr 0).
        * rewrite write_packed_rows_rows by int_arith.
          rewrite black_pixels_at by (intros; apply B; lia).
          do 3 f_equal. lia.
        * replace (Z.to_nat (Z.max 0 (- tr))) with 0%nat by lia.
          cbn [replicate]. rewrite app_nil_r. now destruct f.
      + split; [fold tw; lia|]. fold ro wo. intros p Hp1 Hp2.
        apply B. lia.
    - apply orb_false_iff in C. destruct C as [C C3].
      apply orb_false_iff in C. destruct C as [C1 C2].
      apply Z.ltb_ge in C1, C2. rewrite Z.geb_leb in C3. apply Z.leb_gt in C3.
      cbn [fst snd]. split.
      + replace (Z.to_nat (Z.max 0 (- tr))) with 0%nat by lia.
        cbn [replicate]. rewrite app_nil_r. now destruct f.
      + split; [fold tw; lia|]. fold ro wo. intros p Hp1 Hp2. exfalso. lia. }
  destruct start as [f0 b0]. cbn [fst snd] in Hstart.
  destruct Hstart as [-> Hpad].
  replace (Z.to_nat h) with (length image) by lia.
  destruct (packed_row_loop m rest image 0
              {| unread := unread f; consumed := consumed f;
                 written := written f
                            ++ replicate (Z.to_nat (Z.max 0 (- tr)))
                                 (black_row black outw) |}
              b0 Hall Hpbm Hun ltac:(lia) ltac:(lia) Hpad)
    as (bitrow' & E & Hpad').
  rewrite E. cbn [bind unread consumed written].
  unfold spec_cut. rewrite (rows_between_clip tr br h) by lia.
  rewrite Hlen, <- Heq.
  destruct (Z.gtb_spec (br - (h - 1)) 0).
  - destruct (makeBlackPBMRow_bits PBM_BLACK PBM_BLACK_bit bitrow' outw
                ltac:(lia)
                ltac:(rewrite packed_bytes_eq, (proj1 Hpad') by lia;
                      fold tw; Z.div_mod_to_equations; lia))
      as [L B].
    cbn zeta in L, B.
    rewrite write_packed_rows_rows by int_arith.
    rewrite black_pixels_at by assumption.
    cbn [unread consumed written]. rewrite <- !app_assoc.
    replace (Z.max 0 (br - (h - 1))) with (br - (h - 1)) by lia.
    reflexivity.
  - replace (Z.to_nat (Z.max 0 (br - (h - 1)))) with 0%nat by lia.
    cbn [replicate]. rewrite app_nil_r, <- !app_assoc. reflexivity.
Qed.

End PackedPath.

(** C6, as the code has it.  For every PBM image and every validated
    rectangle in range for which the packed path makes its row plan, the
    packed path and the general path read the same rows and write the same
    rows of pixels: the black rows above, the cut rows, the black rows
    below. *)
Theorem packed_path_matches_general {tuple : Type} PBM_BLACK heap
        (black white : tuple) is_black inpam outpam lc rc tr br plan
        image rest (f : files tuple) m :
  PBM_BLACK = 0 \/ PBM_BLACK = 1 ->
  is_black black = true -> is_black white = false ->
  cut_in_range inpam outpam lc rc tr br ->
  planPackedRow inpam lc rc = Ok plan ->
  image_of inpam image ->
  pbm_image black white image ->
  unread f = image ++ rest ->
  exists f' m',
    extractRowsGen black inpam outpam lc rc tr br (f, m) = Ok (f', m')
    /\ extractRowsPBM PBM_BLACK heap black white is_black inpam outpam
         lc rc tr br (f, m) = Ok (f', m)
    /\ written f' = written f ++ spec_cut black lc rc tr br image.
Proof.
  intros Hbit Hblack Hwhite Hrange Hplan Himage Hpbm Hun.
  pose proof (extractRowsPBM_rows PBM_BLACK heap black white is_black
                Hbit Hblack Hwhite inpam outpam lc rc tr br plan Hrange Hplan
                image rest f m Himage Hpbm Hun) as Hp.
  destruct Hrange as (Hw & Hh & Ho & Hom & Hl & Hlr & Hr & Ht & Htb & Hb & Hbh).
  destruct Himage as [Hall Hlen].
  destruct (extractRowsGen_rows black inpam outpam lc rc tr br
              Hw Ho Hom Hl Hlr Hr Hh ltac:(int_arith) ltac:(split; assumption)
              image rest f m Hall Hlen Hun) as (m' & Hg).
  eexists _, m'. split; [exact Hg|]. split; [exact Hp|reflexivity].
Qed.

Lemma packed_path_matches_general_witness :
  exists f' m',
    extractRowsGen true (Pam.mk 10 2 1 1 Pam.PBM_TYPE)
      (Pam.mk 21 4 1 1 Pam.PBM_TYPE) 6 26 (-1) 2
      ({| unread :=
            [[true; false; true; true; false; false; true; false; true; true];
             [false; false; true; false; true; true; true; false; false; true]];
          consumed := []; written := [] |}, fun _ => false)
    = Ok (f', m')
    /\ extractRowsPBM 1 (fun _ => 170) true false (fun b : bool => b)
         (Pam.mk 10 2 1 1 Pam.PBM_TYPE) (Pam.mk 21 4 1 1 Pam.PBM_TYPE)
         6 26 (-1) 2
         ({| unread :=
               [[true; false; true; true; false; false; true; false; true;
                 true];
                [false; false; true; false; true; true; true; false; false;
                 true]];
             consumed := []; written := [] |}, fun _ => false)
       = Ok (f', fun _ => false).
Proof.
  destruct (packed_path_matches_general 1 (fun _ => 170) true false
              (fun b : bool => b)
              (Pam.mk 10 2 1 1 Pam.PBM_TYPE) (Pam.mk 21 4 1 1 Pam.PBM_TYPE)
              6 26 (-1) 2
              {| readOffset := 0; writeOffset := 6; totalWidth := 34 |}
              [[true; false; true; true; false; false; true; false; true;
                true];
               [false; false; true; false; true; true; true; false; false;
                true]]
              []
              {| unread :=
                   [[true; false; true; true; false; false; true; false; true;
                     true];
                    [false; false; true; false; true; true; true; false;
                     false; true]];
                 consumed := []; written := [] |}
              (fun _ => false)
              ltac:(right; reflexivity) eq_refl eq_refl
              ltac:(unfold cut_in_range; cbn; repeat split; int_arith)
              eq_refl
              ltac:(split; [repeat constructor|reflexivity])
              ltac:(unfold pbm_image;
                    repeat first [apply List.Forall_nil | apply List.Forall_cons];
                    (now left) || (now right))
              eq_refl)
    as (f' & m' & Hg & Hp & _).
  exists f', m'. split; assumption.
Defined.

(** C6 as stated fails where the row plan does: for columns 1 .. 2147483637
    of a 10-column image, a validated rectangle in range, the packed path
    stops with the edge-too-far error and writes nothing, and the general path
    writes its row. *)
Lemma packed_path_counterexample :
  cut_in_range (Pam.mk 10 1 1 1 Pam.PBM_TYPE)
    (Pam.mk 2147483637 1 1 1 Pam.PBM_TYPE) 1 2147483637 0 0
  /\ extractRowsPBM 1 (fun _ => 0) true false (fun b : bool => b)
       (Pam.mk 10 1 1 1 Pam.PBM_TYPE) (Pam.mk 2147483637 1 1 1 Pam.PBM_TYPE)
       1 2147483637 0 0
       ({| unread := [[true; true; true; true; true; true; true; true; true;
                       true]];
           consumed := []; written := [] |},
        fun _ => false)
     = Err RightEdgeTooFar
  /\ exists st,
       extractRowsGen true
         (Pam.mk 10 1 1 1 Pam.PBM_TYPE) (Pam.mk 2147483637 1 1 1 Pam.PBM_TYPE)
         1 2147483637 0 0
         ({| unread := [[true; true; true; true; true; true; true; true; true;
                         true]];
             consumed := []; written := [] |},
          fun _ => false)
       = Ok st.
Proof.
  split; [unfold cut_in_range; cbn [Pam.width Pam.height]; repeat split; int_arith|].
  split; [reflexivity|].
  destruct (extractRowsGen_rows true
              (Pam.mk 10 1 1 1 Pam.PBM_TYPE)
              (Pam.mk 2147483637 1 1 1 Pam.PBM_TYPE) 1 2147483637 0 0
              ltac:(cbn [Pam.width]; int_arith)
              ltac:(cbn [Pam.width]; lia)
              ltac:(cbn [Pam.width]; int_arith)
              ltac:(int_arith) ltac:(lia) ltac:(int_arith)
              ltac:(cbn [Pam.height]; int_arith)
              ltac:(int_arith)
              ltac:(cbn [Pam.height]; split; int_arith)
              [[true; true; true; true; true; true; true; true; true; true]]
              []
              {| unread := [[true; true; true; true; true; true; true; true;
                             true; true]];
                 consumed := []; written := [] |}
              (fun _ => false)
              ltac:(repeat constructor) eq_refl eq_refl) as (m' & E).
  eexists. exact E.
Qed.

(** The whole of a PBM image of at most [INT_MAX - 10] columns: the packed
    path too writes the header and the rows of the input unchanged. *)
Lemma cut_full_pbm_image {tuple : Type} PBM_BLACK heap (black white : tuple)
      is_black inpam cmdline v image rest (f : files tuple) m :
  PBM_BLACK = 0 \/ PBM_BLACK = 1 ->
  is_black black = true -> is_black white = false ->
  Pam.format inpam = Pam.PBM_TYPE ->
  0 < Pam.width inpam <= INT_MAX - 10 -> 0 < Pam.height inpam <= INT_MAX ->
  image_of inpam image ->
  pbm_image black white image ->
  unread f = image ++ rest ->
  full_image_request inpam cmdline ->
  cutOneImage PBM_BLACK heap black white is_black inpam cmdline v (f, m)
  = Ok (inpam,
        ({| unread := rest;
            consumed := consumed f ++ image;
            written := written f ++ image |}, m)).
Proof.
  intros Hbit Hblack Hwhite Hfmt Hw Hh Himage Hpbm Hun Hreq.
  assert (Hw' : 0 < Pam.width inpam <= INT_MAX) by int_arith.
  unfold cutOneImage.
  rewrite full_image_bounds by assumption.
  cbn [bind leftcol rightcol toprow bottomrow].
  rewrite rejectOutOfBounds_accepts;
    [ | int_arith | int_arith
      | right; unfold out_of_bounds; int_arith | unfold inverted; lia ].
  cbn [bind].
  replace (sint (sint (Pam.width inpam - 1 - 0) + 1)) with (Pam.width inpam)
    by int_arith.
  replace (sint (sint (Pam.height inpam - 1 - 0) + 1))
    with (Pam.height inpam) by int_arith.
  assert (Eo : Pam.mk (Pam.width inpam) (Pam.height inpam) (Pam.depth inpam)
                 (Pam.maxval inpam) (Pam.format inpam) = inpam)
    by now destruct inpam.
  rewrite Eo, Hfmt.
  pose proof (planPackedRow_eq inpam 0 (Pam.width inpam - 1)
                ltac:(int_arith) ltac:(int_arith) ltac:(lia) ltac:(int_arith))
    as Hplan.
  destruct (Z.gtb_spec (scratch_width 0 (Pam.width inpam - 1) (Pam.width inpam))
              (INT_MAX - 10)) as [Hgt|_];
    [unfold scratch_width in Hgt; cbn in Hgt; int_arith|].
  rewrite (extractRowsPBM_rows PBM_BLACK heap black white is_black
             Hbit Hblack Hwhite inpam inpam 0 (Pam.width inpam - 1)
             0 (Pam.height inpam - 1) _
             ltac:(unfold cut_in_range; repeat split; int_arith)
             Hplan image rest f m Himage Hpbm Hun).
  cbn [bind]. destruct Himage as [Hall Hlen].
  now rewrite spec_cut_whole.
Qed.

(** The bytes handed to [pbm_writepbmrow_packed] for a black row of 5 pixels
    (columns 1 .. 5 of a 10-column image, scratch row of 17 bits): above the
    image the byte has its three unused bits set, below the image it has them
    clear.  The theorems above are about the pixels of the rows. *)
Example padding_bytes_above_and_below :
  let above := makeBlackPBMRow 1 (pbm_allocrow_packed (fun _ => 0) 17) 17 in
  let below := makeBlackPBMRow 1 above 5 in
  firstn 1 above = [255] /\ firstn 1 below = [248].
Proof. split; reflexivity. Qed.

(** ** Cutting the whole image, whatever its format *)

(** The whole of a PBM image of more than [INT_MAX - 10] columns: the
    packed path refuses it, and stops with the files as it found them. *)
Lemma cut_full_pbm_too_wide {tuple : Type} PBM_BLACK heap (black white : tuple)
      is_black inpam cmdline v (f : files tuple) m :
  Pam.format inpam = Pam.PBM_TYPE ->
  INT_MAX - 10 < Pam.width inpam -> Pam.width inpam <= INT_MAX ->
  0 < Pam.height inpam <= INT_MAX ->
  full_image_request inpam cmdline ->
  cutOneImage PBM_BLACK heap black white is_black inpam cmdline v (f, m)
  = Err LeftRightEdgeTooFar
  /\ extractRowsPBM_exit PBM_BLACK heap black white is_black inpam inpam
       0 (Pam.width inpam - 1) 0 (Pam.height inpam - 1) (f, m)
     = (f, Some LeftRightEdgeTooFar).
Proof.
  intros Hfmt Hwide Hmax Hh Hreq.
  assert (Hw : 0 < Pam.width inpam <= INT_MAX) by int_arith.
  assert (Hplan : planPackedRow inpam 0 (Pam.width inpam - 1)
                  = Err LeftRightEdgeTooFar).
  { rewrite planPackedRow_eq; [ | int_arith | int_arith | lia | int_arith].
    unfold scratch_width. change (0 >? 0) with false. cbn match.
    destruct (Z.gtb_spec (Z.abs 0 + Z.max (Pam.width inpam - 1 + 1)
                                      (Pam.width inpam)) (INT_MAX - 10));
      [reflexivity | exfalso; lia]. }
  split; [|now apply extractRowsPBM_exit_no_plan].
  unfold cutOneImage.
  rewrite (full_image_bounds inpam cmdline v Hw Hh Hreq).
  cbn [bind leftcol rightcol toprow bottomrow].
  rewrite rejectOutOfBounds_accepts;
    [ | int_arith | int_arith
      | right; unfold out_of_bounds; int_arith | unfold inverted; lia ].
  cbn [bind].
  replace (sint (sint (Pam.width inpam - 1 - 0) + 1)) with (Pam.width inpam)
    by int_arith.
  replace (sint (sint (Pam.height inpam - 1 - 0) + 1))
    with (Pam.height inpam) by int_arith.
  assert (Eo : Pam.mk (Pam.width inpam) (Pam.height inpam) (Pam.depth inpam)
                 (Pam.maxval inpam) (Pam.format inpam) = inpam)
    by now destruct inpam.
  rewrite Eo, Hfmt. unfold extractRowsPBM. rewrite Hplan. reflexivity.
Qed.

(** C8, as the code has it.  Cutting with the full-image rectangle, given
    as the four edges of the image or by leaving all six arguments
    unspecified: the resolver returns the rectangle of the whole image.  For
    every image that is not PBM, [cutOneImage] then writes the header and the
    rows of the input unchanged down the general path, which reads every row
    and writes it as it is, with no padding row, its row plan mapping every
    output column to the input column of the same index, with no black-fill
    cell and no discarded column.  For every PBM image of at most
    [INT_MAX - 10] columns, [cutOneImage] writes the header and the rows of
    the input unchanged down the packed path.  A PBM image of more columns
    is refused with the edge-too-far error, nothing read and nothing
    written. *)
Theorem cut_full_image {tuple : Type} PBM_BLACK heap (black white : tuple)
        is_black inpam cmdline v image rest (f : files tuple) m :
  0 < Pam.width inpam <= INT_MAX -> 0 < Pam.height inpam <= INT_MAX ->
  image_of inpam image ->
  unread f = image ++ rest ->
  full_image_request inpam cmdline ->
  let whole := {| unread := rest;
                  consumed := consumed f ++ image;
                  written := written f ++ image |} in
  computeCutBounds (Pam.width inpam) (Pam.height inpam)
    (Cmdline.left cmdline) (Cmdline.right cmdline)
    (Cmdline.top cmdline) (Cmdline.bottom cmdline)
    (Cmdline.width cmdline) (Cmdline.height cmdline) v
  = Ok {| leftcol := 0; rightcol := Pam.width inpam - 1;
          toprow := 0; bottomrow := Pam.height inpam - 1 |}
  /\ (Pam.format inpam <> Pam.PBM_TYPE ->
      exists m',
        cutOneImage PBM_BLACK heap black white is_black inpam cmdline v (f, m)
        = Ok (inpam, (whole, m')))
  /\ (Pam.format inpam = Pam.PBM_TYPE ->
      Pam.width inpam <= INT_MAX - 10 ->
      PBM_BLACK = 0 \/ PBM_BLACK = 1 ->
      is_black black = true -> is_black white = false ->
      pbm_image black white image ->
      cutOneImage PBM_BLACK heap black white is_black inpam cmdline v (f, m)
      = Ok (inpam, (whole, m))
      /\ extractRowsPBM_exit PBM_BLACK heap black white is_black inpam inpam
           0 (Pam.width inpam - 1) 0 (Pam.height inpam - 1) (f, m)
         = (whole, None))
  /\ (Pam.format inpam = Pam.PBM_TYPE ->
      INT_MAX - 10 < Pam.width inpam ->
      cutOneImage PBM_BLACK heap black white is_black inpam cmdline v (f, m)
      = Err LeftRightEdgeTooFar
      /\ extractRowsPBM_exit PBM_BLACK heap black white is_black inpam inpam
           0 (Pam.width inpam - 1) 0 (Pam.height inpam - 1) (f, m)
         = (f, Some LeftRightEdgeTooFar))
  /\ (exists m',
        extractRowsGen black inpam inpam 0 (Pam.width inpam - 1)
          0 (Pam.height inpam - 1) (f, m) = Ok (whole, m'))
  /\ (let rowCutterP :=
        fst (createRowCutter black inpam inpam 0 (Pam.width inpam - 1) m) in
      outputPointers rowCutterP
      = map CopyTuple (range 0 (Z.to_nat (Pam.width inpam)))
      /\ inputPointers rowCutterP
         = map CopyTuple (range 0 (Z.to_nat (Pam.width inpam)))
      /\ ~ In BlackTuple (outputPointers rowCutterP)).
Proof.
  intros Hw Hh Himage Hun Hreq whole.
  split; [exact (full_image_bounds inpam cmdline v Hw Hh Hreq)|].
  split.
  { intros Hfmt.
    exact (cut_full_gen_image PBM_BLACK heap black white is_black
             inpam cmdline v image rest f m Hfmt Hw Hh Himage Hun Hreq). }
  split.
  { intros Hfmt Hnarrow Hbit Hblack Hwhite Hpbm.
    assert (Hw' : 0 < Pam.width inpam <= INT_MAX - 10)
      by (split; [apply Hw | exact Hnarrow]).
    pose proof (cut_full_pbm_image PBM_BLACK heap black white is_black
                  inpam cmdline v image rest f m
                  Hbit Hblack Hwhite Hfmt Hw' Hh Himage Hpbm Hun Hreq) as E.
    split; [exact E|].
    pose proof (extractRowsPBM_exit_result PBM_BLACK heap black white
                  is_black inpam inpam 0 (Pam.width inpam - 1)
                  0 (Pam.height inpam - 1) f m) as X.
    unfold cutOneImage in E.
    rewrite (full_image_bounds inpam cmdline v Hw Hh Hreq) in E.
    cbn [bind leftcol rightcol toprow bottomrow] in E.
    rewrite rejectOutOfBounds_accepts in E;
      [ | int_arith | int_arith
        | right; unfold out_of_bounds; int_arith | unfold inverted; lia ].
    cbn [bind] in E.
    replace (sint (sint (Pam.width inpam - 1 - 0) + 1))
      with (Pam.width inpam) in E by int_arith.
    replace (sint (sint (Pam.height inpam - 1 - 0) + 1))
      with (Pam.height inpam) in E by int_arith.
    assert (Eo : Pam.mk (Pam.width inpam) (Pam.height inpam)
                   (Pam.depth inpam) (Pam.maxval inpam) (Pam.format inpam)
                 = inpam) by now destruct inpam.
    rewrite Eo, Hfmt in E.
    destruct (extractRowsPBM _ _ _ _ _ _ _ _ _ _ _ _) as [st'|e] eqn:Est;
      cbn [bind] in E; [|discriminate].
    injection E as E. subst st'.
    destruct (extractRowsPBM_exit _ _ _ _ _ _ _ _ _ _ _ _) as [f' [e|]];
      [discriminate|].
    injection X as <-. reflexivity. }
  split.
  { intros Hfmt Hwide.
    exact (cut_full_pbm_too_wide PBM_BLACK heap black white is_black
             inpam cmdline v f m Hfmt Hwide (proj2 Hw) Hh Hreq). }
  destruct Himage as [Hall Hlen].
  split.
  { destruct (extractRowsGen_rows black inpam inpam 0 (Pam.width inpam - 1)
                0 (Pam.height inpam - 1)
                ltac:(int_arith) ltac:(lia) ltac:(int_arith) ltac:(int_arith)
                ltac:(lia) ltac:(int_arith) ltac:(int_arith) ltac:(int_arith)
                ltac:(split; int_arith)
                image rest f m Hall Hlen Hun) as (m' & E).
    rewrite (spec_cut_whole black _ _ image Hall Hlen) in E.
    now exists m'. }
  cbn zeta. rewrite createRowCutter_plan by int_arith.
  cbn [fst outputPointers inputPointers].
  assert (Eout : map (output_slot 0 (Pam.width inpam))
                   (range 0 (Z.to_nat (Pam.width inpam)))
                 = map CopyTuple (range 0 (Z.to_nat (Pam.width inpam)))).
  { rewrite !map_range. apply map_ext_in. intros k Hk. apply in_seq in Hk.
    unfold output_slot. zbool; try lia. reflexivity. }
  assert (Ein : map (input_slot 0 (Pam.width inpam - 1))
                  (range 0 (Z.to_nat (Pam.width inpam)))
                = map CopyTuple (range 0 (Z.to_nat (Pam.width inpam)))).
  { rewrite !map_range. apply map_ext_in. intros k Hk. apply in_seq in Hk.
    unfold input_slot. zbool; try lia. f_equal. lia. }
  rewrite Eout, Ein. repeat split.
  intros Hin. apply in_map_iff in Hin. destruct Hin as (? & ? & _).
  discriminate.
Qed.

Lemma cut_full_image_witness :
  (exists m',
     cutOneImage 1 (fun _ => 0) 0 1 (Z.eqb 0)
       (Pam.mk 2 2 1 255 Pam.PGM_TYPE)
       (Cmdline.mk "-" UNSPEC UNSPEC UNSPEC UNSPEC UNSPEC UNSPEC false false)
       {| leftcol := 0; rightcol := 0; toprow := 0; bottomrow := 0 |}
       ({| unread := [[10; 20]; [30; 40]]; consumed := []; written := [] |},
        fun _ => 0)
     = Ok (Pam.mk 2 2 1 255 Pam.PGM_TYPE,
           ({| unread := []; consumed := [[10; 20]; [30; 40]];
               written := [[10; 20]; [30; 40]] |}, m')))
  /\ cutOneImage 1 (fun _ => 170) true false (fun b : bool => b)
       (Pam.mk 3 2 1 1 Pam.PBM_TYPE)
       (Cmdline.mk "-" 0 2 0 1 UNSPEC UNSPEC false false)
       {| leftcol := 0; rightcol := 0; toprow := 0; bottomrow := 0 |}
       ({| unread := [[true; false; true]; [false; false; true]];
           consumed := []; written := [] |}, fun _ => false)
     = Ok (Pam.mk 3 2 1 1 Pam.PBM_TYPE,
           ({| unread := [];
               consumed := [[true; false; true]; [false; false; true]];
               written := [[true; false; true]; [false; false; true]] |},
            fun _ => false)).
Proof.
  split.
  - destruct (cut_full_image 1 (fun _ => 0) 0 1 (Z.eqb 0)
                (Pam.mk 2 2 1 255 Pam.PGM_TYPE)
                (Cmdline.mk "-" UNSPEC UNSPEC UNSPEC UNSPEC UNSPEC UNSPEC
                   false false)
                {| leftcol := 0; rightcol := 0; toprow := 0; bottomrow := 0 |}
                [[10; 20]; [30; 40]] []
                {| unread := [[10; 20]; [30; 40]]; consumed := [];
                   written := [] |}
                (fun _ => 0)
                ltac:(cbn; int_arith) ltac:(cbn; int_arith)
                ltac:(split; [repeat constructor|reflexivity]) eq_refl
                ltac:(unfold full_image_request; cbn; tauto))
      as (_ & H & _).
    apply H. discriminate.
  - destruct (cut_full_image 1 (fun _ => 170) true false (fun b : bool => b)
                (Pam.mk 3 2 1 1 Pam.PBM_TYPE)
                (Cmdline.mk "-" 0 2 0 1 UNSPEC UNSPEC false false)
                {| leftcol := 0; rightcol := 0; toprow := 0; bottomrow := 0 |}
                [[true; false; true]; [false; false; true]] []
                {| unread := [[true; false; true]; [false; false; true]];
                   consumed := []; written := [] |}
                (fun _ => false)
                ltac:(cbn; int_arith) ltac:(cbn; int_arith)
                ltac:(split; [repeat constructor|reflexivity]) eq_refl
                ltac:(unfold full_image_request; cbn; tauto))
      as (_ & _ & H & _).
    apply H;
      [ reflexivity | cbn; int_arith | right; reflexivity
      | reflexivity | reflexivity
      | unfold pbm_image;
        repeat first [apply List.Forall_nil | apply List.Forall_cons];
        (now left) || (now right) ].
Defined.

(** C8 as stated fails for a PBM image of more than [INT_MAX - 10] columns:
    asked for the whole of an image of one row of 2147483640 black pixels,
    [cutOneImage] stops with the edge-too-far error of the packed path, and
    where it stops the row is still unread and nothing is written. *)
Lemma cut_full_image_counterexample :
  image_of (Pam.mk 2147483640 1 1 1 Pam.PBM_TYPE)
    [replicate (Z.to_nat 2147483640) true]
  /\ pbm_image true false [replicate (Z.to_nat 2147483640) true]
  /\ full_image_request (Pam.mk 2147483640 1 1 1 Pam.PBM_TYPE)
       (Cmdline.mk "-" UNSPEC UNSPEC UNSPEC UNSPEC UNSPEC UNSPEC false false)
  /\ cutOneImage 1 (fun _ => 0) true false (fun b : bool => b)
       (Pam.mk 2147483640 1 1 1 Pam.PBM_TYPE)
       (Cmdline.mk "-" UNSPEC UNSPEC UNSPEC UNSPEC UNSPEC UNSPEC false false)
       {| leftcol := 0; rightcol := 0; toprow := 0; bottomrow := 0 |}
       ({| unread := [replicate (Z.to_nat 2147483640) true];
           consumed := []; written := [] |}, fun _ => false)
     = Err LeftRightEdgeTooFar
  /\ extractRowsPBM_exit 1 (fun _ => 0) true false (fun b : bool => b)
       (Pam.mk 2147483640 1 1 1 Pam.PBM_TYPE)
       (Pam.mk 2147483640 1 1 1 Pam.PBM_TYPE) 0 2147483639 0 0
       ({| unread := [replicate (Z.to_nat 2147483640) true];
           consumed := []; written := [] |}, fun _ => false)
     = ({| unread := [replicate (Z.to_nat 2147483640) true];
           consumed := []; written := [] |}, Some LeftRightEdgeTooFar).
Proof.
  assert (Hreq : full_image_request (Pam.mk 2147483640 1 1 1 Pam.PBM_TYPE)
                   (Cmdline.mk "-" UNSPEC UNSPEC UNSPEC UNSPEC UNSPEC UNSPEC
                      false false))
    by (unfold full_image_request; cbn [Cmdline.width Cmdline.height
          Cmdline.left Cmdline.right Cmdline.top Cmdline.bottom]; tauto).
  split.
  { split.
    - apply List.Forall_cons; [|apply List.Forall_nil].
      apply length_replicate.
    - reflexivity. }
  split.
  { apply List.Forall_cons; [|apply List.Forall_nil].
    apply Forall_replicate. now left. }
  split; [exact Hreq|].
  exact (cut_full_pbm_too_wide 1 (fun _ => 0) true false (fun b : bool => b)
           (Pam.mk 2147483640 1 1 1 Pam.PBM_TYPE)
           (Cmdline.mk "-" UNSPEC UNSPEC UNSPEC UNSPEC UNSPEC UNSPEC
              false false)
           {| leftcol := 0; rightcol := 0; toprow := 0; bottomrow := 0 |}
           {| unread := [replicate (Z.to_nat 2147483640) true];
              consumed := []; written := [] |}
           (fun _ => false)
           eq_refl ltac:(cbn [Pam.width]; int_arith)
           ltac:(cbn [Pam.width]; int_arith)
           ltac:(cbn [Pam.height]; int_arith) Hreq).
Qed.

(** ** More on the command line *)

Section CommandLineChecks.

Variable sscanf_d : string -> option Z.

Lemma length_cases {A : Type} (l : list A) :
  l = [] \/ (exists a, l = [a]) \/ (exists a b, l = [a; b])
  \/ (exists a b c, l = [a; b; c]) \/ (exists a b c d, l = [a; b; c; d])
  \/ (exists a b c d e, l = [a; b; c; d; e])
  \/ (6 <= length l)%nat.
Proof.
  destruct l as [|a [|b [|c [|d [|e [|g l]]]]]]; cbn; eauto 12.
  do 6 right. lia.
Qed.

(** X1.  [parseCommandLine] returns a command line exactly when [-width] and
    [-height] are not negative and there are 0 or 1 arguments, or 4 or 5 of
    which the first four scan as numbers. The file name, the only argument or
    the fifth, is not looked at. *)
Theorem parseCommandLine_succeeds_iff opts args :
  (exists cmd, parseCommandLine sscanf_d opts args = Ok cmd)
  <-> 0 <= stored UNSPEC (opt_width opts)
      /\ 0 <= stored UNSPEC (opt_height opts)
      /\ ((length args <= 1)%nat
          \/ ((length args = 4 \/ length args = 5)%nat
              /\ forall i, (i < 4)%nat -> sscanf_d (arg args i) <> None)).
Proof.
  unfold parseCommandLine, fail_if, scan, arg.
  destruct (Z.ltb_spec (stored UNSPEC (opt_width opts)) 0) as [Hw|Hw];
    [split; [intros [? ?]; discriminate | lia]|].
  destruct (Z.ltb_spec (stored UNSPEC (opt_height opts)) 0) as [Hh|Hh];
    [split; [intros [? ?]; discriminate | lia]|].
  cbn [bind].
  destruct (length_cases args)
    as [-> | [(a & ->) | [(a & b & ->) | [(a & b & c & ->)
        | [(a & b & c & d & ->) | [(a & b & c & d & e & ->) | Hlen]]]]]];
    cbn [length Z.of_nat Pos.of_succ_nat Pos.succ Z.eqb Pos.eqb negb andb
         bind pm_error nth].
  - split; [intros _; split; [lia | split; [lia | left; cbn; lia]] | eauto].
  - split; [intros _; split; [lia | split; [lia | left; cbn; lia]] | eauto].
  - split; [intros [? ?]; discriminate|].
    intros (_ & _ & [H | [[H | H] _]]); cbn in H; lia.
  - split; [intros [? ?]; discriminate|].
    intros (_ & _ & [H | [[H | H] _]]); cbn in H; lia.
  - split.
    + intros [cmd E]. split; [lia|]. split; [lia|]. right. split; [now left|].
      intros i Hi.
      destruct (sscanf_d a) eqn:Ea; [|discriminate].
      destruct (sscanf_d b) eqn:Eb; [|discriminate].
      destruct (sscanf_d c) eqn:Ec; [|discriminate].
      destruct (sscanf_d d) eqn:Ed; [|discriminate].
      destruct i as [|[|[|[|i]]]]; cbn; try congruence; lia.
    + intros (_ & _ & [H | [_ H]]); [cbn in H; lia|].
      pose proof (H 0%nat ltac:(lia)) as H0.
      pose proof (H 1%nat ltac:(lia)) as H1.
      pose proof (H 2%nat ltac:(lia)) as H2.
      pose proof (H 3%nat ltac:(lia)) as H3.
      cbn in H0, H1, H2, H3.
      destruct (sscanf_d a); [|congruence].
      destruct (sscanf_d b); [|congruence].
      destruct (sscanf_d c); [|congruence].
      destruct (sscanf_d d); [|congruence].
      cbn. rewrite !legacy_width_arg_cases. eauto.
  - split.
    + intros [cmd E]. split; [lia|]. split; [lia|]. right. split; [now right|].
      intros i Hi.
      destruct (sscanf_d a) eqn:Ea; [|discriminate].
      destruct (sscanf_d b) eqn:Eb; [|discriminate].
      destruct (sscanf_d c) eqn:Ec; [|discriminate].
      destruct (sscanf_d d) eqn:Ed; [|discriminate].
      destruct i as [|[|[|[|i]]]]; cbn; try congruence; lia.
    + intros (_ & _ & [H | [_ H]]); [cbn in H; lia|].
      pose proof (H 0%nat ltac:(lia)) as H0.
      pose proof (H 1%nat ltac:(lia)) as H1.
      pose proof (H 2%nat ltac:(lia)) as H2.
      pose proof (H 3%nat ltac:(lia)) as H3.
      cbn in H0, H1, H2, H3.
      destruct (sscanf_d a); [|congruence].
      destruct (sscanf_d b); [|congruence].
      destruct (sscanf_d c); [|congruence].
      destruct (sscanf_d d); [|congruence].
      cbn. rewrite !legacy_width_arg_cases. eauto.
  - assert (E : negb (Z.of_nat (length args) =? 0)
                && negb (Z.of_nat (length args) =? 1)
                && negb (Z.of_nat (length args) =? 4)
                && negb (Z.of_nat (length args) =? 5) = true).
    { zbool; lia || reflexivity. }
    rewrite E. cbn [bind pm_error]. split; [intros [? ?]; discriminate|].
    intros (_ & _ & [H | [[H | H] _]]); lia.
Qed.


Lemma parseCommandLine_cases opts args cmd :
  parseCommandLine sscanf_d opts args = Ok cmd ->
  0 <= stored UNSPEC (opt_width opts)
  /\ 0 <= stored UNSPEC (opt_height opts)
  /\ ((exists name,
         (args = [] /\ name = "-"%string \/ args = [name])
         /\ cmd = Cmdline.mk name
                    (stored UNSPEC (opt_left opts))
                    (stored UNSPEC (opt_right opts))
                    (stored UNSPEC (opt_top opts))
                    (stored UNSPEC (opt_bottom opts))
                    (stored UNSPEC (opt_width opts))
                    (stored UNSPEC (opt_height opts))
                    (opt_pad opts) (opt_verbose opts))
      \/ (exists a1 a2 a3 a4 rest l t w h,
            args = a1 :: a2 :: a3 :: a4 :: rest /\ (length rest <= 1)%nat
            /\ sscanf_d a1 = Some l /\ sscanf_d a2 = Some t
            /\ sscanf_d a3 = Some w /\ sscanf_d a4 = Some h
            /\ cmd = Cmdline.mk (nth 0 rest "-"%string) l
                       (if w >? 0 then UNSPEC else sint (w - 1)) t
                       (if h >? 0 then UNSPEC else sint (h - 1))
                       (if w >? 0 then w else UNSPEC)
                       (if h >? 0 then h else UNSPEC)
                       (opt_pad opts) (opt_verbose opts))).
Proof.
  unfold parseCommandLine, fail_if, scan, arg.
  destruct (Z.ltb_spec (stored UNSPEC (opt_width opts)) 0) as [Hw|Hw];
    [discriminate|].
  destruct (Z.ltb_spec (stored UNSPEC (opt_height opts)) 0) as [Hh|Hh];
    [discriminate|].
  cbn [bind].
  destruct (length_cases args)
    as [-> | [(a & ->) | [(a & b & ->) | [(a & b & c & ->)
        | [(a & b & c & d & ->) | [(a & b & c & d & e & ->) | Hlen]]]]]];
    cbn [length Z.of_nat Pos.of_succ_nat Pos.succ Z.eqb Pos.eqb negb andb
         bind pm_error nth]; try discriminate.
  - intros [= <-]. split; [lia|]. split; [lia|]. left. eexists. eauto.
  - intros [= <-]. split; [lia|]. split; [lia|]. left. eexists. eauto.
  - destruct (sscanf_d a) as [l|] eqn:Ea; [|discriminate].
    destruct (sscanf_d b) as [t|] eqn:Eb; [|discriminate].
    destruct (sscanf_d c) as [w|] eqn:Ec; [|discriminate].
    destruct (sscanf_d d) as [h|] eqn:Ed; [|discriminate].
    cbn. rewrite !legacy_width_arg_cases. intros [= <-].
    split; [lia|]. split; [lia|]. right.
    exists a, b, c, d, [], l, t, w, h. cbn. repeat split; auto.
  - destruct (sscanf_d a) as [l|] eqn:Ea; [|discriminate].
    destruct (sscanf_d b) as [t|] eqn:Eb; [|discriminate].
    destruct (sscanf_d c) as [w|] eqn:Ec; [|discriminate].
    destruct (sscanf_d d) as [h|] eqn:Ed; [|discriminate].
    cbn. rewrite !legacy_width_arg_cases. intros [= <-].
    split; [lia|]. split; [lia|]. right.
    exists a, b, c, d, [e], l, t, w, h. cbn. repeat split; auto.
  - assert (E : negb (Z.of_nat (length args) =? 0)
                && negb (Z.of_nat (length args) =? 1)
                && negb (Z.of_nat (length args) =? 4)
                && negb (Z.of_nat (length args) =? 5) = true).
    { zbool; lia || reflexivity. }
    rewrite E. discriminate.
Qed.

(** X2.  What [parseCommandLine] returns keeps what the comment of [struct
    CmdlineInfo] says of it, [width] and [height] are not negative, and in the
    syntax with 4 or 5 arguments [width] is positive and not both of [right]
    and [width] are specified, nor both of [bottom] and [height]. *)
Theorem parseCommandLine_invariants opts args cmd :
  parseCommandLine sscanf_d opts args = Ok cmd ->
  0 <= Cmdline.width cmd /\ 0 <= Cmdline.height cmd
  /\ ((4 <= length args)%nat ->
      0 < Cmdline.width cmd /\ 0 < Cmdline.height cmd
      /\ ~ (specified (Cmdline.right cmd) /\ specified (Cmdline.width cmd))
      /\ ~ (specified (Cmdline.bottom cmd)
            /\ specified (Cmdline.height cmd))).
Proof.
  intros E. apply parseCommandLine_cases in E.
  destruct E as (Hw & Hh & [(name & Ha & ->)
                           | (a1 & a2 & a3 & a4 & rest & l & t & w & h
                              & -> & Hr & _ & _ & _ & _ & ->)]);
    cbn [Cmdline.width Cmdline.height Cmdline.right Cmdline.bottom].
  - split; [lia|]. split; [lia|].
    destruct Ha as [[-> _] | ->]; cbn; lia.
  - unfold specified.
    destruct (Z.gtb_spec w 0), (Z.gtb_spec h 0); unfold UNSPEC, INT_MAX;
      repeat split; try lia; intros _; tauto.
Qed.

(** X3.  In the syntax with 4 or 5 arguments the numbers among the arguments
    replace all six of [-left], [-right], [-top], [-bottom], [-width] and
    [-height]: whatever these options are, as long as [-width] and [-height]
    are not negative, the command line parsed is the same. *)
Theorem parseCommandLine_arguments_override opts opts' args :
  (4 <= length args)%nat ->
  0 <= stored UNSPEC (opt_width opts) ->
  0 <= stored UNSPEC (opt_height opts) ->
  0 <= stored UNSPEC (opt_width opts') ->
  0 <= stored UNSPEC (opt_height opts') ->
  opt_pad opts = opt_pad opts' -> opt_verbose opts = opt_verbose opts' ->
  parseCommandLine sscanf_d opts args = parseCommandLine sscanf_d opts' args.
Proof.
  intros Hn Hw Hh Hw' Hh' Hp Hv.
  unfold parseCommandLine, fail_if.
  destruct (Z.ltb_spec (stored UNSPEC (opt_width opts)) 0); [lia|].
  destruct (Z.ltb_spec (stored UNSPEC (opt_height opts)) 0); [lia|].
  destruct (Z.ltb_spec (stored UNSPEC (opt_width opts')) 0); [lia|].
  destruct (Z.ltb_spec (stored UNSPEC (opt_height opts')) 0); [lia|].
  cbn [bind]. rewrite Hp, Hv.
  destruct args as [|a [|b [|c [|d [|e [|g args]]]]]]; cbn in Hn; try lia;
    reflexivity.
Qed.

(** X4.  The syntax with 4 or 5 arguments never gives the resolver an
    overspecified axis: [computeCutBounds] returns a rectangle for every
    command line parsed from it, whatever options come with it. *)
Theorem legacy_syntax_is_never_overspecified opts args cmd cols rows v :
  (4 <= length args)%nat ->
  parseCommandLine sscanf_d opts args = Ok cmd ->
  is_int (Cmdline.left cmd) -> is_int (Cmdline.top cmd) ->
  is_int (Cmdline.width cmd) -> is_int (Cmdline.height cmd) ->
  0 <= cols <= INT_MAX -> 0 <= rows <= INT_MAX ->
  exists q,
    computeCutBounds cols rows
      (Cmdline.left cmd) (Cmdline.right cmd)
      (Cmdline.top cmd) (Cmdline.bottom cmd)
      (Cmdline.width cmd) (Cmdline.height cmd) v = Ok q.
Proof.
  intros Hn E Il It Iw Ih Hc Hr. apply parseCommandLine_cases in E.
  destruct E as (Hw & Hh & [(name & Ha & ->)
                           | (a1 & a2 & a3 & a4 & rest & l & t & w & h
                              & -> & _ & _ & _ & _ & _ & ->)]).
  { destruct Ha as [[-> _] | ->]; cbn in Hn; lia. }
  cbn [Cmdline.left Cmdline.right Cmdline.top Cmdline.bottom
       Cmdline.width Cmdline.height] in *.
  rewrite computeCutBounds_spec;
    try assumption;
    try (destruct (w >? 0); (apply sint_is_int || int_arith));
    try (destruct (h >? 0); (apply sint_is_int || int_arith)).
  unfold is_spec.
  destruct (Z.gtb_spec w 0), (Z.gtb_spec h 0);
    rewrite ?Z.eqb_refl, ?andb_false_r; cbn [negb andb];
    rewrite ?andb_false_r;
    destruct (spec_resolve _ _ _ _ _ _ _ _); eauto.
Qed.

End CommandLineChecks.

Lemma parseCommandLine_invariants_witness :
  0 <= Cmdline.width (Cmdline.mk "-" 0 (-6) 0 (-6) UNSPEC UNSPEC false false)
  /\ 0 <= Cmdline.height
            (Cmdline.mk "-" 0 (-6) 0 (-6) UNSPEC UNSPEC false false).
Proof.
  destruct (parseCommandLine_invariants scan_decimal no_options
              ["0"; "0"; "-5"; "-5"]%string
              (Cmdline.mk "-" 0 (-6) 0 (-6) UNSPEC UNSPEC false false)
              eq_refl) as (H1 & H2 & _).
  split; assumption.
Defined.

Lemma parseCommandLine_arguments_override_witness :
  parseCommandLine scan_decimal
    {| opt_left := Some 3; opt_right := Some 5; opt_top := None;
       opt_bottom := None; opt_width := Some 2; opt_height := None;
       opt_pad := false; opt_verbose := false |}
    ["1"; "1"; "4"; "4"]%string
  = parseCommandLine scan_decimal no_options ["1"; "1"; "4"; "4"]%string.
Proof.
  apply (parseCommandLine_arguments_override scan_decimal);
    cbn; unfold UNSPEC, INT_MAX; (lia || reflexivity).
Defined.

Lemma legacy_syntax_is_never_overspecified_witness :
  exists q,
    computeCutBounds 10 10 1 UNSPEC 1 UNSPEC 4 4
      {| leftcol := 0; rightcol := 0; toprow := 0; bottomrow := 0 |} = Ok q.
Proof.
  apply (legacy_syntax_is_never_overspecified scan_decimal
           {| opt_left := Some 3; opt_right := Some 5; opt_top := None;
              opt_bottom := None; opt_width := Some 2; opt_height := None;
              opt_pad := false; opt_verbose := false |}
           ["1"; "1"; "4"; "4"]%string
           (Cmdline.mk "-" 1 UNSPEC 1 UNSPEC 4 4 false false) 10 10
           {| leftcol := 0; rightcol := 0; toprow := 0; bottomrow := 0 |});
    cbn; try reflexivity; int_arith.
Defined.

(** ** More on the resolver and the validator *)




(** X6.  [computeCutBounds] treats the two axes alike: with columns and rows
    exchanged in the arguments, it returns the rectangle with columns and rows
    exchanged. *)
Theorem computeCutBounds_transpose cols rows l r t b w h v q :
  computeCutBounds cols rows l r t b w h v = Ok q
  <-> computeCutBounds rows cols t b l r h w (transpose v) = Ok (transpose q).
Proof.
  unfold computeCutBounds, is_spec, is_unspec.
  generalize (from_far_edge cols l), (from_far_edge cols r),
    (from_far_edge rows t), (from_far_edge rows b).
  intros lc rc tr br. cbv zeta.
  destruct (lc =? UNSPEC), (rc =? UNSPEC), (w =? UNSPEC);
    cbn [negb andb when fail_if bind pm_error];
    try (split; discriminate);
    destruct (tr =? UNSPEC), (br =? UNSPEC), (h =? UNSPEC);
    cbn [negb andb when fail_if bind pm_error];
    try (split; discriminate);
    unfold set_rows, set_cols, transpose;
    destruct q as [ql qr qt qb], v as [vl vr vt vb];
    cbn [leftcol rightcol toprow bottomrow];
    split; intros [= <- <- <- <-]; reflexivity.
Qed.

(** ** More on the row cutter and the general path *)

(** X7.  What [createRowCutter] leaves in the two arrays of pointers, as the
    comment of [struct rowCutter] has it: every element of both arrays is set;
    the pointer of an input column inside the rectangle is the pointer of the
    output column it goes to, and both point to a tuple of [copyTuples] that
    no other column uses; the pointer of every other input column is the
    discard tuple, and the pointer of every output column that is not in the
    image is the black tuple. *)
Theorem createRowCutter_pointers {tuple : Type} (black : tuple)
        inpam outpam lc rc (m : memory tuple) :
  0 <= Pam.width inpam <= INT_MAX ->
  Pam.width outpam = rc - lc + 1 -> Pam.width outpam <= INT_MAX ->
  is_int lc -> lc <= rc -> rc < INT_MAX ->
  let rowCutterP := fst (createRowCutter black inpam outpam lc rc m) in
  length (inputPointers rowCutterP) = Z.to_nat (Pam.width inpam)
  /\ length (outputPointers rowCutterP) = Z.to_nat (Pam.width outpam)
  /\ (forall col, 0 <= col < Pam.width inpam ->
        get_ptr (inputPointers rowCutterP) col
        = if (lc <=? col) && (col <=? rc)
          then get_ptr (outputPointers rowCutterP) (col - lc)
          else DiscardTuple)
  /\ (forall outcol, 0 <= outcol < Pam.width outpam ->
        get_ptr (outputPointers rowCutterP) outcol
        = if (0 <=? lc + outcol) && (lc + outcol <? Pam.width inpam)
          then CopyTuple outcol
          else BlackTuple)
  /\ ~ In Wild (inputPointers rowCutterP)
  /\ ~ In Wild (outputPointers rowCutterP).
Proof.
  intros Hw Ho Hom Hl Hlr Hr rowCutterP. subst rowCutterP.
  rewrite createRowCutter_plan by assumption.
  cbn [fst inputPointers outputPointers].
  split; [now rewrite length_map, range_length|].
  split; [now rewrite length_map, range_length|].
  split.
  { intros col Hcol. rewrite get_ptr_map_range by lia.
    unfold input_slot.
    destruct (Z.leb_spec lc col), (Z.leb_spec col rc); cbn [andb];
      try reflexivity.
    rewrite get_ptr_map_range by lia. unfold output_slot.
    replace (lc + (col - lc)) with col by lia.
    destruct (Z.leb_spec 0 col), (Z.ltb_spec col (Pam.width inpam));
      cbn [andb]; (reflexivity || lia). }
  split.
  { intros j Hj. now rewrite get_ptr_map_range by lia. }
  split; intros Hin; apply in_map_iff in Hin; destruct Hin as (x & Hx & _).
  - unfold input_slot in Hx. destruct (_ && _); discriminate.
  - unfold output_slot in Hx. destruct (_ && _); discriminate.
Qed.

Lemma createRowCutter_pointers_witness :
  let rowCutterP :=
    fst (createRowCutter 0 (Pam.mk 3 1 1 255 Pam.PGM_TYPE)
           (Pam.mk 4 1 1 255 Pam.PGM_TYPE) (-1) 2 (fun _ => 7)) in
  inputPointers rowCutterP = [CopyTuple 1; CopyTuple 2; CopyTuple 3]
  /\ outputPointers rowCutterP
     = [BlackTuple; CopyTuple 1; CopyTuple 2; CopyTuple 3]
  /\ ~ In Wild (outputPointers rowCutterP).
Proof.
  destruct (createRowCutter_pointers 0 (Pam.mk 3 1 1 255 Pam.PGM_TYPE)
              (Pam.mk 4 1 1 255 Pam.PGM_TYPE) (-1) 2 (fun _ => 7)
              ltac:(cbn; int_arith) ltac:(cbn; lia) ltac:(cbn; int_arith)
              ltac:(int_arith) ltac:(lia) ltac:(int_arith))
    as (_ & _ & _ & _ & _ & H).
  split; [reflexivity|]. split; [reflexivity|]. exact H.
Defined.

(** X8.  [writeBlackRows] writes [rows] rows, each of them the black tuple
    [outpam->width] times, and reads nothing. *)
Theorem writeBlackRows_writes {tuple : Type} (black : tuple) outpam rows
        (f : files tuple) (m : memory tuple) :
  0 < Pam.width outpam <= INT_MAX -> 0 <= rows <= INT_MAX ->
  let f' := fst (writeBlackRows black outpam rows (f, m)) in
  written f'
  = written f
    ++ replicate (Z.to_nat rows)
         (replicate (Z.to_nat (Pam.width outpam)) black)
  /\ unread f' = unread f /\ consumed f' = consumed f.
Proof.
  intros Hw Hn f'. subst f'.
  rewrite (writeBlackRows_rows black outpam outpam 0 (Pam.width outpam - 1))
    by lia.
  cbn [fst written unread consumed]. repeat split.
Qed.

Lemma writeBlackRows_writes_witness :
  written (fst (writeBlackRows 0 (Pam.mk 3 2 1 255 Pam.PGM_TYPE) 2
                  ({| unread := [[1; 2]]; consumed := []; written := [] |},
                   fun _ => 9)))
  = [[0; 0; 0]; [0; 0; 0]].
Proof.
  destruct (writeBlackRows_writes 0 (Pam.mk 3 2 1 255 Pam.PGM_TYPE) 2
              {| unread := [[1; 2]]; consumed := []; written := [] |}
              (fun _ => 9)
              ltac:(cbn; int_arith) ltac:(int_arith)) as (H & _).
  exact H.
Defined.

(** *** The pixels of a cut *)

Lemma range_lookup c0 n k :
  (k < n)%nat -> range c0 n !! k = Some (c0 + Z.of_nat k).
Proof.
  intros Hk. unfold range.
  now rewrite list_lookup_fmap, lookup_seq_lt by assumption.
Qed.

Lemma cut_row_length {tuple : Type} (black : tuple) lc outw
      (data : list tuple) :
  length (cut_row black lc outw data) = Z.to_nat outw.
Proof. unfold cut_row. now rewrite length_map, range_length. Qed.

Lemma cut_row_lookup {tuple : Type} (black : tuple) lc outw
      (data : list tuple) j :
  0 <= j < outw ->
  cut_row black lc outw data !! Z.to_nat j
  = Some (default black (pixel_at data (lc + j))).
Proof.
  intros Hj. unfold cut_row.
  rewrite list_lookup_fmap, range_lookup by lia. cbn.
  repeat f_equal. lia.
Qed.

Lemma rows_between_lookup {tuple : Type} a b (rows : list (list tuple)) :
  forall row k,
    rows_between a b row rows !! k
    = if Z.max a row + Z.of_nat k <=? b
      then rows !! Z.to_nat (Z.max a row - row + Z.of_nat k)
      else None.
Proof.
  induction rows as [|data rows IH]; intros row k; cbn [rows_between].
  - now destruct (_ <=? _).
  - destruct (Z.geb_spec row a) as [Ha|Ha];
      [destruct (Z.leb_spec row b) as [Hb|Hb]|]; cbn [andb].
    + destruct k as [|k].
      * replace (Z.max a row + Z.of_nat 0) with row by lia.
        destruct (Z.leb_spec row b); [|lia].
        now replace (Z.to_nat (Z.max a row - row + Z.of_nat 0)) with 0%nat
          by lia.
      * cbn [lookup list_lookup]. rewrite IH.
        replace (Z.max a (row + 1) + Z.of_nat k)
          with (Z.max a row + Z.of_nat (S k)) by lia.
        destruct (_ <=? _); [|reflexivity].
        replace (Z.to_nat (Z.max a row - row + Z.of_nat (S k)))
          with (S (Z.to_nat (Z.max a (row + 1) - (row + 1) + Z.of_nat k)))
          by lia.
        reflexivity.
    + rewrite IH.
      destruct (Z.leb_spec (Z.max a (row + 1) + Z.of_nat k) b); [lia|].
      destruct (Z.leb_spec (Z.max a row + Z.of_nat k) b); [lia|].
      reflexivity.
    + rewrite IH.
      replace (Z.max a (row + 1)) with (Z.max a row) by lia.
      destruct (_ <=? _); [|reflexivity].
      replace (Z.to_nat (Z.max a row - row + Z.of_nat k))
        with (S (Z.to_nat (Z.max a row - (row + 1) + Z.of_nat k))) by lia.
      reflexivity.
Qed.

Lemma image_pixel_row {tuple : Type} (image : list (list tuple)) i j data :
  0 <= i -> 0 <= j ->
  image !! Z.to_nat i = Some data ->
  image_pixel image i j = data !! Z.to_nat j.
Proof.
  intros Hi Hj E. unfold image_pixel.
  destruct (Z.ltb_spec i 0); [lia|]. destruct (Z.ltb_spec j 0); [lia|].
  cbn [orb]. now rewrite E.
Qed.

Lemma image_pixel_outside {tuple : Type} (image : list (list tuple)) i j :
  i < 0 \/ Z.of_nat (length image) <= i ->
  image_pixel image i j = None.
Proof.
  intros H. unfold image_pixel.
  destruct (Z.ltb_spec i 0); [reflexivity|].
  destruct (j <? 0); [reflexivity|]. cbn [orb].
  rewrite lookup_ge_None_2 by lia. reflexivity.
Qed.

Lemma spec_cut_widths {tuple : Type} (black : tuple) lc rc tr br
      (image : list (list tuple)) :
  Forall (fun row => length row = Z.to_nat (rc - lc + 1))
    (spec_cut black lc rc tr br image).
Proof.
  unfold spec_cut. rewrite !Forall_app. repeat split.
  - apply Forall_replicate. apply length_replicate.
  - apply Forall_forall. intros row Hin. apply list_elem_of_In in Hin.
    apply in_map_iff in Hin. destruct Hin as (data & <- & _).
    apply cut_row_length.
  - apply Forall_replicate. apply length_replicate.
Qed.

(** The pixel of row [i] and column [j] of what is written for a cut is the
    pixel of row [tr + i] and column [lc + j] of the image, black where the
    image has no such pixel. *)
Lemma spec_cut_pixel {tuple : Type} (black : tuple) lc rc tr br
      (image : list (list tuple)) i j :
  0 <= i < Z.of_nat (length (spec_cut black lc rc tr br image)) ->
  0 <= j < rc - lc + 1 ->
  image_pixel (spec_cut black lc rc tr br image) i j
  = Some (default black (image_pixel image (tr + i) (lc + j))).
Proof.
  intros Hi Hj.
  pose proof (spec_cut_length black lc rc tr br image) as Hlen.
  cbn zeta in Hlen. rewrite Hlen in Hi. clear Hlen.
  unfold spec_cut.
  set (h := Z.of_nat (length image)) in *.
  set (na := Z.to_nat (Z.max 0 (- tr))).
  set (lo := Z.max tr 0). set (hi := Z.min br (h - 1)).
  set (B := rows_between lo hi 0 image).
  assert (HB : length B = Z.to_nat (hi + 1 - lo)).
  { subst B. rewrite rows_between_length. fold h. lia. }
  destruct (Z.ltb_spec i (Z.of_nat na)) as [H1|H1].
  { (* above the image *)
    erewrite image_pixel_row; [ | lia | lia | ].
    2:{ rewrite lookup_app_l by (rewrite length_replicate; lia).
        apply lookup_replicate_2. lia. }
    unfold black_row. rewrite lookup_replicate_2 by lia.
    rewrite image_pixel_outside by lia. reflexivity. }
  destruct (Z.ltb_spec i (Z.of_nat na + Z.of_nat (length B))) as [H2|H2].
  { (* a row of the image *)
    assert (Hrow : exists data,
               image !! Z.to_nat (tr + i) = Some data
               /\ B !! (Z.to_nat i - na)%nat = Some data).
    { subst B. rewrite rows_between_lookup.
      destruct (Z.leb_spec (Z.max lo 0 + Z.of_nat (Z.to_nat i - na)) hi);
        [|lia].
      replace (Z.to_nat (Z.max lo 0 - 0 + Z.of_nat (Z.to_nat i - na)))
        with (Z.to_nat (tr + i)) by lia.
      destruct (image !! Z.to_nat (tr + i)) as [data|] eqn:E; [eauto|].
      apply lookup_ge_None in E. lia. }
    destruct Hrow as (data & E1 & E2).
    erewrite image_pixel_row; [ | lia | lia | ].
    2:{ rewrite lookup_app_r by (rewrite length_replicate; lia).
        rewrite length_replicate.
        rewrite lookup_app_l by (rewrite length_map; lia).
        rewrite list_lookup_fmap. fold na. rewrite E2. reflexivity. }
    rewrite cut_row_lookup by lia. f_equal. f_equal.
    unfold pixel_at, image_pixel.
    destruct (Z.ltb_spec (tr + i) 0); [lia|].
    destruct (Z.ltb_spec (lc + j) 0); [reflexivity|]. cbn [orb].
    now rewrite E1. }
  (* below the image *)
  erewrite image_pixel_row; [ | lia | lia | ].
  2:{ rewrite lookup_app_r by (rewrite length_replicate; lia).
      rewrite length_replicate.
      rewrite lookup_app_r by (rewrite length_map; fold B; lia).
      rewrite length_map. fold B.
      apply lookup_replicate_2. lia. }
  unfold black_row. rewrite lookup_replicate_2 by lia.
  rewrite image_pixel_outside by lia. reflexivity.
Qed.

(** X9.  What [extractRowsGen] does for a validated rectangle in range: it
    reads the rows of the image, all of them, and the rows it writes have the
    width of the output image; their pixel of row [i] and column [j] is the
    pixel of row [toprow + i] and column [leftcol + j] of the input image
    where the image has such a pixel, and black everywhere else. There are
    [bottomrow - toprow + 1] of them when the rectangle meets the image or
    touches it from above or below. *)
Theorem extractRowsGen_pixels {tuple : Type} (black : tuple) inpam outpam
        lc rc tr br image rest (f : files tuple) (m : memory tuple) :
  cut_in_range inpam outpam lc rc tr br ->
  image_of inpam image ->
  unread f = image ++ rest ->
  exists out m',
    extractRowsGen black inpam outpam lc rc tr br (f, m)
    = Ok ({| unread := rest;
             consumed := consumed f ++ image;
             written := written f ++ out |}, m')
    /\ Forall (fun row => length row = Z.to_nat (Pam.width outpam)) out
    /\ (-1 <= br -> tr <= Pam.height inpam ->
        Z.of_nat (length out) = br - tr + 1)
    /\ forall i j,
         0 <= i < Z.of_nat (length out) -> 0 <= j < Pam.width outpam ->
         image_pixel out i j
         = Some (default black (image_pixel image (tr + i) (lc + j))).
Proof.
  intros (Hw & Hh & Ho & Hom & Hl & Hlr & Hr & Ht & Htb & Hb & Hbh)
         [Hall Hlen] Hun.
  destruct (extractRowsGen_rows black inpam outpam lc rc tr br
              Hw Ho Hom Hl Hlr Hr Hh ltac:(int_arith) ltac:(split; assumption)
              image rest f m Hall Hlen Hun) as (m' & E).
  exists (spec_cut black lc rc tr br image), m'.
  split; [exact E|]. split; [rewrite Ho; apply spec_cut_widths|]. split.
  - intros H1 H2.
    destruct (spec_cut_length_cases black lc rc tr br image Htb) as (H & _).
    apply H; lia.
  - intros i j Hi Hj. apply spec_cut_pixel; lia.
Qed.

Lemma extractRowsGen_pixels_witness :
  exists out m',
    extractRowsGen 0 (Pam.mk 2 2 1 255 Pam.PGM_TYPE)
      (Pam.mk 3 2 1 255 Pam.PGM_TYPE) (-1) 1 1 2
      ({| unread := [[10; 20]; [30; 40]]; consumed := []; written := [] |},
       fun _ => 7)
    = Ok ({| unread := []; consumed := [[10; 20]; [30; 40]];
             written := out |}, m')
    /\ image_pixel out 0 1 = Some 30 /\ image_pixel out 1 1 = Some 0.
Proof.
  destruct (extractRowsGen_pixels 0 (Pam.mk 2 2 1 255 Pam.PGM_TYPE)
              (Pam.mk 3 2 1 255 Pam.PGM_TYPE) (-1) 1 1 2
              [[10; 20]; [30; 40]] []
              {| unread := [[10; 20]; [30; 40]]; consumed := [];
                 written := [] |}
              (fun _ => 7)
              ltac:(unfold cut_in_range; cbn; repeat split; int_arith)
              ltac:(split; [repeat constructor|reflexivity]) eq_refl)
    as (out & m' & E & _ & Hn & Hp).
  exists out, m'. split; [exact E|].
  specialize (Hn ltac:(lia) ltac:(cbn; lia)). cbn in Hn.
  split; [apply (Hp 0 1) | apply (Hp 1 1)]; cbn; lia.
Defined.

(** ** A cut of a cut *)

Lemma rows_ext {tuple : Type} (a b : list (list tuple)) w :
  length a = length b ->
  Forall (fun row => length row = w) a ->
  Forall (fun row => length row = w) b ->
  (forall i j, 0 <= i < Z.of_nat (length a) -> 0 <= j < Z.of_nat w ->
     image_pixel a i j = image_pixel b i j) ->
  a = b.
Proof.
  intros Hlen Ha Hb Hpix. apply list_eq. intros i.
  destruct (a !! i) as [ra|] eqn:Ea.
  - assert (Hi : (i < length a)%nat) by (eapply lookup_lt_Some; eassumption).
    destruct (b !! i) as [rb|] eqn:Eb.
    2:{ apply lookup_ge_None in Eb. lia. }
    f_equal. apply list_eq. intros j.
    assert (Hra : length ra = w).
    { rewrite Forall_forall in Ha. apply Ha.
      eapply list_elem_of_lookup_2. exact Ea. }
    assert (Hrb : length rb = w).
    { rewrite Forall_forall in Hb. apply Hb.
      eapply list_elem_of_lookup_2. exact Eb. }
    destruct (Nat.lt_ge_cases j w) as [Hj|Hj].
    + specialize (Hpix (Z.of_nat i) (Z.of_nat j) ltac:(lia) ltac:(lia)).
      rewrite (image_pixel_row a _ _ ra) in Hpix
        by (rewrite ?Nat2Z.id; assumption || lia).
      rewrite (image_pixel_row b _ _ rb) in Hpix
        by (rewrite ?Nat2Z.id; assumption || lia).
      now rewrite Nat2Z.id in Hpix.
    + rewrite !lookup_ge_None_2 by lia. reflexivity.
  - apply lookup_ge_None in Ea. symmetry. apply lookup_ge_None_2. lia.
Qed.

(** X10.  Cutting a rectangle out of what a cut has written is one cut: when
    the first rectangle meets the image, the second lies inside the first cut
    and the rectangle of the image the two make together meets the image too,
    [extractRowsGen] on the rows that [extractRowsGen] wrote writes the rows
    that it writes for that rectangle in one pass. *)
Theorem cut_of_a_cut {tuple : Type} (black : tuple) inpam midpam outpam
        l1 r1 t1 b1 l2 r2 t2 b2 image rest
        (f : files tuple) (m m2 : memory tuple) :
  cut_in_range inpam midpam l1 r1 t1 b1 ->
  Pam.height midpam = b1 - t1 + 1 -> b1 - t1 + 1 <= INT_MAX ->
  -1 <= b1 -> t1 <= Pam.height inpam ->
  0 <= l2 <= r2 -> r2 <= r1 - l1 -> 0 <= t2 <= b2 -> b2 <= b1 - t1 ->
  Pam.width outpam = r2 - l2 + 1 ->
  -1 <= t1 + b2 -> t1 + t2 <= Pam.height inpam ->
  image_of inpam image ->
  unread f = image ++ rest ->
  exists mid out ma mb mc,
    extractRowsGen black inpam midpam l1 r1 t1 b1 (f, m)
    = Ok ({| unread := rest; consumed := consumed f ++ image;
             written := written f ++ mid |}, ma)
    /\ image_of midpam mid
    /\ extractRowsGen black midpam outpam l2 r2 t2 b2
         ({| unread := mid; consumed := []; written := [] |}, m2)
       = Ok ({| unread := []; consumed := mid; written := out |}, mb)
    /\ extractRowsGen black inpam outpam
         (l1 + l2) (l1 + r2) (t1 + t2) (t1 + b2) (f, m)
       = Ok ({| unread := rest; consumed := consumed f ++ image;
                written := written f ++ out |}, mc).
Proof.
  intros (Hw & Hh & Ho & Hom & Hl & Hlr & Hr & Ht & Htb & Hb & Hbh)
         Hmh Hmh' Hb1 Ht1 Hl2 Hr2 Ht2 Hb2 Hout Hc1 Hc2 [Hall Hlen] Hun.
  set (mid := spec_cut black l1 r1 t1 b1 image).
  assert (Hmidlen : Z.of_nat (length mid) = b1 - t1 + 1).
  { destruct (spec_cut_length_cases black l1 r1 t1 b1 image Htb) as (H & _).
    apply H; lia. }
  assert (Hmidw : Forall (fun row => length row = Z.to_nat (Pam.width midpam))
                    mid).
  { rewrite Ho. apply spec_cut_widths. }
  set (seq_out := spec_cut black l2 r2 t2 b2 mid).
  set (one_out := spec_cut black (l1 + l2) (l1 + r2) (t1 + t2) (t1 + b2)
                    image).
  assert (Hseqlen : Z.of_nat (length seq_out) = b2 - t2 + 1).
  { destruct (spec_cut_length_cases black l2 r2 t2 b2 mid ltac:(lia))
      as (H & _).
    apply H; lia. }
  assert (Honelen : Z.of_nat (length one_out) = b2 - t2 + 1).
  { destruct (spec_cut_length_cases black (l1 + l2) (l1 + r2) (t1 + t2)
                (t1 + b2) image ltac:(lia)) as (H & _).
    unfold one_out. rewrite H by lia. lia. }
  assert (Eout : seq_out = one_out).
  { apply (rows_ext _ _ (Z.to_nat (r2 - l2 + 1))).
    - lia.
    - apply spec_cut_widths.
    - replace (r2 - l2 + 1) with (l1 + r2 - (l1 + l2) + 1) by lia.
      apply spec_cut_widths.
    - intros i j Hi Hj. subst seq_out one_out.
      pose proof Hmidlen as Hmidlen'. unfold mid in Hmidlen'.
      rewrite (spec_cut_pixel black l2 r2 t2 b2) by lia.
      unfold mid.
      rewrite (spec_cut_pixel black l1 r1 t1 b1) by lia.
      rewrite (spec_cut_pixel black (l1 + l2)) by lia.
      replace (t1 + (t2 + i)) with (t1 + t2 + i) by lia.
      replace (l1 + (l2 + j)) with (l1 + l2 + j) by lia.
      reflexivity. }
  destruct (extractRowsGen_rows black inpam midpam l1 r1 t1 b1
              Hw Ho Hom Hl Hlr Hr Hh ltac:(int_arith)
              ltac:(split; assumption)
              image rest f m Hall Hlen Hun) as (ma & E1).
  destruct (extractRowsGen_rows black midpam outpam l2 r2 t2 b2
              ltac:(int_arith) Hout ltac:(int_arith) ltac:(int_arith)
              ltac:(lia) ltac:(int_arith) ltac:(int_arith) ltac:(int_arith)
              ltac:(split; int_arith)
              mid [] {| unread := mid; consumed := []; written := [] |} m2
              Hmidw ltac:(lia) ltac:(cbn; now rewrite app_nil_r))
    as (mb & E2).
  destruct (extractRowsGen_rows black inpam outpam
              (l1 + l2) (l1 + r2) (t1 + t2) (t1 + b2)
              Hw ltac:(lia) ltac:(int_arith) ltac:(int_arith)
              ltac:(lia) ltac:(int_arith) Hh ltac:(int_arith)
              ltac:(split; int_arith)
              image rest f m Hall Hlen Hun) as (mc & E3).
  exists mid, seq_out, ma, mb, mc.
  split; [exact E1|]. split; [split; [exact Hmidw | lia]|].
  split; [exact E2|]. fold one_out in E3. rewrite Eout. exact E3.
Qed.

Lemma cut_of_a_cut_witness :
  exists mid out ma mb mc,
    extractRowsGen 0 (Pam.mk 2 2 1 255 Pam.PGM_TYPE)
      (Pam.mk 4 3 1 255 Pam.PGM_TYPE) (-1) 2 (-1) 1
      ({| unread := [[10; 20]; [30; 40]]; consumed := []; written := [] |},
       fun _ => 7)
    = Ok ({| unread := []; consumed := [[10; 20]; [30; 40]];
             written := mid |}, ma)
    /\ extractRowsGen 0 (Pam.mk 4 3 1 255 Pam.PGM_TYPE)
         (Pam.mk 2 2 1 255 Pam.PGM_TYPE) 1 2 1 2
         ({| unread := mid; consumed := []; written := [] |}, fun _ => 9)
       = Ok ({| unread := []; consumed := mid; written := out |}, mb)
    /\ extractRowsGen 0 (Pam.mk 2 2 1 255 Pam.PGM_TYPE)
         (Pam.mk 2 2 1 255 Pam.PGM_TYPE) 0 1 0 1
         ({| unread := [[10; 20]; [30; 40]]; consumed := []; written := [] |},
          fun _ => 7)
       = Ok ({| unread := []; consumed := [[10; 20]; [30; 40]];
                written := out |}, mc).
Proof.
  destruct (cut_of_a_cut 0 (Pam.mk 2 2 1 255 Pam.PGM_TYPE)
              (Pam.mk 4 3 1 255 Pam.PGM_TYPE) (Pam.mk 2 2 1 255 Pam.PGM_TYPE)
              (-1) 2 (-1) 1 1 2 1 2 [[10; 20]; [30; 40]] []
              {| unread := [[10; 20]; [30; 40]]; consumed := [];
                 written := [] |}
              (fun _ => 7) (fun _ => 9)
              ltac:(unfold cut_in_range; cbn; repeat split; int_arith)
              ltac:(cbn; lia) ltac:(int_arith) ltac:(lia) ltac:(cbn; lia)
              ltac:(lia) ltac:(lia) ltac:(lia) ltac:(lia) ltac:(cbn; lia)
              ltac:(lia) ltac:(cbn; lia)
              ltac:(split; [repeat constructor|reflexivity]) eq_refl)
    as (mid & out & ma & mb & mc & E1 & _ & E2 & E3).
  exists mid, out, ma, mb, mc. repeat split; assumption.
Defined.

(** ** More on the packed path *)

Lemma black_byte_shifted_low_bit PBM_BLACK r k :
  PBM_BLACK = 0 \/ PBM_BLACK = 1 ->
  0 < r < 8 -> 0 <= k < 8 - r ->
  Z.testbit (Z.shiftl (PBM_BLACK * 255) (8 - r) mod 256) k = false.
Proof.
  intros Hbit Hr Hk.
  assert (Er : r = 1 \/ r = 2 \/ r = 3 \/ r = 4 \/ r = 5 \/ r = 6 \/ r = 7)
    by lia.
  assert (Ek : k = 0 \/ k = 1 \/ k = 2 \/ k = 3 \/ k = 4 \/ k = 5 \/ k = 6
               \/ k = 7) by lia.
  destruct Hbit as [-> | ->];
    repeat (destruct Er as [->|Er]);
    try subst r;
    repeat (destruct Ek as [->|Ek]; [reflexivity || lia|]);
    subst; reflexivity || lia.
Qed.

(** X11.  [makeBlackPBMRow] on a row that has the bytes of [cols] bits: the
    first [cols] bits are black afterwards, the bits left over in the last of
    these bytes are 0, and no other byte of the row changes. With no column,
    nothing changes. *)
Theorem makeBlackPBMRow_fills PBM_BLACK bitrow cols :
  PBM_BLACK = 0 \/ PBM_BLACK = 1 ->
  0 <= cols <= INT_MAX ->
  pbm_packed_bytes cols <= Z.of_nat (length bitrow) ->
  let bitrow' := makeBlackPBMRow PBM_BLACK bitrow cols in
  length bitrow' = length bitrow
  /\ forall p, 0 <= p ->
       bit_at bitrow' p
       = if p <? cols then Z.odd PBM_BLACK
         else if p <? 8 * pbm_packed_bytes cols then false
         else bit_at bitrow p.
Proof.
  intros Hbit Hc Hlen. cbn zeta. unfold makeBlackPBMRow.
  assert (Hcnt : pbm_packed_bytes cols = (cols + 7) / 8)
    by (unfold pbm_packed_bytes; rewrite uint_id by int_arith; reflexivity).
  rewrite Hcnt in *.
  rewrite (for_while_fold _ _ (Z.to_nat ((cols + 7) / 8))
             (Z.to_nat ((cols + 7) / 8)));
    [ | lia | int_arith | int_arith
      | intros k Hk; zbool; try reflexivity; lia
      | lia ].
  destruct (fill_bytes (PBM_BLACK * 255) (Z.to_nat ((cols + 7) / 8)) bitrow)
    as [L G].
  cbn zeta in L, G.
  set (b1 := fold_left _ (range 0 _) bitrow) in *.
  assert (Hfill : forall p, 0 <= p < 8 * ((cols + 7) / 8) ->
                    get_byte b1 (p / 8) = PBM_BLACK * 255).
  { intros p Hp. rewrite G by (Z.div_mod_to_equations; lia).
    zbool; try reflexivity; Z.div_mod_to_equations; lia. }
  assert (Hrest : forall p, 8 * ((cols + 7) / 8) <= p ->
                    get_byte b1 (p / 8) = get_byte bitrow (p / 8)).
  { intros p Hp. rewrite G by (Z.div_mod_to_equations; lia).
    zbool; try reflexivity; Z.div_mod_to_equations; lia. }
  destruct (negb (PBM_BLACK =? 0) && (cols mod 8 >? 0)) eqn:C.
  - apply andb_true_iff in C. destruct C as [_ C]. apply Z.gtb_lt in C.
    split; [now rewrite set_byte_length|].
    intros p Hp. rewrite bit_at_set_byte, L by lia.
    destruct (Z.eqb_spec (p / 8) ((cols + 7) / 8 - 1)) as [E|E]; cbn [andb].
    + destruct (Z.ltb_spec ((cols + 7) / 8 - 1) (Z.of_nat (length bitrow)));
        [|lia].
      rewrite <- E, Hfill by (Z.div_mod_to_equations; lia).
      destruct (Z.ltb_spec p cols).
      * apply black_byte_shifted_bit;
          [assumption | | ]; Z.div_mod_to_equations; lia.
      * destruct (Z.ltb_spec p (8 * ((cols + 7) / 8)));
          [|Z.div_mod_to_equations; lia].
        apply black_byte_shifted_low_bit;
          [assumption | | ]; Z.div_mod_to_equations; lia.
    + rewrite bit_at_get_byte by lia.
      destruct (Z.ltb_spec p cols).
      * rewrite Hfill by (Z.div_mod_to_equations; lia).
        apply black_byte_bit; [assumption|]. Z.div_mod_to_equations; lia.
      * destruct (Z.ltb_spec p (8 * ((cols + 7) / 8)));
          [Z.div_mod_to_equations; lia|].
        rewrite Hrest by lia. symmetry. now apply bit_at_get_byte.
  - split; [exact L|].
    intros p Hp. rewrite bit_at_get_byte by lia.
    destruct (Z.ltb_spec p cols).
    + rewrite Hfill by (Z.div_mod_to_equations; lia).
      apply black_byte_bit; [assumption|]. Z.div_mod_to_equations; lia.
    + destruct (Z.ltb_spec p (8 * ((cols + 7) / 8))).
      * rewrite Hfill by lia.
        apply andb_false_iff in C. destruct C as [C|C].
        -- apply negb_false_iff, Z.eqb_eq in C. subst PBM_BLACK.
           apply Z.testbit_0_l.
        -- rewrite Z.gtb_ltb in C. apply Z.ltb_ge in C.
           exfalso. Z.div_mod_to_equations; lia.
      * rewrite Hrest by lia. symmetry. now apply bit_at_get_byte.
Qed.

Lemma makeBlackPBMRow_fills_witness :
  bit_at (makeBlackPBMRow 1 [0; 0; 85] 11) 10 = true
  /\ bit_at (makeBlackPBMRow 1 [0; 0; 85] 11) 12 = false
  /\ bit_at (makeBlackPBMRow 1 [0; 0; 85] 11) 17 = true.
Proof.
  destruct (makeBlackPBMRow_fills 1 [0; 0; 85] 11
              ltac:(right; reflexivity) ltac:(int_arith)
              ltac:(vm_compute; discriminate)) as (_ & H).
  split; [apply (H 10) | split; [apply (H 12) | apply (H 17)]]; lia.
Defined.

(** X12.  Every store of [extractRowsPBM] into the scratch row falls inside
    it: the row has exactly the bytes of [totalWidth] bits that
    [makeBlackPBMRow] fills above the image, it has the bytes of an output row
    that [makeBlackPBMRow] fills below the image, the bits read into and the
    bits written from lie in it, and so does the byte repaired after a row is
    written. *)
Theorem scratch_row_holds_every_store heap inpam outpam lc rc tr br plan :
  cut_in_range inpam outpam lc rc tr br ->
  planPackedRow inpam lc rc = Ok plan ->
  let bytes :=
    Z.of_nat (length (pbm_allocrow_packed heap (totalWidth plan))) in
  pbm_packed_bytes (totalWidth plan) = bytes
  /\ pbm_packed_bytes (Pam.width outpam) <= bytes
  /\ 0 <= readOffset plan
  /\ readOffset plan + Pam.width inpam <= 8 * bytes
  /\ 0 <= writeOffset plan
  /\ writeOffset plan + Pam.width outpam <= 8 * bytes
  /\ 0 <= writeOffset plan / 8 + pbm_packed_bytes (Pam.width outpam) - 1
       < bytes.
Proof.
  intros Hrange Hplan bytes.
  destruct (plan_facts inpam outpam lc rc tr br plan Hrange Hplan)
    as (Hoff & Hwo & Hro & Htw & Hslack & Hinw & Houtw & Ho).
  destruct Hrange as (Hw & Hh & _ & Hom & Hl & Hlr & Hr & _).
  assert (Hb : bytes = (totalWidth plan + 7) / 8).
  { subst bytes. unfold pbm_allocrow_packed.
    rewrite length_map, length_seq.
    unfold pbm_packed_bytes. rewrite uint_id by int_arith.
    rewrite Z2Nat.id by (Z.div_mod_to_equations; lia). reflexivity. }
  assert (Ep : forall cols, 0 <= cols <= INT_MAX ->
                 pbm_packed_bytes cols = (cols + 7) / 8).
  { intros cols Hcols. unfold pbm_packed_bytes.
    now rewrite uint_id by int_arith. }
  rewrite (Ep (totalWidth plan)) by int_arith.
  rewrite (Ep (Pam.width outpam)) by int_arith.
  rewrite Hb. clear Ep Hb bytes.
  destruct Hoff as [(Hpos & Er & Ew) | (Hneg & Er & Ew)];
    rewrite Er, Ew in *; repeat split;
    try specialize (Hslack Hpos);
    unfold INT_MAX, is_int, INT_MIN in *; Z.div_mod_to_equations; lia.
Qed.

Lemma scratch_row_holds_every_store_witness :
  0 <= 6 / 8 + pbm_packed_bytes 21 - 1
    < Z.of_nat (length (pbm_allocrow_packed (fun _ => 170) 34)).
Proof.
  destruct (scratch_row_holds_every_store (fun _ => 170)
              (Pam.mk 10 2 1 1 Pam.PBM_TYPE) (Pam.mk 21 4 1 1 Pam.PBM_TYPE)
              6 26 (-1) 2
              {| readOffset := 0; writeOffset := 6; totalWidth := 34 |}
              ltac:(unfold cut_in_range; cbn; repeat split; int_arith)
              eq_refl) as (_ & _ & _ & _ & _ & _ & H).
  exact H.
Defined.

(** ** One image, from the command line to the pixels *)

Lemma rejectOutOfBounds_ok cols rows lc rc tr br pad :
  0 <= cols <= INT_MAX -> 0 <= rows <= INT_MAX ->
  rejectOutOfBounds cols rows lc rc tr br pad = Ok tt ->
  lc <= rc /\ tr <= br
  /\ (pad = false -> 0 <= lc /\ rc <= cols - 1 /\ 0 <= tr /\ br <= rows - 1).
Proof.
  intros Hc Hr. unfold rejectOutOfBounds, fail_if.
  rewrite !last_col_as_int by assumption.
  destruct pad; cbn [negb bind];
    repeat match goal with
           | |- context [?a <? ?b] =>
               destruct (Z.ltb_spec a b); cbn [bind pm_error];
               [discriminate|]
           | |- context [?a >? ?b] =>
               destruct (Z.gtb_spec a b); cbn [bind pm_error];
               [discriminate|]
           end; intros _; repeat split; (lia || discriminate).
Qed.

(** X13.  [cutOneImage], from the command line to the pixels written. When
    [computeCutBounds] makes a rectangle of the command line that
    [rejectOutOfBounds] accepts and that is in range, and (for a PBM image)
    the scratch row is not too wide, [cutOneImage] writes the header of the
    input with the width and height of the rectangle, reads every row of the
    image, and writes rows of that width whose pixel of row [i] and column [j]
    is the pixel of row [toprow + i] and column [leftcol + j] of the image,
    black where there is none; it takes the same pixels down the general path
    and down the packed path. The rows are as many as the header says when the
    rectangle meets the image. Without [-pad] no pixel is padding: the output
    is the rectangle of the image, pixel for pixel. *)
Theorem cutOneImage_pixels {tuple : Type} PBM_BLACK heap (black white : tuple)
        is_black inpam cmdline v q image rest (f : files tuple) m :
  PBM_BLACK = 0 \/ PBM_BLACK = 1 ->
  is_black black = true -> is_black white = false ->
  computeCutBounds (Pam.width inpam) (Pam.height inpam)
    (Cmdline.left cmdline) (Cmdline.right cmdline)
    (Cmdline.top cmdline) (Cmdline.bottom cmdline)
    (Cmdline.width cmdline) (Cmdline.height cmdline) v = Ok q ->
  rejectOutOfBounds (uint (Pam.width inpam)) (uint (Pam.height inpam))
    (leftcol q) (rightcol q) (toprow q) (bottomrow q) (Cmdline.pad cmdline)
  = Ok tt ->
  let outpam :=
    Pam.mk (rightcol q - leftcol q + 1) (bottomrow q - toprow q + 1)
      (Pam.depth inpam) (Pam.maxval inpam) (Pam.format inpam) in
  cut_in_range inpam outpam (leftcol q) (rightcol q) (toprow q) (bottomrow q) ->
  bottomrow q - toprow q + 1 <= INT_MAX ->
  (Pam.format inpam = Pam.PBM_TYPE ->
   scratch_width (leftcol q) (rightcol q) (Pam.width inpam) <= INT_MAX - 10
   /\ pbm_image black white image) ->
  image_of inpam image ->
  unread f = image ++ rest ->
  exists out m',
    cutOneImage PBM_BLACK heap black white is_black inpam cmdline v (f, m)
    = Ok (outpam,
          ({| unread := rest;
              consumed := consumed f ++ image;
              written := written f ++ out |}, m'))
    /\ Forall (fun row => length row = Z.to_nat (Pam.width outpam)) out
    /\ (-1 <= bottomrow q -> toprow q <= Pam.height inpam ->
        Z.of_nat (length out) = Pam.height outpam)
    /\ (forall i j,
          0 <= i < Z.of_nat (length out) -> 0 <= j < Pam.width outpam ->
          image_pixel out i j
          = Some (default black
                    (image_pixel image (toprow q + i) (leftcol q + j))))
    /\ (Cmdline.pad cmdline = false ->
        Z.of_nat (length out) = Pam.height outpam
        /\ forall i j,
             0 <= i < Pam.height outpam -> 0 <= j < Pam.width outpam ->
             is_Some (image_pixel out i j)
             /\ image_pixel out i j
                = image_pixel image (toprow q + i) (leftcol q + j)).
Proof.
  intros Hbit Hblack Hwhite Hq Hok outpam Hrange Hbt Hpbm Himage Hun.
  pose proof Hrange
    as (Hw & Hh & Ho & Hom & Hl & Hlr & Hr & Ht & Htb & Hb & Hbh).
  rewrite !uint_id in Hok by int_arith.
  assert (Hvalid := rejectOutOfBounds_ok _ _ _ _ _ _ _ Hw Hh Hok).
  destruct Hvalid as (_ & _ & Hin).
  assert (Eout : Pam.mk (sint (sint (rightcol q - leftcol q) + 1))
                   (sint (sint (bottomrow q - toprow q) + 1))
                   (Pam.depth inpam) (Pam.maxval inpam) (Pam.format inpam)
                 = outpam).
  { subst outpam. cbn [Pam.width] in Ho, Hom. f_equal; int_arith. }
  assert (Hcut : exists m',
             match Pam.format inpam with
             | Pam.PBM_TYPE =>
                 extractRowsPBM PBM_BLACK heap black white is_black
                   inpam outpam (leftcol q) (rightcol q)
                   (toprow q) (bottomrow q) (f, m)
             | _ =>
                 extractRowsGen black inpam outpam (leftcol q) (rightcol q)
                   (toprow q) (bottomrow q) (f, m)
             end
             = Ok ({| unread := rest;
                      consumed := consumed f ++ image;
                      written := written f
                                 ++ spec_cut black (leftcol q) (rightcol q)
                                      (toprow q) (bottomrow q) image |}, m')).
  { destruct Himage as [Hall Hlen].
    destruct (extractRowsGen_rows black inpam outpam
                (leftcol q) (rightcol q) (toprow q) (bottomrow q)
                Hw Ho Hom Hl Hlr Hr Hh ltac:(int_arith)
                ltac:(split; assumption)
                image rest f m Hall Hlen Hun) as (m' & Eg).
    destruct (Pam.format inpam) eqn:Efmt; try (now exists m').
    destruct (Hpbm eq_refl) as [Hsw Hpix].
    exists m.
    eapply (extractRowsPBM_rows PBM_BLACK heap black white is_black
              Hbit Hblack Hwhite inpam outpam);
      [exact Hrange | | split; assumption | exact Hpix | exact Hun].
    rewrite planPackedRow_eq by assumption.
    destruct (Z.gtb_spec (scratch_width (leftcol q) (rightcol q)
                            (Pam.width inpam)) (INT_MAX - 10)); [lia|].
    reflexivity. }
  destruct Hcut as (m' & Ecut).
  exists (spec_cut black (leftcol q) (rightcol q) (toprow q) (bottomrow q)
            image), m'.
  assert (Hlen : -1 <= bottomrow q -> toprow q <= Pam.height inpam ->
                 Z.of_nat (length (spec_cut black (leftcol q) (rightcol q)
                                     (toprow q) (bottomrow q) image))
                 = bottomrow q - toprow q + 1).
  { intros H1 H2.
    destruct (spec_cut_length_cases black (leftcol q) (rightcol q)
                (toprow q) (bottomrow q) image Htb) as (H & _).
    apply H; destruct Himage as [_ Hlen]; lia. }
  split.
  { unfold cutOneImage. rewrite Hq. cbn [bind].
    rewrite !uint_id by int_arith. rewrite Hok. cbn [bind].
    rewrite Eout.
    destruct (Pam.format inpam); rewrite Ecut; reflexivity. }
  split; [rewrite Ho; apply spec_cut_widths|].
  split; [exact Hlen|].
  split; [intros i j Hi Hj; apply spec_cut_pixel; subst outpam; cbn in *; lia|].
  intros Hpad. specialize (Hin Hpad). destruct Hin as (H1 & H2 & H3 & H4).
  split; [apply Hlen; lia|].
  intros i j Hi Hj. subst outpam. cbn [Pam.width Pam.height] in *.
  rewrite spec_cut_pixel by (rewrite ?Hlen; lia).
  destruct Himage as [Hall Hlen'].
  destruct (image !! Z.to_nat (toprow q + i)) as [data|] eqn:Erow.
  2:{ apply lookup_ge_None in Erow. lia. }
  assert (Hdata : length data = Z.to_nat (Pam.width inpam)).
  { rewrite Forall_forall in Hall. apply Hall.
    eapply list_elem_of_lookup_2. exact Erow. }
  rewrite (image_pixel_row image _ _ data) by (assumption || lia).
  destruct (data !! Z.to_nat (leftcol q + j)) as [px|] eqn:Epx.
  2:{ apply lookup_ge_None in Epx. lia. }
  cbn. split; [eauto | reflexivity].
Qed.

Lemma cutOneImage_pixels_witness :
  exists out m',
    cutOneImage 1 (fun _ => 0) 0 1 (Z.eqb 0)
      (Pam.mk 3 2 1 255 Pam.PGM_TYPE)
      (Cmdline.mk "-" 1 UNSPEC 1 UNSPEC UNSPEC UNSPEC false false)
      {| leftcol := 0; rightcol := 0; toprow := 0; bottomrow := 0 |}
      ({| unread := [[10; 20; 30]; [40; 50; 60]]; consumed := [];
          written := [] |}, fun _ => 7)
    = Ok (Pam.mk 2 1 1 255 Pam.PGM_TYPE,
          ({| unread := []; consumed := [[10; 20; 30]; [40; 50; 60]];
              written := out |}, m'))
    /\ image_pixel out 0 0 = Some 50 /\ image_pixel out 0 1 = Some 60.
Proof.
  destruct (cutOneImage_pixels 1 (fun _ => 0) 0 1 (Z.eqb 0)
              (Pam.mk 3 2 1 255 Pam.PGM_TYPE)
              (Cmdline.mk "-" 1 UNSPEC 1 UNSPEC UNSPEC UNSPEC false false)
              {| leftcol := 0; rightcol := 0; toprow := 0; bottomrow := 0 |}
              {| leftcol := 1; rightcol := 2; toprow := 1; bottomrow := 1 |}
              [[10; 20; 30]; [40; 50; 60]] []
              {| unread := [[10; 20; 30]; [40; 50; 60]]; consumed := [];
                 written := [] |}
              (fun _ => 7)
              ltac:(right; reflexivity) eq_refl eq_refl eq_refl eq_refl
              ltac:(unfold cut_in_range; cbn; repeat split; int_arith)
              ltac:(cbn; int_arith)
              ltac:(cbn; discriminate)
              ltac:(split; [repeat constructor|reflexivity]) eq_refl)
    as (out & m' & E & _ & _ & _ & Hp).
  exists out, m'. split; [exact E|].
  destruct (Hp eq_refl) as (_ & Hp').
  split; [apply (Hp' 0 0) | apply (Hp' 0 1)]; cbn; lia.
Defined.

(** ** The stream of images *)

Section StreamOfImages.

Variable PBM_BLACK : Z.
Variable heap : nat -> Z.
Context {tuple : Type}.
Variable black white : tuple.
Variable is_black : tuple -> bool.
Variable sscanf_d : string -> option Z.
Variable pm_openr : string -> option (list (item tuple)).
Variable v : cut_vars.

Lemma leading_rows_app (rows : list (list tuple)) (s : list (item tuple)) :
  leading_rows (map Row rows ++ s)
  = (rows ++ fst (leading_rows s), snd (leading_rows s)).
Proof.
  induction rows as [|data rows IH]; cbn [map app leading_rows].
  - now destruct (leading_rows s).
  - rewrite IH. reflexivity.
Qed.

Lemma leading_rows_stream (images : list (Pam.pam * list (list tuple))) :
  leading_rows (stream_of images) = ([], stream_of images).
Proof. destruct images as [|[p rows] images]; reflexivity. Qed.

Lemma stream_of_length (images : list (Pam.pam * list (list tuple))) :
  (length images <= length (stream_of images))%nat.
Proof.
  induction images as [|[p rows] images IH]; [cbn; lia|].
  cbn [stream_of flat_map fst snd]. fold (stream_of images).
  cbn [length app]. rewrite length_app. lia.
Qed.

(** The loop of [main] on a file of images: one [cutOneImage] for each,
    in turn. *)
Lemma cutImages_each cmdline
      (images : list (Pam.pam * list (list tuple))) :
  forall outs fuel output (m : memory tuple),
    images <> [] -> (length images <= fuel)%nat ->
    Forall2 (cuts_to PBM_BLACK heap black white is_black v cmdline)
      images outs ->
    cutImages PBM_BLACK heap black white is_black v fuel cmdline
      (stream_of images) output m
    = Exit0 (output ++ stream_of outs).
Proof.
  induction images as [|[p rows] images IH];
    intros outs fuel output m Hne Hfuel Hall; [congruence|].
  inversion Hall as [|? [op orows] ? outs' Hcut Hrest]; subst.
  destruct fuel as [|fuel]; [cbn in Hfuel; lia|].
  cbn [stream_of flat_map fst snd app cutImages pnm_readpaminit].
  fold (stream_of images). fold (stream_of outs').
  rewrite leading_rows_app, leading_rows_stream. cbn [fst snd].
  rewrite app_nil_r.
  destruct (Hcut m) as (f' & m' & E & Hun & Hwr).
  cbn [fst snd] in E. rewrite E, Hun, Hwr. cbn [map app].
  destruct images as [|img images].
  - inversion Hrest; subst. cbn. now rewrite app_nil_r.
  - assert (Hnext : pnm_nextimage (stream_of (img :: images)) = false)
      by reflexivity.
    rewrite Hnext.
    rewrite (IH outs'); [ | discriminate | cbn in *; lia | exact Hrest].
    rewrite <- app_assoc. reflexivity.
Qed.

(** X14.  [main] cuts every image of the file with the same command line, one
    after the other, and stops with exit status 0 at the end of the file: when
    the command line parses and [cutOneImage] makes something of each image of
    the file, what [main] writes is what it makes of the first image, then
    what it makes of the second, and so on, each after its header. *)
Theorem main_cuts_every_image opts args cmdline
        (images : list (Pam.pam * list (list tuple))) outs (m : memory tuple) :
  parseCommandLine sscanf_d opts args = Ok cmdline ->
  pm_openr (Cmdline.inputFileName cmdline) = Some (stream_of images) ->
  images <> [] ->
  Forall2 (cuts_to PBM_BLACK heap black white is_black v cmdline)
    images outs ->
  main PBM_BLACK heap black white is_black sscanf_d pm_openr v opts args m
  = Exit0 (stream_of outs).
Proof.
  intros Hparse Hopen Hne Hall. unfold main. rewrite Hparse, Hopen.
  rewrite cutImages_each with (outs := outs); try assumption.
  - reflexivity.
  - pose proof (stream_of_length images). lia.
Qed.

(** X15.  With no option but [-pad] and [-verbose] and no argument but a file
    name, [main] copies the file: for a file of one or more images, whatever
    their formats and sizes, what it writes is the file it reads. A file with
    no image in it is an error, not an empty output, since [main] cuts an
    image before it first looks for the end of the file. *)
Theorem main_copies_the_file opts args
        (images : list (Pam.pam * list (list tuple))) (m : memory tuple) :
  PBM_BLACK = 0 \/ PBM_BLACK = 1 ->
  is_black black = true -> is_black white = false ->
  opt_left opts = None -> opt_right opts = None ->
  opt_top opts = None -> opt_bottom opts = None ->
  opt_width opts = None -> opt_height opts = None ->
  (length args <= 1)%nat ->
  pm_openr (nth 0 args "-"%string) = Some (stream_of images) ->
  Forall (whole_image black white) images ->
  main PBM_BLACK heap black white is_black sscanf_d pm_openr v opts args m
  = match images with
    | [] => Failed NoImage
    | _ => Exit0 (stream_of images)
    end.
Proof.
  intros Hbit Hblack Hwhite Hl Hr Ht Hb Hw Hh Hargs Hopen Hall.
  set (cmdline := Cmdline.mk (nth 0 args "-"%string)
                    UNSPEC UNSPEC UNSPEC UNSPEC UNSPEC UNSPEC
                    (opt_pad opts) (opt_verbose opts)).
  assert (Hparse : parseCommandLine sscanf_d opts args = Ok cmdline).
  { unfold parseCommandLine. rewrite Hl, Hr, Ht, Hb, Hw, Hh.
    destruct args as [|a [|b args]]; cbn in Hargs; try lia; reflexivity. }
  unfold main. rewrite Hparse. cbn [Cmdline.inputFileName cmdline].
  rewrite Hopen.
  destruct images as [|img images]; [reflexivity|].
  rewrite cutImages_each with (outs := img :: images).
  - reflexivity.
  - discriminate.
  - pose proof (stream_of_length (img :: images)). lia.
  - clear Hopen. induction Hall as [|[p rows] l (Hpw & Hph & Him & Hpbm) _ IH];
      constructor; [|exact IH].
    intros m0. cbn [fst snd] in *.
    assert (Hreq : full_image_request p cmdline)
      by (unfold full_image_request; cbn; tauto).
    destruct (Pam.format p) eqn:Efmt.
    + destruct (Hpbm eq_refl) as [Hpw' Hpix].
      exists {| unread := []; consumed := [] ++ rows;
                written := [] ++ rows |}, m0.
      split; [|split; reflexivity].
      assert (Hpw'' : 0 < Pam.width p <= INT_MAX - 10) by lia.
      exact (cut_full_pbm_image PBM_BLACK heap black white is_black
               p cmdline v rows []
               {| unread := rows; consumed := []; written := [] |} m0
               Hbit Hblack Hwhite Efmt Hpw'' Hph Him Hpix
               (eq_sym (app_nil_r rows)) Hreq).
    + assert (Hfmt : Pam.format p <> Pam.PBM_TYPE) by congruence.
      destruct (cut_full_gen_image PBM_BLACK heap black white is_black
                  p cmdline v rows []
                  {| unread := rows; consumed := []; written := [] |} m0
                  Hfmt Hpw Hph Him (eq_sym (app_nil_r rows)) Hreq)
        as (m' & E).
      eexists _, m'. split; [exact E|]. split; reflexivity.
    + assert (Hfmt : Pam.format p <> Pam.PBM_TYPE) by congruence.
      destruct (cut_full_gen_image PBM_BLACK heap black white is_black
                  p cmdline v rows []
                  {| unread := rows; consumed := []; written := [] |} m0
                  Hfmt Hpw Hph Him (eq_sym (app_nil_r rows)) Hreq)
        as (m' & E).
      eexists _, m'. split; [exact E|]. split; reflexivity.
    + assert (Hfmt : Pam.format p <> Pam.PBM_TYPE) by congruence.
      destruct (cut_full_gen_image PBM_BLACK heap black white is_black
                  p cmdline v rows []
                  {| unread := rows; consumed := []; written := [] |} m0
                  Hfmt Hpw Hph Him (eq_sym (app_nil_r rows)) Hreq)
        as (m' & E).
      eexists _, m'. split; [exact E|]. split; reflexivity.
Qed.

(** *** The loop of [main] ends *)

Lemma for_whileM_invariant {St : Type} (P : St -> Prop) cond
      (body : Z -> St -> result St) :
  (forall col s s', P s -> body col s = Ok s' -> P s') ->
  forall n col s s', P s -> for_whileM n cond body col s = Ok s' -> P s'.
Proof.
  intros Hbody. induction n as [|n IH]; intros col s s' Hs; cbn [for_whileM].
  - now intros [= <-].
  - destruct (cond col); [|now intros [= <-]].
    destruct (body col s) as [s1|e] eqn:E; cbn [bind]; [|discriminate].
    apply IH. eapply Hbody; eassumption.
Qed.

Lemma pnm_readpamrow_unread inpam ptrs (st st' : files tuple * memory tuple) :
  pnm_readpamrow inpam ptrs st = Ok st' ->
  (length (unread (fst st')) <= length (unread (fst st)))%nat.
Proof.
  destruct st as [f0 m0]. unfold pnm_readpamrow.
  destruct (unread f0) as [|data rest] eqn:E; [discriminate|].
  destruct ptrs; intros [= <-]; cbn; rewrite E; cbn; lia.
Qed.

Lemma writeBlackRows_unread outpam n (st : files tuple * memory tuple) :
  unread (fst (writeBlackRows black outpam n st)) = unread (fst st).
Proof. now destruct st. Qed.

Lemma extractRowsGen_unread inpam outpam lc rc tr br
      (st st' : files tuple * memory tuple) :
  extractRowsGen black inpam outpam lc rc tr br st = Ok st' ->
  (length (unread (fst st')) <= length (unread (fst st)))%nat.
Proof.
  unfold extractRowsGen.
  set (st0 := if sint (0 - tr) >? 0 then _ else st).
  assert (H0 : unread (fst st0) = unread (fst st)).
  { subst st0. destruct (_ >? _); [apply writeBlackRows_unread|reflexivity]. }
  destruct (createRowCutter black inpam outpam lc rc (snd st0))
    as [rowCutterP m1].
  destruct (for_whileM _ _ _ 0 (fst st0, m1)) as [st1|e] eqn:E;
    cbn [bind]; [|discriminate].
  intros [= <-].
  assert (H1 : (length (unread (fst st1)) <= length (unread (fst st)))%nat).
  { revert E.
    apply (for_whileM_invariant
             (fun s : files tuple * memory tuple =>
                (length (unread (fst s)) <= length (unread (fst st)))%nat)).
    - intros col s s' Hs.
      destruct (_ && _).
      + destruct (pnm_readpamrow inpam _ s) as [s1|e] eqn:Er;
          cbn [bind]; [|discriminate].
        intros [= <-]. apply pnm_readpamrow_unread in Er.
        destruct s1 as [f1 m']. cbn in *. lia.
      + intros Er. apply pnm_readpamrow_unread in Er. lia.
    - cbn [fst]. rewrite H0. lia. }
  destruct (sint (br - sint (Pam.height inpam - 1)) >? 0);
    [rewrite writeBlackRows_unread|]; exact H1.
Qed.

Lemma write_packed_rows_unread count bitrow cols (f : files tuple) :
  unread (write_packed_rows PBM_BLACK black white count bitrow cols f)
  = unread f.
Proof.
  unfold write_packed_rows.
  apply (for_while_invariant (fun f' : files tuple => unread f' = unread f));
    [|reflexivity].
  intros col f' Hf'. exact Hf'.
Qed.

Lemma extractRowsPBM_unread inpam outpam lc rc tr br
      (st st' : files tuple * memory tuple) :
  extractRowsPBM PBM_BLACK heap black white is_black inpam outpam
    lc rc tr br st = Ok st' ->
  (length (unread (fst st')) <= length (unread (fst st)))%nat.
Proof.
  destruct st as [f m]. unfold extractRowsPBM.
  destruct (planPackedRow inpam lc rc) as [plan|e]; cbn [bind];
    [|discriminate].
  set (top := if (tr <? 0) || (lc <? 0) || (rc >=? Pam.width inpam)
              then _ else _).
  assert (H0 : unread (fst top) = unread f).
  { subst top. destruct (_ || _); [|reflexivity].
    destruct (tr <? 0); [apply write_packed_rows_unread|reflexivity]. }
  destruct top as [f0 bitrow0]. cbn [fst] in H0.
  destruct (for_whileM _ _ _ 0 (f0, bitrow0)) as [[f1 bitrow1]|e] eqn:E;
    cbn [bind]; [|discriminate].
  assert (H1 : (length (unread f1) <= length (unread f))%nat).
  { eapply (for_whileM_invariant
              (fun s : files tuple * list Z =>
                 (length (unread (fst s)) <= length (unread f))%nat)) in E.
    - exact E.
    - intros col [fa ba] [fb bb] Hs. cbn [fst] in *.
      destruct (_ && _).
      + unfold pbm_readpbmrow_bitoffset.
        destruct (unread fa) as [|data rest] eqn:Eu; [discriminate|].
        cbn [bind pm_error]. intros [= <- _]. cbn.
        cbn in Hs. lia.
      + destruct (pnm_readpamrow inpam None (fa, m)) as [s1|e] eqn:Er;
          cbn [bind]; [|discriminate].
        intros [= <- _]. apply pnm_readpamrow_unread in Er. cbn in Er. lia.
    - cbn [fst]. rewrite H0. lia. }
  destruct (sint (br - sint (Pam.height inpam - 1)) >? 0);
    intros [= <-]; cbn [fst];
    [rewrite write_packed_rows_unread|]; exact H1.
Qed.

Lemma cutOneImage_unread inpam cmdline outpam
      (st st' : files tuple * memory tuple) :
  cutOneImage PBM_BLACK heap black white is_black inpam cmdline v st
  = Ok (outpam, st') ->
  (length (unread (fst st')) <= length (unread (fst st)))%nat.
Proof.
  unfold cutOneImage.
  destruct (computeCutBounds _ _ _ _ _ _ _ _ v) as [q|e]; cbn [bind];
    [|discriminate].
  destruct (rejectOutOfBounds _ _ _ _ _ _ _) as [u|e]; cbn [bind];
    [|discriminate].
  destruct (Pam.format inpam);
    match goal with
    | |- context [bind ?x _] => destruct x as [s1|e] eqn:E
    end; cbn [bind]; try discriminate; intros [= _ <-];
    first [ now apply extractRowsPBM_unread in E
          | now apply extractRowsGen_unread in E ].
Qed.

Lemma leading_rows_length (s : list (item tuple)) :
  (length (fst (leading_rows s)) + length (snd (leading_rows s))
   = length s)%nat.
Proof.
  induction s as [|[p|data] s IH]; cbn [leading_rows]; try reflexivity.
  destruct (leading_rows s) as [rows rest]. cbn in *. lia.
Qed.

(** With more rounds allowed than the file has items, the loop of [main]
    leaves by the end of the file or in [pm_error]: allowing more rounds
    still changes nothing. *)
Lemma cutImages_fuel cmdline :
  forall fuel input output (m : memory tuple),
    (length input < fuel)%nat ->
    cutImages PBM_BLACK heap black white is_black v fuel cmdline
      input output m
    = cutImages PBM_BLACK heap black white is_black v (S (length input))
        cmdline input output m.
Proof.
  induction fuel as [fuel IH] using lt_wf_ind.
  intros input output m Hfuel.
  destruct fuel as [|fuel]; [lia|].
  cbn [cutImages].
  destruct input as [|[p|data] input]; try reflexivity.
  cbn [pnm_readpaminit].
  pose proof (leading_rows_length input) as Hlr.
  destruct (leading_rows input) as [rows rest]. cbn [fst snd] in Hlr.
  destruct (cutOneImage _ _ _ _ _ _ _ _ _) as [[outpam [f m']]|e] eqn:E;
    [|reflexivity].
  apply cutOneImage_unread in E. cbn [fst unread] in E.
  destruct (pnm_nextimage _); [reflexivity|].
  assert (Hlen : (length (map Row (unread f) ++ rest) <= length input)%nat)
    by (rewrite length_app, length_map; lia).
  cbn [length] in *.
  rewrite (IH fuel) by lia.
  rewrite (IH (S (length input))) by lia.
  reflexivity.
Qed.

End StreamOfImages.

Lemma main_cuts_every_image_witness :
  main 1 (fun _ => 0) 0 1 (Z.eqb 0) scan_decimal
    (fun _ => Some [Header (Pam.mk 2 1 1 255 Pam.PGM_TYPE); Row [10; 20];
                    Header (Pam.mk 3 1 1 255 Pam.PGM_TYPE); Row [1; 2; 3]])
    {| leftcol := 0; rightcol := 0; toprow := 0; bottomrow := 0 |}
    {| opt_left := Some (-1); opt_right := None; opt_top := None;
       opt_bottom := None; opt_width := None; opt_height := None;
       opt_pad := false; opt_verbose := false |}
    [] (fun _ => 7)
  = Exit0 [Header (Pam.mk 1 1 1 255 Pam.PGM_TYPE); Row [20];
           Header (Pam.mk 1 1 1 255 Pam.PGM_TYPE); Row [3]].
Proof.
  apply (main_cuts_every_image 1 (fun _ => 0) 0 1 (Z.eqb 0) scan_decimal
           (fun _ => Some [Header (Pam.mk 2 1 1 255 Pam.PGM_TYPE);
                           Row [10; 20];
                           Header (Pam.mk 3 1 1 255 Pam.PGM_TYPE);
                           Row [1; 2; 3]])
           {| leftcol := 0; rightcol := 0; toprow := 0; bottomrow := 0 |}
           {| opt_left := Some (-1); opt_right := None; opt_top := None;
              opt_bottom := None; opt_width := None; opt_height := None;
              opt_pad := false; opt_verbose := false |}
           []
           (Cmdline.mk "-" (-1) UNSPEC UNSPEC UNSPEC UNSPEC UNSPEC
              false false)
           [(Pam.mk 2 1 1 255 Pam.PGM_TYPE, [[10; 20]]);
            (Pam.mk 3 1 1 255 Pam.PGM_TYPE, [[1; 2; 3]])]
           [(Pam.mk 1 1 1 255 Pam.PGM_TYPE, [[20]]);
            (Pam.mk 1 1 1 255 Pam.PGM_TYPE, [[3]])]
           (fun _ => 7) eq_refl eq_refl ltac:(discriminate)).
  repeat constructor; intros m; eexists _, _;
    (split; [reflexivity | split; reflexivity]).
Defined.

Lemma main_copies_the_file_witness :
  main 1 (fun _ => 0) true false (fun b : bool => b) scan_decimal
    (fun _ => Some [Header (Pam.mk 2 1 1 1 Pam.PBM_TYPE); Row [true; false];
                    Header (Pam.mk 1 2 1 1 Pam.PGM_TYPE); Row [true];
                    Row [false]])
    {| leftcol := 0; rightcol := 0; toprow := 0; bottomrow := 0 |}
    no_options ["pictures"%string] (fun _ => false)
  = Exit0 [Header (Pam.mk 2 1 1 1 Pam.PBM_TYPE); Row [true; false];
           Header (Pam.mk 1 2 1 1 Pam.PGM_TYPE); Row [true]; Row [false]].
Proof.
  apply (main_copies_the_file 1 (fun _ => 0) true false (fun b : bool => b)
           scan_decimal
           (fun _ => Some [Header (Pam.mk 2 1 1 1 Pam.PBM_TYPE);
                           Row [true; false];
                           Header (Pam.mk 1 2 1 1 Pam.PGM_TYPE); Row [true];
                           Row [false]])
           {| leftcol := 0; rightcol := 0; toprow := 0; bottomrow := 0 |}
           no_options ["pictures"%string]
           [(Pam.mk 2 1 1 1 Pam.PBM_TYPE, [[true; false]]);
            (Pam.mk 1 2 1 1 Pam.PGM_TYPE, [[true]; [false]])]
           (fun _ => false)
           ltac:(right; reflexivity) eq_refl eq_refl
           eq_refl eq_refl eq_refl eq_refl eq_refl eq_refl
           ltac:(cbn; lia) eq_refl).
  repeat apply List.Forall_cons; try apply List.Forall_nil;
    unfold whole_image, image_of, pbm_image; cbn [fst snd Pam.width
      Pam.height Pam.format];
    (split; [int_arith|]); (split; [int_arith|]);
    (split; [split; [repeat constructor|reflexivity]|]);
    intros H; try discriminate H;
    split; [int_arith|];
    repeat first [apply List.Forall_nil | apply List.Forall_cons];
    (now left) || (now right).
Defined.
